(** * Wwise SoundBank container (package bnk): a shallow embedding

    This development embeds the Go package [bnk] (file.go) in Rocq and
    proves properties of the chunk parser, the serializer and the wem
    replacement operations.

    Conventions.
    - [uint32] values are integers in [0, 2^32); every Go expression that
      can wrap is written with [wrap32].
    - [int64] offsets are plain integers: they are sums of a file position
      and of a few [uint32] values, far below 2^63 for any file.
    - A Go function that may return an error or panic returns an
      [outcome]; [Diverged] is the result of a loop that was cut by its
      iteration bound.  NewFile and the WriteTo methods never end so
      ([NewFile_terminates], [File_WriteTo_terminates]).
    - The [io.Writer] handed to the [WriteTo] methods is an in-memory
      buffer: the embedding returns the bytes appended to it. *)

From Stdlib Require Import ZArith Lia List.
From Stdlib.Strings Require Import Byte Ascii.
From stdpp Require Import base option list strings gmap pretty.

Local Open Scope Z_scope.

(** ** Errors, panics and outcomes *)

Inductive error : Type :=
  | EOF                 (* io.EOF *)
  | ErrUnexpectedEOF    (* io.ErrUnexpectedEOF *)
  | ErrNegativeOffset   (* os: "negative offset" *)
  | ErrNoWems           (* "There are no wems stored within this SoundBank." *)
  | ErrNotExist         (* os.Open on a missing path *)
  | ErrClosed.          (* os.ErrClosed *)

(** A section identifier is a [[4]byte]. *)
Definition byte4 : Type := (byte * byte * byte * byte)%type.

Inductive panicValue : Type :=
  | NilDereference
      (* runtime error: invalid memory address or nil pointer dereference *)
  | IndexOutOfRange (i : Z) (len : nat)
      (* runtime error: index out of range *)
  | ExpectedHeader (want got : byte4)
      (* "Expected XXXX header but got: ..." *)
  | RepeatedWemId (id : Z)
      (* "%d is an illegal repeated wem ID in the DIDX" *)
  | LargerThanOriginal
      (* ReplaceWem: "Replacing target wems that are larger than the
         original wems is not yet supported" *)
  | TargetLargerThanOriginal (WemIndex length oldLength : Z).
      (* ReplaceWems: "Target wem at index %d (%d bytes) is larger than the
         original wem (%d bytes). ..." *)

Inductive outcome (A : Type) : Type :=
  | Ok (a : A)
  | Err (e : error)
  | Panic (p : panicValue)
  | Diverged.
Arguments Ok {A} a.
Arguments Err {A} e.
Arguments Panic {A} p.
Arguments Diverged {A}.

#[global] Instance outcome_bind : MBind outcome := λ A B k m,
  match m with
  | Ok a => k a
  | Err e => Err e
  | Panic p => Panic p
  | Diverged => Diverged
  end.

#[global] Instance byte_eq_dec : EqDecision byte := Byte.byte_eq_dec.
#[global] Instance error_eq_dec : EqDecision error.
Proof. solve_decision. Defined.

(** ** Constants of the package *)

(* The number of bytes used to describe the header of a section. *)
Definition SECTION_HEADER_BYTES : Z := 8.
(* The number of bytes of the known portion of a BKHD section. *)
Definition BKHD_SECTION_BYTES : Z := 8.
(* The number of bytes of a single data index entry. *)
Definition DIDX_ENTRY_BYTES : Z := 12.

Definition bkhdHeaderId : byte4 := ("B", "K", "H", "D")%byte.
Definition didxHeaderId : byte4 := ("D", "I", "D", "X")%byte.
Definition dataHeaderId : byte4 := ("D", "A", "T", "A")%byte.

Definition MaxInt64 : Z := 2 ^ 63 - 1.
Definition MinInt64 : Z := - 2 ^ 63.

(* The int64 that the mathematical integer z wraps around to. *)
Definition wrap64 (z : Z) : Z := (z + 2 ^ 63) mod 2 ^ 64 - 2 ^ 63.

(** ** Little-endian integers (encoding/binary) *)

Definition wrap32 (z : Z) : Z := z mod 2 ^ 32.

Definition byte_to_Z (b : byte) : Z := Z.of_N (Byte.to_N b).

Definition byte_of_Z (z : Z) : byte :=
  default "000"%byte (Byte.of_N (Z.to_N (z mod 256))).

(* binary.LittleEndian.Uint32 *)
Definition Uint32 (b0 b1 b2 b3 : byte) : Z :=
  byte_to_Z b0 + 2 ^ 8 * byte_to_Z b1 + 2 ^ 16 * byte_to_Z b2
  + 2 ^ 24 * byte_to_Z b3.

(* binary.LittleEndian.PutUint32 *)
Definition PutUint32 (v : Z) : list byte :=
  [byte_of_Z v; byte_of_Z (v / 2 ^ 8); byte_of_Z (v / 2 ^ 16);
   byte_of_Z (v / 2 ^ 24)].

(** ** io.ReaderAt, io.SectionReader, io.ReadFull, io.Copy *)

(** The [io.ReaderAt] values that the package handles: the bytes of a file
    (os.File over a regular file), the package's own [InfiniteReaderAt],
    and an [io.SectionReader] used through its [ReadAt] method. *)
Inductive ReaderAt : Type :=
  | FileReaderAt (contents : list byte)
  | InfiniteReaderAt (Value : byte)
  | SectionReaderAt (r : ReaderAt) (base limit : Z).

(** [ReadAt r len off] is the call [r.ReadAt(p, off)] with [len(p) = len].
    It returns the bytes stored in [p] (from index 0 on), the count [n]
    that the call reports, and its error. *)
Fixpoint ReadAt (r : ReaderAt) (len off : Z)
  : list byte * Z * option error :=
  match r with
  | FileReaderAt contents =>
      if off <? 0 then ([], 0, Some ErrNegativeOffset) else
      let got := take (Z.to_nat len) (drop (Z.to_nat off) contents) in
      let n := Z.of_nat (length got) in
      (got, n, if n <? len then Some EOF else None)
  | InfiniteReaderAt Value =>
      (* ReadAt fills all of len(p) bytes with the Value of this
         InfiniteReaderAt, and returns 1, nil. *)
      (replicate (Z.to_nat len) Value, 1, None)
  | SectionReaderAt r base limit =>
      if (off <? 0) || (limit - base <=? off) then ([], 0, Some EOF) else
      let off := off + base in
      let max := limit - off in
      if max <? len then
        let '(got, n, err) := ReadAt r max off in
        (got, n, Some (default EOF err))
      else ReadAt r len off
  end.

(** An [io.SectionReader] with its read cursor. *)
Record SectionReader : Type := mkSectionReader {
  sr_r : ReaderAt;
  sr_base : Z;
  sr_off : Z;
  sr_limit : Z;
}.

(* io.NewSectionReader(r, off, n), with the overflow guard of the current
   library.  [maxint64 - n] and [n + off] are int64 operations and wrap
   around: for a negative n the difference overflows, the guard fails
   (for every off >= 0) and the limit is maxint64. *)
Definition NewSectionReader (r : ReaderAt) (off n : Z) : SectionReader :=
  let remaining :=
    if off <=? wrap64 (MaxInt64 - n) then wrap64 (n + off) else MaxInt64 in
  mkSectionReader r off off remaining.

(* A *SectionReader passed where an io.ReaderAt is expected. *)
Definition asReaderAt (s : SectionReader) : ReaderAt :=
  SectionReaderAt (sr_r s) (sr_base s) (sr_limit s).

(* SectionReader.Size *)
Definition Size (s : SectionReader) : Z := sr_limit s - sr_base s.

(* SectionReader.Read with len(p) = len *)
Definition Read (s : SectionReader) (len : Z)
  : list byte * Z * option error * SectionReader :=
  if sr_limit s <=? sr_off s then ([], 0, Some EOF, s) else
  let max := sr_limit s - sr_off s in
  let len := if max <? len then max else len in
  let '(got, n, err) := ReadAt (sr_r s) len (sr_off s) in
  (got, n, err,
   mkSectionReader (sr_r s) (sr_base s) (sr_off s + n) (sr_limit s)).

(* SectionReader.Seek(offset, io.SeekCurrent); the reader's base is 0
   wherever the package seeks, so the call cannot fail. *)
Definition SeekCurrent (s : SectionReader) (offset : Z)
  : Z * SectionReader :=
  let offset := offset + sr_off s in
  if offset <? sr_base s then (0, s)
  else (offset - sr_base s,
        mkSectionReader (sr_r s) (sr_base s) offset (sr_limit s)).

(** io.ReadFull(s, buf) with [len(buf) = min]: the loop of io.ReadAtLeast.
    [have] holds the bytes read so far. *)
Fixpoint ReadAtLeast (fuel : nat) (s : SectionReader) (min : Z)
    (have : list byte) : outcome (list byte) * SectionReader :=
  match fuel with
  | O => (Diverged, s)
  | S fuel =>
      let n := Z.of_nat (length have) in
      let '(got, nn, err, s) := Read s (min - n) in
      let have := have ++ take (Z.to_nat nn) got in
      let n := n + nn in
      if min <=? n then (Ok have, s)
      else match err with
           | None => ReadAtLeast fuel s min have
           | Some EOF =>
               (Err (if 0 <? n then ErrUnexpectedEOF else EOF), s)
           | Some e => (Err e, s)
           end
  end.

Definition ReadFull (s : SectionReader) (size : Z)
  : outcome (list byte) * SectionReader :=
  if size <=? 0 then (Ok [], s)
  else ReadAtLeast (S (Z.to_nat size)) s size [].

(** io.Copy(w, src) for a [SectionReader] source: the generic loop with
    its 32 KiB buffer.  Returns the bytes written to [w], the count and
    the error. *)
Definition copyBufferSize : Z := 32 * 1024.

Fixpoint copyLoop (fuel : nat) (s : SectionReader) (out : list byte)
    (written : Z) : outcome (list byte * Z) :=
  match fuel with
  | O => Diverged
  | S fuel =>
      let '(got, nr, er, s) := Read s copyBufferSize in
      let out := if 0 <? nr then out ++ take (Z.to_nat nr) got else out in
      let written := if 0 <? nr then written + nr else written in
      match er with
      | None => copyLoop fuel s out written
      | Some EOF => Ok (out, written)
      | Some e => Err e
      end
  end.

Definition Copy (src : SectionReader) : outcome (list byte * Z) :=
  copyLoop (S (Z.to_nat (sr_limit src - sr_off src))) src [] 0.

(** ** The structures of the package *)

(* A SectionHeader represents a single Wwise SoundBank header. *)
Record SectionHeader : Type := mkSectionHeader {
  Identifier : byte4;
  hdr_Length : Z;               (* uint32 *)
}.

(* A BankDescriptor provides metadata about the overall SoundBank file. *)
Record BankDescriptor : Type := mkBankDescriptor {
  Version : Z;                  (* uint32 *)
  BankId : Z;                   (* uint32 *)
}.

(* A BankHeaderSection represents the BKHD section of a SoundBank file. *)
Record BankHeaderSection : Type := mkBankHeaderSection {
  bkhd_Header : SectionHeader;
  bkhd_Descriptor : BankDescriptor;
  bkhd_RemainingReader : SectionReader;
}.

(* A WemDescriptor represents the location of a single wem entity within
   the SoundBank DATA section. *)
Record WemDescriptor : Type := mkWemDescriptor {
  WemId : Z;                    (* uint32 *)
  Offset : Z;                   (* uint32 *)
  Length : Z;                   (* uint32 *)
}.

#[global] Instance WemDescriptor_eq_dec : EqDecision WemDescriptor.
Proof. solve_decision. Defined.

(* A DataIndexSection represents the DIDX section of a SoundBank file. *)
Record DataIndexSection : Type := mkDataIndexSection {
  didx_Header : SectionHeader;
  WemCount : Z;                 (* uint32 *)
  WemIds : list Z;
  DescriptorMap : gmap Z WemDescriptor;
}.

(* A Wem represents a single sound entity contained within a SoundBank
   file.  [RemainingReader] is an interface value and may be nil. *)
Record Wem : Type := mkWem {
  Reader : SectionReader;
  Descriptor : WemDescriptor;
  RemainingReader : option SectionReader;
  RemainingLength : Z;          (* int64 *)
}.

(* A DataSection represents the DATA section of a SoundBank file. *)
Record DataSection : Type := mkDataSection {
  data_Header : SectionHeader;
  DataStart : Z;                (* uint32 *)
  Wems : list Wem;
}.

(* An UnknownSection represents an unknown section in a SoundBank file. *)
Record UnknownSection : Type := mkUnknownSection {
  unk_Header : SectionHeader;
  unk_Reader : SectionReader;
}.

(** The [io.Closer] of a [File] is the [*os.File] that [Open] obtained; it
    is identified by its descriptor number. *)
Record Closer : Type := mkCloser { fd : nat }.

(* A File represents an open Wwise SoundBank.  The four pointer fields
   may be nil. *)
Record File : Type := mkFile {
  closer : option Closer;
  bnk_BankHeaderSection : option BankHeaderSection;
  bnk_IndexSection : option DataIndexSection;
  bnk_DataSection : option DataSection;
  Others : list UnknownSection;
}.

(* A ReplacementWem defines a wem to be replaced into an original
   SoundBank File. *)
Record ReplacementWem : Type := mkReplacementWem {
  rw_Wem : ReaderAt;
  rw_WemIndex : Z;              (* int *)
  rw_Length : Z;                (* int64 *)
}.

(** ** encoding/binary on the package's fixed-size structures *)

Definition byteAt (bs : list byte) (i : nat) : byte :=
  default "000"%byte (bs !! i).

Definition getUint32 (bs : list byte) (i : nat) : Z :=
  Uint32 (byteAt bs i) (byteAt bs (i + 1)) (byteAt bs (i + 2))
         (byteAt bs (i + 3)).

Definition decodeSectionHeader (bs : list byte) : SectionHeader :=
  mkSectionHeader (byteAt bs 0, byteAt bs 1, byteAt bs 2, byteAt bs 3)
                  (getUint32 bs 4).

Definition decodeBankDescriptor (bs : list byte) : BankDescriptor :=
  mkBankDescriptor (getUint32 bs 0) (getUint32 bs 4).

Definition decodeWemDescriptor (bs : list byte) : WemDescriptor :=
  mkWemDescriptor (getUint32 bs 0) (getUint32 bs 4) (getUint32 bs 8).

Definition encodeIdentifier (id : byte4) : list byte :=
  let '(a, b, c, d) := id in [a; b; c; d].

Definition encodeSectionHeader (h : SectionHeader) : list byte :=
  encodeIdentifier (Identifier h) ++ PutUint32 (hdr_Length h).

Definition encodeBankDescriptor (d : BankDescriptor) : list byte :=
  PutUint32 (Version d) ++ PutUint32 (BankId d).

Definition encodeWemDescriptor (d : WemDescriptor) : list byte :=
  PutUint32 (WemId d) ++ PutUint32 (Offset d) ++ PutUint32 (Length d).

(* binary.Read(r, binary.LittleEndian, data) where data has [size] bytes:
   io.ReadFull followed by decoding. *)
Definition binaryRead (r : SectionReader) (size : Z)
  : outcome (list byte * SectionReader) :=
  let '(res, r) := ReadFull r size in
  bs ← res; Ok (bs, r).

(** ** Parsing the sections *)

(* NewBankHeaderSection creates a new BankHeaderSection, reading from sr,
   which must be seeked to the start of the BKHD section data. *)
Definition NewBankHeaderSection (hdr : SectionHeader) (sr : SectionReader)
  : outcome (BankHeaderSection * SectionReader) :=
  if decide (Identifier hdr ≠ bkhdHeaderId) then
    Panic (ExpectedHeader bkhdHeaderId (Identifier hdr))
  else
    '(bs, sr) ← binaryRead sr BKHD_SECTION_BYTES;
    let desc := decodeBankDescriptor bs in
    let '(knownOffset, sr) := SeekCurrent sr 0 in
    let remaining := wrap32 (hdr_Length hdr - BKHD_SECTION_BYTES) in
    let rr := NewSectionReader (asReaderAt sr) knownOffset remaining in
    let '(_, sr) := SeekCurrent sr remaining in
    Ok (mkBankHeaderSection hdr desc rr, sr).

(* The loop [for i := uint32(0); i < wemCount; i++], [count] iterations
   from the end. *)
Fixpoint NewDataIndexSection_loop (count : nat) (r : SectionReader)
    (sec : DataIndexSection)
  : outcome (DataIndexSection * SectionReader) :=
  match count with
  | O => Ok (sec, r)
  | S count =>
      '(bs, r) ← binaryRead r DIDX_ENTRY_BYTES;
      let desc := decodeWemDescriptor bs in
      if decide (is_Some (DescriptorMap sec !! WemId desc)) then
        Panic (RepeatedWemId (WemId desc))
      else
        NewDataIndexSection_loop count r
          (mkDataIndexSection (didx_Header sec) (WemCount sec)
             (WemIds sec ++ [WemId desc])
             (<[WemId desc := desc]> (DescriptorMap sec)))
  end.

(* NewDataIndexSection creates a new DataIndexSection, reading from r,
   which must be seeked to the start of the DIDX section data. *)
Definition NewDataIndexSection (hdr : SectionHeader) (r : SectionReader)
  : outcome (DataIndexSection * SectionReader) :=
  if decide (Identifier hdr ≠ didxHeaderId) then
    Panic (ExpectedHeader didxHeaderId (Identifier hdr))
  else
    let wemCount := hdr_Length hdr / DIDX_ENTRY_BYTES in
    NewDataIndexSection_loop (Z.to_nat wemCount) r
      (mkDataIndexSection hdr wemCount [] ∅).

(* idx.DescriptorMap[id]: the zero WemDescriptor when id is not a key. *)
Definition descriptorOf (m : gmap Z WemDescriptor) (id : Z)
  : WemDescriptor :=
  default (mkWemDescriptor 0 0 0) (m !! id).

(* The body of [for i, id := range idx.WemIds] in NewDataSection. *)
Definition newWem (hdr : SectionHeader) (sr : SectionReader)
    (idx : DataIndexSection) (dataOffset : Z) (i : nat) (id : Z) : Wem :=
  let desc := descriptorOf (DescriptorMap idx) id in
  let wemStartOffset := dataOffset + Offset desc in
  let wemReader :=
    NewSectionReader (asReaderAt sr) wemStartOffset (Length desc) in
  let len := Z.of_nat (length (WemIds idx)) in
  if Z.of_nat i <=? len - 1 then
    let wemEndOffset := wemStartOffset + Length desc in
    let nextOffset :=
      if Z.of_nat i =? len - 1 then
        (* This is the last wem, check how many bytes remain until the end
           of the data section. *)
        dataOffset + hdr_Length hdr
      else
        (* This is not the last wem, check how many bytes remain until the
           next wem. *)
        let nextDesc :=
          descriptorOf (DescriptorMap idx) (WemIds idx !!! (i + 1)%nat) in
        dataOffset + Offset nextDesc in
    let remaining := nextOffset - wemEndOffset in
    let remReader :=
      NewSectionReader (asReaderAt sr) wemEndOffset remaining in
    mkWem wemReader desc (Some remReader) remaining
  else
    mkWem wemReader desc None 0.

(* NewDataSection creates a new DataSection, reading from sr, which must be
   seeked to the start of the DATA section data.  idx may be nil. *)
Definition NewDataSection (hdr : SectionHeader) (sr : SectionReader)
    (idx : option DataIndexSection)
  : outcome (DataSection * SectionReader) :=
  if decide (Identifier hdr ≠ dataHeaderId) then
    Panic (ExpectedHeader dataHeaderId (Identifier hdr))
  else
    let '(dataOffset, sr) := SeekCurrent sr 0 in
    match idx with
    | None => Panic NilDereference      (* idx.WemIds with idx == nil *)
    | Some idx =>
        let wems := imap (newWem hdr sr idx dataOffset) (WemIds idx) in
        let '(_, sr') := SeekCurrent sr (hdr_Length hdr) in
        Ok (mkDataSection hdr (wrap32 dataOffset) wems, sr')
    end.

(* NewUnknownSection creates a new UnknownSection, reading from sr, which
   must be seeked to the start of the unknown section data. *)
Definition NewUnknownSection (hdr : SectionHeader) (sr : SectionReader)
  : outcome (UnknownSection * SectionReader) :=
  let '(dataOffset, sr) := SeekCurrent sr 0 in
  let r := NewSectionReader (asReaderAt sr) dataOffset (hdr_Length hdr) in
  let '(_, sr') := SeekCurrent sr (hdr_Length hdr) in
  Ok (mkUnknownSection hdr r, sr').

(** ** NewFile *)

Definition newFile : File := mkFile None None None None [].

(** The [switch] on the identifier of the header that NewFile has just
    read: the section is parsed and stored in [bnk]. *)
Definition NewFile_switch (bnk : File) (hdr : SectionHeader)
    (sr : SectionReader) : outcome (File * SectionReader) :=
  let id := Identifier hdr in
  if decide (id = bkhdHeaderId) then
    '(sec, sr) ← NewBankHeaderSection hdr sr;
    Ok (mkFile (closer bnk) (Some sec) (bnk_IndexSection bnk)
          (bnk_DataSection bnk) (Others bnk), sr)
  else if decide (id = didxHeaderId) then
    '(sec, sr) ← NewDataIndexSection hdr sr;
    Ok (mkFile (closer bnk) (bnk_BankHeaderSection bnk) (Some sec)
          (bnk_DataSection bnk) (Others bnk), sr)
  else if decide (id = dataHeaderId) then
    '(sec, sr) ← NewDataSection hdr sr (bnk_IndexSection bnk);
    Ok (mkFile (closer bnk) (bnk_BankHeaderSection bnk)
          (bnk_IndexSection bnk) (Some sec) (Others bnk), sr)
  else
    '(sec, sr) ← NewUnknownSection hdr sr;
    Ok (mkFile (closer bnk) (bnk_BankHeaderSection bnk)
          (bnk_IndexSection bnk) (bnk_DataSection bnk)
          (Others bnk ++ [sec]), sr).

(** One iteration of the [for] loop of NewFile: [Ok None] is the [break]
    on io.EOF, [Ok (Some (bnk, sr))] the state after a dispatched
    section. *)
Definition NewFile_body (bnk : File) (sr : SectionReader)
  : outcome (option (File * SectionReader)) :=
  match ReadFull sr SECTION_HEADER_BYTES with
  | (Err EOF, _) => Ok None
  | (Err e, _) => Err e
  | (Panic p, _) => Panic p
  | (Diverged, _) => Diverged
  | (Ok bs, sr) =>
      next ← NewFile_switch bnk (decodeSectionHeader bs) sr; Ok (Some next)
  end.

Fixpoint NewFile_loop (fuel : nat) (bnk : File) (sr : SectionReader)
  : outcome File :=
  match fuel with
  | O => Diverged
  | S fuel =>
      next ← NewFile_body bnk sr;
      match next with
      | None => Ok bnk
      | Some (bnk, sr) => NewFile_loop fuel bnk sr
      end
  end.

(* sr := io.NewSectionReader(r, 0, math.MaxInt64) *)
Definition fileReader (contents : list byte) : SectionReader :=
  NewSectionReader (FileReaderAt contents) 0 MaxInt64.

(** NewFile (file.go, lines 36-83) on a reader over [contents].  Every
    iteration that does not leave the loop consumes a section header, so
    [S (length contents)] iterations are never exhausted
    (see [NewFile_terminates]). *)
Definition NewFile (contents : list byte) : outcome File :=
  bnk ← NewFile_loop (S (length contents)) newFile (fileReader contents);
  match bnk_DataSection bnk with
  | None => Err ErrNoWems
  | Some _ => Ok bnk
  end.

(** The second listing of NewFile (file.go, lines 295-338) is the same loop
    without the final test on [bnk.DataSection]. *)
Definition NewFile_legacy (contents : list byte) : outcome File :=
  NewFile_loop (S (length contents)) newFile (fileReader contents).

(** ** WriteTo *)

(** Each [WriteTo] returns the bytes appended to the writer and the count
    [written]. *)

Definition BankHeaderSection_WriteTo (hdr : BankHeaderSection)
  : outcome (list byte * Z) :=
  let out := encodeSectionHeader (bkhd_Header hdr) in
  let written := SECTION_HEADER_BYTES in
  let out := out ++ encodeBankDescriptor (bkhd_Descriptor hdr) in
  let written := written + BKHD_SECTION_BYTES in
  '(bs, n) ← Copy (bkhd_RemainingReader hdr);
  Ok (out ++ bs, written + n).

Definition DataIndexSection_WriteTo (idx : DataIndexSection)
  : outcome (list byte * Z) :=
  let out := encodeSectionHeader (didx_Header idx) in
  let written := SECTION_HEADER_BYTES in
  Ok (foldl (λ '(out, written) id,
               let desc := descriptorOf (DescriptorMap idx) id in
               (out ++ encodeWemDescriptor desc,
                written + DIDX_ENTRY_BYTES))
            (out, written) (WemIds idx)).

Fixpoint DataSection_WriteTo_loop (wems : list Wem) (out : list byte)
    (written : Z) : outcome (list byte * Z) :=
  match wems with
  | [] => Ok (out, written)
  | wem :: wems =>
      '(bs, n) ← Copy (Reader wem);
      let out := out ++ bs in
      let written := written + n in
      match RemainingReader wem with
      | None => Panic NilDereference
      | Some rem =>
          '(bs, n) ← Copy rem;
          DataSection_WriteTo_loop wems (out ++ bs) (written + n)
      end
  end.

Definition DataSection_WriteTo (data : DataSection)
  : outcome (list byte * Z) :=
  DataSection_WriteTo_loop (Wems data)
    (encodeSectionHeader (data_Header data)) SECTION_HEADER_BYTES.

Definition UnknownSection_WriteTo (unknown : UnknownSection)
  : outcome (list byte * Z) :=
  let out := encodeSectionHeader (unk_Header unknown) in
  let written := SECTION_HEADER_BYTES in
  '(bs, n) ← Copy (unk_Reader unknown);
  Ok (out ++ bs, written + n).

Fixpoint File_WriteTo_others (others : list UnknownSection)
    (out : list byte) (written : Z) : outcome (list byte * Z) :=
  match others with
  | [] => Ok (out, written)
  | other :: others =>
      '(bs, n) ← UnknownSection_WriteTo other;
      File_WriteTo_others others (out ++ bs) (written + n)
  end.

(* WriteTo writes the full contents of this File to the Writer. *)
Definition File_WriteTo (bnk : File) : outcome (list byte * Z) :=
  match bnk_BankHeaderSection bnk with
  | None => Panic NilDereference
  | Some hdr =>
      '(out, written) ← BankHeaderSection_WriteTo hdr;
      match bnk_IndexSection bnk with
      | None => Panic NilDereference
      | Some idx =>
          '(bs, n) ← DataIndexSection_WriteTo idx;
          let out := out ++ bs in
          let written := written + n in
          match bnk_DataSection bnk with
          | None => Panic NilDereference
          | Some data =>
              '(bs, n) ← DataSection_WriteTo data;
              File_WriteTo_others (Others bnk) (out ++ bs) (written + n)
          end
      end
  end.

(** ** Replacing wems *)

(** The replacement methods mutate the File and may panic half-way: the
    result carries the File as it is when the call ends. *)
Inductive exec : Type :=
  | Returned (bnk : File)
  | Panicked (p : panicValue) (bnk : File).

Definition fileOf (e : exec) : File :=
  match e with Returned bnk => bnk | Panicked _ bnk => bnk end.

Definition setWem (bnk : File) (data : DataSection) (i : nat) (wem : Wem)
  : File :=
  mkFile (closer bnk) (bnk_BankHeaderSection bnk) (bnk_IndexSection bnk)
    (Some (mkDataSection (data_Header data) (DataStart data)
             (<[i := wem]> (Wems data))))
    (Others bnk).

Definition setDescriptor (bnk : File) (idx : DataIndexSection)
    (desc : WemDescriptor) : File :=
  mkFile (closer bnk) (bnk_BankHeaderSection bnk)
    (Some (mkDataIndexSection (didx_Header idx) (WemCount idx) (WemIds idx)
             (<[WemId desc := desc]> (DescriptorMap idx))))
    (bnk_DataSection bnk) (Others bnk).

(** The statements shared by ReplaceWem and by the loop body of
    ReplaceWems, which differ in the panic value only. *)
Definition replaceAt (bnk : File) (i : Z) (r : ReaderAt) (length : Z)
    (tooLarge : Z → panicValue) : exec :=
  match bnk_DataSection bnk with
  | None => Panicked NilDereference bnk
  | Some data =>
      match (if i <? 0 then None else Wems data !! Z.to_nat i) with
      | None => Panicked (IndexOutOfRange i (List.length (Wems data))) bnk
      | Some wem =>
          let oldLength := Length (Descriptor wem) in
          if oldLength <? length then Panicked (tooLarge oldLength) bnk
          else
            let diff := oldLength - length in
            let reader := NewSectionReader r 0 length in
            let remaining := diff + RemainingLength wem in
            let remReader :=
              NewSectionReader (InfiniteReaderAt "000"%byte) 0 remaining in
            let oldDesc := Descriptor wem in
            let desc :=
              mkWemDescriptor (WemId oldDesc) (Offset oldDesc)
                              (wrap32 length) in
            let wem :=
              mkWem reader desc (Some remReader) (RemainingLength wem) in
            let bnk := setWem bnk data (Z.to_nat i) wem in
            match bnk_IndexSection bnk with
            | None => Panicked NilDereference bnk
            | Some idx => Returned (setDescriptor bnk idx desc)
            end
      end
  end.

(* ReplaceWem replaces the wem of File at index i, reading the wem, with
   specified length in from r.  (file.go, lines 571-587) *)
Definition ReplaceWem (bnk : File) (i : Z) (r : ReaderAt) (length : Z)
  : exec :=
  replaceAt bnk i r length (λ _, LargerThanOriginal).

(* ReplaceWems, the variadic form.  (file.go, lines 141-161) *)
Fixpoint ReplaceWems (bnk : File) (replacements : list ReplacementWem)
  : exec :=
  match replacements with
  | [] => Returned bnk
  | r :: replacements =>
      match replaceAt bnk (rw_WemIndex r) (rw_Wem r) (rw_Length r)
              (TargetLargerThanOriginal (rw_WemIndex r) (rw_Length r)) with
      | Returned bnk => ReplaceWems bnk replacements
      | Panicked p bnk => Panicked p bnk
      end
  end.

(** ** Open and Close *)

(** The part of the operating system that Open and Close touch: the
    regular files by path, and the descriptors that are open. *)
Record World : Type := mkWorld {
  files : gmap string (list byte);
  openFds : gset nat;
  nextFd : nat;
}.

(* os.Open(path) *)
Definition os_Open (path : string) (w : World)
  : outcome (Closer * list byte) * World :=
  match files w !! path with
  | None => (Err ErrNotExist, w)
  | Some contents =>
      (Ok (mkCloser (nextFd w), contents),
       mkWorld (files w) ({[nextFd w]} ∪ openFds w) (S (nextFd w)))
  end.

(* (f *os.File).Close() *)
Definition os_Close (f : Closer) (w : World) : option error * World :=
  if decide (fd f ∈ openFds w) then
    (None, mkWorld (files w) (openFds w ∖ {[fd f]}) (nextFd w))
  else (Some ErrClosed, w).

(* Open opens the File at the specified path using os.Open and prepares it
   for use as a Wwise SoundBank file. *)
Definition Open (path : string) (w : World) : outcome File * World :=
  match os_Open path w with
  | (Ok (f, contents), w) =>
      match NewFile contents with
      | Ok bnk =>
          (Ok (mkFile (Some f) (bnk_BankHeaderSection bnk)
                 (bnk_IndexSection bnk) (bnk_DataSection bnk) (Others bnk)),
           w)
      | Err e => let '(_, w) := os_Close f w in (Err e, w)
      | Panic p => (Panic p, w)
      | Diverged => (Diverged, w)
      end
  | (Err e, w) => (Err e, w)
  | (Panic p, w) => (Panic p, w)
  | (Diverged, w) => (Diverged, w)
  end.

(* Close closes the File.  If the File was created using NewFile directly
   instead of Open, Close has no effect. *)
Definition Close (bnk : File) (w : World) : option error * File * World :=
  match closer bnk with
  | Some c =>
      let '(err, w) := os_Close c w in
      (err,
       mkFile None (bnk_BankHeaderSection bnk) (bnk_IndexSection bnk)
         (bnk_DataSection bnk) (Others bnk),
       w)
  | None => (None, bnk, w)
  end.


(** * Notions used in the statements *)

(** The state of the reader [sr] of NewFile when its cursor is at [off]. *)
Definition fileCursor (contents : list byte) (off : Z) : SectionReader :=
  mkSectionReader (FileReaderAt contents) 0 off MaxInt64.

(** [sr] seen as an io.ReaderAt by the section readers built on it. *)
Definition fileView (contents : list byte) : ReaderAt :=
  SectionReaderAt (FileReaderAt contents) 0 MaxInt64.

(** The bytes of [contents] in the window [off, off + n). *)
Definition window (contents : list byte) (off n : Z) : list byte :=
  take (Z.to_nat n) (drop (Z.to_nat off) contents).

(** The wem that a replacement by [length] bytes of [r] installs in place
    of [wem]. *)
Definition replacedWem (wem : Wem) (r : ReaderAt) (length : Z) : Wem :=
  mkWem (NewSectionReader r 0 length)
    (mkWemDescriptor (WemId (Descriptor wem)) (Offset (Descriptor wem))
       (wrap32 length))
    (Some (NewSectionReader (InfiniteReaderAt "000"%byte) 0
             (Length (Descriptor wem) - length + RemainingLength wem)))
    (RemainingLength wem).

(** The wems of a File; a File without DATA section has none. *)
Definition wemsOf (bnk : File) : list Wem :=
  match bnk_DataSection bnk with Some data => Wems data | None => [] end.

(** The state of the loop of NewFile after [k] iterations that dispatched
    a section, when the loop gets that far. *)
Fixpoint NewFile_run (k : nat) (bnk : File) (sr : SectionReader)
  : option (File * SectionReader) :=
  match k with
  | O => Some (bnk, sr)
  | S k =>
      match NewFile_body bnk sr with
      | Ok (Some (bnk, sr)) => NewFile_run k bnk sr
      | _ => None
      end
  end.

(** The section header that the next iteration reads at [sr]. *)
Definition headerAt (sr : SectionReader) : option SectionHeader :=
  match ReadFull sr SECTION_HEADER_BYTES with
  | (Ok bs, _) => Some (decodeSectionHeader bs)
  | _ => None
  end.

(** The section headers that the loop of NewFile reads, in order. *)
Fixpoint NewFile_headers (fuel : nat) (bnk : File) (sr : SectionReader)
  : list SectionHeader :=
  match fuel with
  | O => []
  | S fuel =>
      match headerAt sr with
      | None => []
      | Some hdr =>
          hdr :: match NewFile_body bnk sr with
                 | Ok (Some (bnk, sr)) => NewFile_headers fuel bnk sr
                 | _ => []
                 end
      end
  end.

Definition headersRead (contents : list byte) : list SectionHeader :=
  NewFile_headers (S (length contents)) newFile (fileReader contents).

(** The loop of NewFile leaves by its [break]: the input is exhausted at a
    section boundary. *)
Definition exhausted (contents : list byte) : Prop :=
  ∃ bnk, NewFile_loop (S (length contents)) newFile (fileReader contents)
         = Ok bnk.

(** One more call of Close, on the File and the world that the previous
    call left. *)
Definition closeAgain (st : option error * File * World)
  : option error * File * World :=
  Close st.1.2 st.2.

(** The [count] index records stored from offset [off] on. *)
Fixpoint indexRecords (contents : list byte) (off : Z) (count : nat)
  : list WemDescriptor :=
  match count with
  | O => []
  | S count =>
      decodeWemDescriptor (window contents off 12)
      :: indexRecords contents (off + 12) count
  end.

(** [j] is the first position of [ids] whose id occurs before it. *)
Definition firstRepeat (ids : list Z) (j : nat) (id : Z) : Prop :=
  ids !! j = Some id ∧ id ∈ take j ids ∧ NoDup (take j ids).

(** What a replacement leaves alone: the number of wems, the WemId and the
    Offset of every wem, and the whole wem at the positions that satisfy
    [untouched]. *)
Definition framed (bnk bnk' : File) (untouched : nat → Prop) : Prop :=
  length (wemsOf bnk') = length (wemsOf bnk) ∧
  ∀ j wem, wemsOf bnk !! j = Some wem →
    ∃ wem', wemsOf bnk' !! j = Some wem' ∧
      WemId (Descriptor wem') = WemId (Descriptor wem) ∧
      Offset (Descriptor wem') = Offset (Descriptor wem) ∧
      (untouched j → wem' = wem).

(** The index records that DataIndexSection.WriteTo writes for the ids
    [ids], in that order. *)
Definition indexRecordBytes (m : gmap Z WemDescriptor) (ids : list Z)
  : list byte :=
  flat_map (λ id, encodeWemDescriptor (descriptorOf m id)) ids.

(** The sum over the wems of Descriptor.Length + RemainingLength. *)
Definition spanSum (wems : list Wem) : Z :=
  foldr (λ wem acc, Length (Descriptor wem) + RemainingLength wem + acc)
        0 wems.

(** The wems that NewDataSection builds for the ids [ids], by recursion on
    [ids]: [view] is the reader of the file, [descOf] the lookup in the
    DescriptorMap of the index. *)
Fixpoint wemsFrom (hdr : SectionHeader) (view : ReaderAt) (dataOffset : Z)
    (descOf : Z → WemDescriptor) (ids : list Z) : list Wem :=
  match ids with
  | [] => []
  | id :: rest =>
      let desc := descOf id in
      let wemStartOffset := dataOffset + Offset desc in
      let wemEndOffset := wemStartOffset + Length desc in
      let nextOffset :=
        match rest with
        | [] => dataOffset + hdr_Length hdr
        | next :: _ => dataOffset + Offset (descOf next)
        end in
      let remaining := nextOffset - wemEndOffset in
      mkWem (NewSectionReader view wemStartOffset (Length desc)) desc
            (Some (NewSectionReader view wemEndOffset remaining)) remaining
      :: wemsFrom hdr view dataOffset descOf rest
  end.

(** A DATA section as NewDataSection builds it. *)
Definition dataSectionBuilt (data : DataSection) : Prop :=
  ∃ view dataOffset descOf ids,
    Wems data = wemsFrom (data_Header data) view dataOffset descOf ids.

(** ** Well-formed sound banks *)

(** A section of the file format: its identifier and its payload. *)
Record chunk : Type := mkChunk {
  tag : byte4;
  payload : list byte;
}.

Definition chunkHeader (c : chunk) : SectionHeader :=
  mkSectionHeader (tag c) (Z.of_nat (length (payload c))).

Definition encodeChunk (c : chunk) : list byte :=
  encodeSectionHeader (chunkHeader c) ++ payload c.

Definition encodeChunks (cs : list chunk) : list byte :=
  flat_map encodeChunk cs.

(** The records of an index payload, in the order of the payload. *)
Definition recordsOf (payload : list byte) : list WemDescriptor :=
  indexRecords payload 0 (Z.to_nat (Z.of_nat (length payload) / 12)).

(** Every wem ends at or before the start of the next one, the last one at
    or before the end of the DATA payload. *)
Fixpoint tiles (descs : list WemDescriptor) (total : Z) : Prop :=
  match descs with
  | [] => True
  | d :: rest =>
      Offset d + Length d ≤
        match rest with [] => total | next :: _ => Offset next end
      ∧ tiles rest total
  end.

(** The wems and their padding cover the whole DATA payload: the first wem
    starts at offset 0, and a payload without wems is empty. *)
Definition covers (descs : list WemDescriptor) (payload : list byte)
  : Prop :=
  match descs with
  | [] => payload = []
  | d :: _ => Offset d = 0 ∧ tiles descs (Z.of_nat (length payload))
  end.

Definition isBankHeader (c : chunk) : Prop := tag c = bkhdHeaderId.
Definition isIndexOrData (c : chunk) : Prop :=
  tag c = didxHeaderId ∨ tag c = dataHeaderId.
Definition isUnknown (c : chunk) : Prop :=
  tag c ≠ bkhdHeaderId ∧ tag c ≠ didxHeaderId ∧ tag c ≠ dataHeaderId.

#[global] Instance isBankHeader_dec c : Decision (isBankHeader c).
Proof. unfold isBankHeader. apply _. Defined.
#[global] Instance isIndexOrData_dec c : Decision (isIndexOrData c).
Proof. unfold isIndexOrData. apply _. Defined.
#[global] Instance isUnknown_dec c : Decision (isUnknown c).
Proof. unfold isUnknown. apply _. Defined.

(** The index section [idx] holds the records of the index chunk [c]. *)
Definition indexOf (c : chunk) (idx : DataIndexSection) : Prop :=
  didx_Header idx = chunkHeader c ∧
  WemIds idx = WemId <$> recordsOf (payload c) ∧
  ∀ d, d ∈ recordsOf (payload c) → DescriptorMap idx !! WemId d = Some d.

(** What the File holds after the loop of NewFile has gone through the
    chunks [done] of a bank whose BKHD, DIDX and DATA chunks are [cb], [ci]
    and [cd]: each section present serializes to the bytes of its chunk. *)
Definition parsedSoFar (cb ci cd : chunk) (bnk : File) (done : list chunk)
  : Prop :=
  match bnk_BankHeaderSection bnk with
  | Some sec =>
      BankHeaderSection_WriteTo sec =
        Ok (encodeChunk cb, Z.of_nat (length (encodeChunk cb)))
  | None => Forall (λ c, tag c ≠ bkhdHeaderId) done
  end ∧
  match bnk_IndexSection bnk with
  | Some idx => indexOf ci idx
  | None => Forall (λ c, tag c ≠ didxHeaderId) done
  end ∧
  match bnk_DataSection bnk with
  | Some data =>
      DataSection_WriteTo data =
        Ok (encodeChunk cd, Z.of_nat (length (encodeChunk cd)))
  | None => Forall (λ c, tag c ≠ dataHeaderId) done
  end ∧
  ∀ out written,
    File_WriteTo_others (Others bnk) out written =
      Ok (out ++ encodeChunks (filter isUnknown done),
          written
          + Z.of_nat (length (encodeChunks (filter isUnknown done)))).

(** ** Example sound banks *)

Definition sectionHeaderBytes (id : byte4) (length : Z) : list byte :=
  encodeSectionHeader (mkSectionHeader id length).

(** A bank with a BKHD section, an index with the single record
    {1, 0, 4} and a DATA section of 8 bytes: the payload AA AA AA AA and
    four bytes of padding. *)
Definition exampleBank : list byte :=
  sectionHeaderBytes bkhdHeaderId 8 ++ PutUint32 134 ++ PutUint32 77
  ++ sectionHeaderBytes didxHeaderId 12
  ++ encodeWemDescriptor (mkWemDescriptor 1 0 4)
  ++ sectionHeaderBytes dataHeaderId 8
  ++ ["170"; "170"; "170"; "170"; "000"; "000"; "000"; "000"]%byte.

Definition exampleFile : File :=
  Eval vm_compute in
    match NewFile exampleBank with Ok bnk => bnk | _ => newFile end.

(** The two bytes BB BB. *)
Definition exampleSource : ReaderAt := FileReaderAt ["187"; "187"]%byte.

(** A bank that holds a BKHD section only. *)
Definition bankHeaderOnly : list byte :=
  sectionHeaderBytes bkhdHeaderId 8 ++ PutUint32 134 ++ PutUint32 77.

(** A bank whose DATA section comes before its DIDX section. *)
Definition dataFirstBank : list byte :=
  sectionHeaderBytes bkhdHeaderId 8 ++ PutUint32 134 ++ PutUint32 77
  ++ sectionHeaderBytes dataHeaderId 4 ++ ["001"; "002"; "003"; "004"]%byte
  ++ sectionHeaderBytes didxHeaderId 12
  ++ encodeWemDescriptor (mkWemDescriptor 1 0 4).

(** A bank with two wems, {7, 0, 3} followed by one byte of padding and
    {9, 4, 2} followed by two. *)
Definition twoWemBank : list byte :=
  sectionHeaderBytes bkhdHeaderId 8 ++ PutUint32 134 ++ PutUint32 77
  ++ sectionHeaderBytes didxHeaderId 24
  ++ encodeWemDescriptor (mkWemDescriptor 7 0 3)
  ++ encodeWemDescriptor (mkWemDescriptor 9 4 2)
  ++ sectionHeaderBytes dataHeaderId 8
  ++ ["001"; "002"; "003"; "000"; "004"; "005"; "000"; "000"]%byte.

Definition twoWemFile : File :=
  Eval vm_compute in
    match NewFile twoWemBank with Ok bnk => bnk | _ => newFile end.

(** A bank without BKHD section. *)
Definition noBankHeaderBank : list byte :=
  sectionHeaderBytes didxHeaderId 12
  ++ encodeWemDescriptor (mkWemDescriptor 1 0 4)
  ++ sectionHeaderBytes dataHeaderId 4
  ++ ["170"; "170"; "170"; "170"]%byte.

(** A bank whose DIDX section declares 20 bytes: one record and 8 more
    bytes, which read as the header of an empty section. *)
Definition looseIndexChunk : list byte :=
  sectionHeaderBytes didxHeaderId 20
  ++ encodeWemDescriptor (mkWemDescriptor 1 0 4)
  ++ sectionHeaderBytes ("P", "A", "D", "S")%byte 0.

Definition looseIndexBank : list byte :=
  sectionHeaderBytes bkhdHeaderId 8 ++ PutUint32 134 ++ PutUint32 77
  ++ looseIndexChunk
  ++ sectionHeaderBytes dataHeaderId 4
  ++ ["170"; "170"; "170"; "170"]%byte.

(** The chunks of a bank with unknown sections before, between and after
    the known ones. *)
Definition exampleChunks : list chunk :=
  [mkChunk ("H", "I", "R", "C")%byte ["001"; "002"; "003"]%byte;
   mkChunk bkhdHeaderId (PutUint32 134 ++ PutUint32 77 ++ ["009"]%byte);
   mkChunk didxHeaderId
     (encodeWemDescriptor (mkWemDescriptor 7 0 3)
      ++ encodeWemDescriptor (mkWemDescriptor 9 4 2));
   mkChunk ("S", "T", "I", "D")%byte [];
   mkChunk dataHeaderId
     ["001"; "002"; "003"; "000"; "004"; "005"; "000"; "000"]%byte;
   mkChunk ("E", "N", "V", "S")%byte ["007"]%byte].

(** A world with one bank on disk and no open descriptor. *)
Definition exampleWorld : World :=
  mkWorld {["example.bnk" := exampleBank]} ∅ 3.

(** A bank whose index holds two records with the id 5. *)
Definition repeatedIdBank : list byte :=
  sectionHeaderBytes bkhdHeaderId 8 ++ PutUint32 134 ++ PutUint32 77
  ++ sectionHeaderBytes didxHeaderId 24
  ++ encodeWemDescriptor (mkWemDescriptor 5 0 2)
  ++ encodeWemDescriptor (mkWemDescriptor 5 2 2)
  ++ sectionHeaderBytes dataHeaderId 4 ++ ["001"; "002"; "003"; "004"]%byte.

(** A bank whose only wem starts 4 bytes into the DATA section. *)
Definition gapBankData : list byte :=
  sectionHeaderBytes dataHeaderId 8
  ++ ["001"; "002"; "003"; "004"; "170"; "170"; "170"; "170"]%byte.

Definition gapBank : list byte :=
  sectionHeaderBytes bkhdHeaderId 8 ++ PutUint32 134 ++ PutUint32 77
  ++ sectionHeaderBytes didxHeaderId 12
  ++ encodeWemDescriptor (mkWemDescriptor 1 4 4)
  ++ gapBankData.

(** [exampleWorld] after its bank has been opened, on descriptor 3, and
    closed again. *)
Definition exampleWorld_closed : World :=
  mkWorld {["example.bnk" := exampleBank]} ∅ 4.

(** * Further notions *)

(** The File has an index whenever it has a DATA section. *)
Definition indexBeforeData (bnk : File) : Prop :=
  is_Some (bnk_DataSection bnk) → is_Some (bnk_IndexSection bnk).

(** An index whose WemIds and DescriptorMap agree: the ids are distinct,
    they are the keys of the map, every descriptor is stored under its own
    id, and its fields are uint32 values. *)
Definition indexConsistent (idx : DataIndexSection) : Prop :=
  NoDup (WemIds idx) ∧
  (∀ id, id ∈ WemIds idx ↔ is_Some (DescriptorMap idx !! id)) ∧
  ∀ id d, DescriptorMap idx !! id = Some d →
    WemId d = id ∧ 0 ≤ Offset d < 2 ^ 32 ∧ 0 ≤ Length d < 2 ^ 32.

(** The call returned: it did not panic. *)
Definition returned (e : exec) : Prop :=
  match e with Returned _ => True | Panicked _ _ => False end.

(** One call of ReplaceWem for each replacement, in order, stopping at the
    first one that panics. *)
Definition replaceEach (bnk : File) (reps : list ReplacementWem) : exec :=
  foldl (λ e rep,
           match e with
           | Returned bnk =>
               ReplaceWem bnk (rw_WemIndex rep) (rw_Wem rep) (rw_Length rep)
           | Panicked p bnk => Panicked p bnk
           end)
        (Returned bnk) reps.

(** The bytes that one iteration of the loop of DataSection.WriteTo writes:
    the payload of the wem followed by its padding. *)
Definition wemBytes (wem : Wem) : outcome (list byte) :=
  '(bs, _) ← Copy (Reader wem);
  match RemainingReader wem with
  | None => Panic NilDereference
  | Some rem => '(ps, _) ← Copy rem; Ok (bs ++ ps)
  end.

(** [s] reads a window of the input [contents] through the reader [sr] of
    NewFile. *)
Definition viewOver (contents : list byte) (s : SectionReader) : Prop :=
  ∃ off n, 0 ≤ off ∧ s = NewSectionReader (fileView contents) off n.

(** A DATA section built over the input [contents]: its header was read
    just before the offset [dataOffset], and its wems are the ones that
    NewDataSection builds at that offset for a consistent index. *)
Definition dataOver (contents : list byte) (data : DataSection) : Prop :=
  ∃ idx dataOffset,
    indexConsistent idx ∧
    8 ≤ dataOffset ≤ Z.of_nat (length contents) ∧
    data_Header data =
      decodeSectionHeader (window contents (dataOffset - 8) 8) ∧
    DataStart data = wrap32 dataOffset ∧
    Wems data =
      wemsFrom (data_Header data) (fileView contents) dataOffset
        (descriptorOf (DescriptorMap idx)) (WemIds idx).

(** A File whose sections were built over the input [contents]. *)
Definition parsedOver (contents : list byte) (bnk : File) : Prop :=
  (∀ sec, bnk_BankHeaderSection bnk = Some sec →
          viewOver contents (bkhd_RemainingReader sec)) ∧
  (∀ idx, bnk_IndexSection bnk = Some idx → indexConsistent idx) ∧
  (∀ data, bnk_DataSection bnk = Some data → dataOver contents data) ∧
  Forall (λ other, viewOver contents (unk_Reader other)) (Others bnk).

(** The DATA section that NewDataSection builds for the chunk [cd], whose
    payload starts at offset [off] of the input [contents], from the index
    [idx]. *)
Definition dataAt (contents : list byte) (cd : chunk) (idx : DataIndexSection)
    (off : Z) (data : DataSection) : Prop :=
  0 ≤ off ∧
  off + Z.of_nat (length (payload cd)) ≤ Z.of_nat (length contents) ∧
  window contents off (Z.of_nat (length (payload cd))) = payload cd ∧
  data =
    mkDataSection (chunkHeader cd) (wrap32 off)
      (wemsFrom (chunkHeader cd) (fileView contents) off
         (descriptorOf (DescriptorMap idx)) (WemIds idx)).

(** What links the sections of the File after the loop of NewFile has gone
    through the chunks [done] of a bank whose DIDX and DATA chunks are [ci]
    and [cd]: the index holds the records of [ci], and the DATA section, once
    [cd] is done, was built from that index. *)
Definition linkedSoFar (contents : list byte) (ci cd : chunk) (bnk : File)
    (done : list chunk) : Prop :=
  (∀ idx, bnk_IndexSection bnk = Some idx → indexOf ci idx) ∧
  ∀ data, bnk_DataSection bnk = Some data →
    cd ∈ done ∧
    ∃ idx off, bnk_IndexSection bnk = Some idx ∧
               dataAt contents cd idx off data.

(** The spans of a DATA payload [P] under the descriptors [descs]: for each
    descriptor, the bytes from its Offset to the Offset of the next one, or
    to the end of the payload for the last one. *)
Fixpoint spansOf (descs : list WemDescriptor) (P : list byte)
  : list (list byte) :=
  match descs with
  | [] => []
  | d :: rest =>
      let next :=
        match rest with
        | [] => Z.of_nat (length P)
        | next :: _ => Offset next
        end in
      window P (Offset d) (next - Offset d) :: spansOf rest P
  end.

(** Each span is as long as the distance from the Offset of its descriptor
    to the next one, or to [total] for the last one. *)
Fixpoint fits (descs : list WemDescriptor) (spans : list (list byte))
    (total : Z) : Prop :=
  match descs, spans with
  | [], [] => True
  | d :: rest, s :: spans =>
      Z.of_nat (length s) =
        match rest with [] => total | next :: _ => Offset next end - Offset d
      ∧ fits rest spans total
  | _, _ => False
  end.

(** The chunks of a bank in the order in which File.WriteTo writes its
    sections, with the index records [recs] in the DIDX chunk and the
    spans [spans] in the DATA chunk. *)
Definition rewrittenChunks (cs : list chunk) (cb ci cd : chunk)
    (recs : list WemDescriptor) (spans : list (list byte)) : list chunk :=
  cb :: mkChunk (tag ci) (flat_map encodeWemDescriptor recs)
     :: mkChunk (tag cd) (concat spans)
     :: filter isUnknown cs.

(** * The command (package main) *)

Module Main.

(** The flag variables of the package, as flag.Parse leaves them. *)
Record Flags : Type := mkFlags {
  shouldUnpack : bool;
  shouldRepack : bool;
  bnkPath : string;
  output : string;
  targetPath : string;
}.

Definition shorthandDesc (flagName : string) : string :=
  "(shorthand for -" +:+ flagName +:+ ")".

(** verifyFlags and verifyRepackFlags end the program, through flag.Usage
    and log.Fatal, when the switch has set [err]: the result is the message
    handed to log.Fatal, and [None] when the function returns. *)
Definition verifyFlags (fl : Flags) : option string :=
  let err :=
    if negb (shouldUnpack fl || shouldRepack fl) then
      "Either unpack or repack should be specified"
    else if shouldUnpack fl && shouldRepack fl then
      "Both unpack and repack cannot be specified"
    else if decide (bnkPath fl = "") then "bnkpath cannot be empty"
    else if decide (output fl = "") then "output cannot be empty"
    else ""%string in
  if decide (err ≠ "") then Some err else None.

Definition verifyRepackFlags (fl : Flags) : option string :=
  let err :=
    if decide (targetPath fl = "") then "target cannot be empty"
    else ""%string in
  if decide (err ≠ "") then Some err else None.

(** What main does once flag.Parse has run. *)
Inductive action : Type :=
  | Fatal (err : string)        (* flag.Usage(); log.Fatal(err) *)
  | Unpack                      (* unpack() *)
  | Repack                      (* repack() *)
  | Return.                     (* no case of the switch applies *)

Definition main (fl : Flags) : action :=
  match verifyFlags fl with
  | Some err => Fatal err
  | None =>
      if shouldUnpack fl then Unpack
      else if shouldRepack fl then
        match verifyRepackFlags fl with
        | Some err => Fatal err
        | None => Repack
        end
      else Return
  end.

Fixpoint zeros (k : nat) : string :=
  match k with
  | O => ""
  | S k => String "0"%char (zeros k)
  end.

(** fmt.Sprintf("%03d", n) for n >= 0: the decimal digits of n, padded on
    the left with zeros to a width of three. *)
Definition Sprintf03d (n : nat) : string :=
  let digits := pretty n in
  zeros (3 - String.length digits) +:+ digits.

(** filename := fmt.Sprintf("%03d.wem", i+1), in the loop of unpack. *)
Definition wemFilename (i : nat) : string := Sprintf03d (i + 1) +:+ ".wem".

(** The constants of repack: the name of the file that it reads in the
    target directory, and the index of the wem that it replaces. *)
Definition repackTargetName : string := "075.wem".
Definition repackWemIndex : Z := 74.

End Main.

(** * Facts about the embedding *)

(** ** Little-endian integers *)

Lemma byte_to_Z_range b : 0 ≤ byte_to_Z b < 256.
Proof.
  unfold byte_to_Z. pose proof (Byte.to_N_bounded b). lia.
Qed.

Lemma byte_of_to_Z b : byte_of_Z (byte_to_Z b) = b.
Proof.
  unfold byte_of_Z. pose proof (byte_to_Z_range b) as Hb.
  rewrite Z.mod_small by lia. unfold byte_to_Z.
  by rewrite N2Z.id, Byte.of_to_N.
Qed.

Lemma byte_to_of_Z z : byte_to_Z (byte_of_Z z) = z mod 256.
Proof.
  unfold byte_of_Z, byte_to_Z.
  pose proof (Z.mod_pos_bound z 256 ltac:(lia)) as Hz.
  destruct (Byte.of_N (Z.to_N (z mod 256))) as [b|] eqn:Hb; simpl.
  - apply Byte.to_of_N in Hb. lia.
  - apply Byte.of_N_None_iff in Hb. lia.
Qed.

Lemma Uint32_range b0 b1 b2 b3 : 0 ≤ Uint32 b0 b1 b2 b3 < 2 ^ 32.
Proof.
  unfold Uint32.
  pose proof (byte_to_Z_range b0). pose proof (byte_to_Z_range b1).
  pose proof (byte_to_Z_range b2). pose proof (byte_to_Z_range b3). lia.
Qed.

Lemma PutUint32_Uint32 b0 b1 b2 b3 :
  PutUint32 (Uint32 b0 b1 b2 b3) = [b0; b1; b2; b3].
Proof.
  unfold PutUint32, Uint32.
  pose proof (byte_to_Z_range b0). pose proof (byte_to_Z_range b1).
  pose proof (byte_to_Z_range b2). pose proof (byte_to_Z_range b3).
  set (x0 := byte_to_Z b0) in *. set (x1 := byte_to_Z b1) in *.
  set (x2 := byte_to_Z b2) in *. set (x3 := byte_to_Z b3) in *.
  assert (E1 : (x0 + 2 ^ 8 * x1 + 2 ^ 16 * x2 + 2 ^ 24 * x3) / 2 ^ 8
               = x1 + 2 ^ 8 * x2 + 2 ^ 16 * x3).
  { symmetry. apply (Z.div_unique_pos _ _ _ x0); lia. }
  assert (E2 : (x0 + 2 ^ 8 * x1 + 2 ^ 16 * x2 + 2 ^ 24 * x3) / 2 ^ 16
               = x2 + 2 ^ 8 * x3).
  { symmetry. apply (Z.div_unique_pos _ _ _ (x0 + 2 ^ 8 * x1)); lia. }
  assert (E3 : (x0 + 2 ^ 8 * x1 + 2 ^ 16 * x2 + 2 ^ 24 * x3) / 2 ^ 24 = x3).
  { symmetry. apply (Z.div_unique_pos _ _ _ (x0 + 2 ^ 8 * x1 + 2 ^ 16 * x2));
      lia. }
  assert (M : ∀ x y b, 0 ≤ x < 256 → x = byte_to_Z b →
                byte_of_Z (x + 2 ^ 8 * y) = b).
  { intros x y b Hx ->. unfold byte_of_Z at 1.
    replace ((byte_to_Z b + 2 ^ 8 * y) mod 256) with (byte_to_Z b).
    - unfold byte_to_Z. by rewrite N2Z.id, Byte.of_to_N.
    - apply (Z.mod_unique_pos _ _ y); lia. }
  f_equal; [|f_equal; [|f_equal; [|f_equal]]].
  - replace (x0 + 2 ^ 8 * x1 + 2 ^ 16 * x2 + 2 ^ 24 * x3)
      with (x0 + 2 ^ 8 * (x1 + 2 ^ 8 * x2 + 2 ^ 16 * x3)) by lia. by apply M.
  - rewrite E1. replace (x1 + 2 ^ 8 * x2 + 2 ^ 16 * x3)
      with (x1 + 2 ^ 8 * (x2 + 2 ^ 8 * x3)) by lia. by apply M.
  - rewrite E2. by apply M.
  - rewrite E3. subst x3. apply byte_of_to_Z.
Qed.

(** ** io.NewSectionReader *)

Lemma wrap64_small z : MinInt64 ≤ z ≤ MaxInt64 → wrap64 z = z.
Proof.
  unfold wrap64, MinInt64, MaxInt64. intros. rewrite Z.mod_small; lia.
Qed.

Lemma wrap64_range z : MinInt64 ≤ wrap64 z ≤ MaxInt64.
Proof.
  unfold wrap64, MinInt64, MaxInt64.
  pose proof (Z.mod_pos_bound (z + 2 ^ 63) (2 ^ 64) ltac:(lia)). lia.
Qed.

Lemma wrap64_above z :
  MaxInt64 < z ≤ MaxInt64 + 2 ^ 63 → wrap64 z = z - 2 ^ 64.
Proof.
  unfold wrap64, MaxInt64. intros.
  replace (z + 2 ^ 63) with ((z + 2 ^ 63 - 2 ^ 64) + 1 * 2 ^ 64) by lia.
  rewrite Z.mod_add by lia. rewrite Z.mod_small; lia.
Qed.

(** A section that fits: the limit is the end of the section. *)
Lemma NewSectionReader_within r off n :
  0 ≤ off → 0 ≤ n → off + n ≤ MaxInt64 →
  NewSectionReader r off n = mkSectionReader r off off (n + off).
Proof.
  intros. unfold NewSectionReader.
  rewrite !wrap64_small by (unfold MinInt64, MaxInt64 in *; lia).
  by destruct (Z.leb_spec off (MaxInt64 - n)); [|lia].
Qed.

(** A section of negative length: the subtraction of the guard wraps
    around, and the section runs up to maxint64. *)
Lemma NewSectionReader_negative r off n :
  0 ≤ off → MinInt64 ≤ n < 0 →
  NewSectionReader r off n = mkSectionReader r off off MaxInt64.
Proof.
  intros. unfold NewSectionReader.
  rewrite wrap64_above by (unfold MinInt64, MaxInt64 in *; lia).
  destruct (Z.leb_spec off (MaxInt64 - n - 2 ^ 64)); [|done].
  unfold MinInt64, MaxInt64 in *. lia.
Qed.

(** A section that runs past maxint64 is cut there. *)
Lemma NewSectionReader_beyond r off n :
  0 ≤ n ≤ MaxInt64 → MaxInt64 < off + n →
  NewSectionReader r off n = mkSectionReader r off off MaxInt64.
Proof.
  intros. unfold NewSectionReader.
  rewrite wrap64_small by (unfold MinInt64, MaxInt64 in *; lia).
  by destruct (Z.leb_spec off (MaxInt64 - n)); [lia|].
Qed.

(** ** Readers over the file *)

Lemma length_window contents off n :
  0 ≤ off → 0 ≤ n → off + n ≤ Z.of_nat (length contents) →
  Z.of_nat (length (window contents off n)) = n.
Proof.
  intros. unfold window. rewrite length_take, length_drop. lia.
Qed.

Lemma length_window_le contents off n :
  0 ≤ n → Z.of_nat (length (window contents off n)) ≤ n.
Proof.
  intros. unfold window. rewrite length_take, length_drop. lia.
Qed.

Lemma Read_fileCursor contents off len :
  0 ≤ off < MaxInt64 → 0 ≤ len →
  Read (fileCursor contents off) len =
    let len' := Z.min len (MaxInt64 - off) in
    let got := window contents off len' in
    (got, Z.of_nat (length got),
     if Z.of_nat (length got) <? len' then Some EOF else None,
     fileCursor contents (off + Z.of_nat (length got))).
Proof.
  intros Hoff Hlen. unfold Read, fileCursor; simpl.
  destruct (Z.leb_spec MaxInt64 off) as [|_]; [lia|].
  destruct (Z.ltb_spec (MaxInt64 - off) len) as [Hm|Hm];
    [rewrite Z.min_r by lia | rewrite Z.min_l by lia];
    (destruct (Z.ltb_spec off 0); [lia|]); reflexivity.
Qed.

Lemma Read_fileCursor_end contents off len :
  MaxInt64 ≤ off →
  Read (fileCursor contents off) len = ([], 0, Some EOF, fileCursor contents off).
Proof.
  intros. unfold Read, fileCursor; simpl.
  destruct (Z.leb_spec MaxInt64 off); [done|lia].
Qed.

Lemma ReadFull_fileCursor_Ok contents off size :
  0 ≤ off → 0 < size →
  off + size ≤ Z.of_nat (length contents) → off + size ≤ MaxInt64 →
  ReadFull (fileCursor contents off) size =
    (Ok (window contents off size), fileCursor contents (off + size)).
Proof.
  intros Hoff Hsize Hlen Hmax. unfold ReadFull.
  destruct (Z.leb_spec size 0) as [|_]; [lia|]. simpl.
  rewrite Z.sub_0_r, Read_fileCursor by lia. cbv zeta.
  rewrite Z.min_l by lia. rewrite length_window by lia.
  rewrite Z.ltb_irrefl. cbn [length app Z.of_nat]. rewrite Z.add_0_l.
  destruct (Z.leb_spec size size); [|lia].
  rewrite take_ge; [done|].
  pose proof (length_window_le contents off size). lia.
Qed.

Lemma ReadFull_fileCursor_fail contents off size :
  0 ≤ off → 0 < size →
  ¬ (off + size ≤ Z.of_nat (length contents) ∧ off + size ≤ MaxInt64) →
  (ReadFull (fileCursor contents off) size).1 =
    Err (if decide (off < Z.of_nat (length contents) ∧ off < MaxInt64)
         then ErrUnexpectedEOF else EOF).
Proof.
  intros Hoff Hsize Hno. unfold ReadFull.
  destruct (Z.leb_spec size 0) as [|_]; [lia|].
  cbn [ReadAtLeast length Z.of_nat]. rewrite Z.sub_0_r.
  destruct (Z.le_gt_cases MaxInt64 off) as [Hend|Hin].
  { rewrite Read_fileCursor_end by done.
    cbn [length app Z.of_nat take Z.to_nat]. rewrite Z.add_0_l.
    destruct (Z.leb_spec size 0); [lia|].
    rewrite Z.ltb_irrefl, decide_False by lia. done. }
  rewrite Read_fileCursor by lia. cbv zeta.
  set (len' := Z.min size (MaxInt64 - off)).
  set (got := window contents off len').
  assert (Hgot : Z.of_nat (length got) =
                 Z.min len' (Z.max 0 (Z.of_nat (length contents) - off))).
  { unfold got, window. rewrite length_take, length_drop. lia. }
  cbv beta iota. rewrite Nat2Z.id, firstn_all. cbn [length app Z.of_nat].
  rewrite Z.add_0_l.
  destruct (Z.leb_spec size (Z.of_nat (length got))) as [|Hlt]; [lia|].
  destruct (Z.ltb_spec (Z.of_nat (length got)) len') as [Hshort|Hfull].
  - destruct (Z.ltb_spec 0 (Z.of_nat (length got)));
      [rewrite decide_True by lia | rewrite decide_False by lia]; done.
  - (* the section reader reached its limit *)
    assert (Z.of_nat (length got) = MaxInt64 - off) as Hg by lia.
    destruct (Z.to_nat size) as [|fuel] eqn:Hfuel; [lia|].
    cbn [ReadAtLeast]. rewrite Hg.
    rewrite Read_fileCursor_end by lia. cbv beta iota.
    rewrite Z.add_0_r.
    destruct (Z.leb_spec size (MaxInt64 - off)); [lia|].
    destruct (Z.ltb_spec 0 (MaxInt64 - off)); [|lia].
    rewrite decide_True by lia. done.
Qed.

Lemma asReaderAt_fileCursor contents off :
  asReaderAt (fileCursor contents off) = fileView contents.
Proof. reflexivity. Qed.

Lemma ReadAt_fileView contents len off :
  0 ≤ off < MaxInt64 → 0 ≤ len → off + len ≤ MaxInt64 →
  ReadAt (fileView contents) len off =
    (window contents off len, Z.of_nat (length (window contents off len)),
     if Z.of_nat (length (window contents off len)) <? len
     then Some EOF else None).
Proof.
  intros Hoff Hlen Hmax. unfold fileView. cbn [ReadAt].
  destruct (Z.ltb_spec off 0); [lia|].
  destruct (Z.leb_spec (MaxInt64 - 0) off); [lia|]. cbn [orb].
  rewrite Z.add_0_r.
  destruct (Z.ltb_spec (MaxInt64 - off) len); [lia|].
  destruct (Z.ltb_spec off 0); [lia|]. reflexivity.
Qed.

Lemma window_split contents off a b :
  0 ≤ off → 0 ≤ a → 0 ≤ b →
  window contents off (a + b) =
    window contents off a ++ window contents (off + a) b.
Proof.
  intros. unfold window.
  rewrite !Z2Nat.inj_add by lia.
  by rewrite <- take_take_drop, drop_drop.
Qed.

Lemma window_nonpos contents off n : n ≤ 0 → window contents off n = [].
Proof.
  intros. unfold window. by replace (Z.to_nat n) with 0%nat by lia.
Qed.

(** io.Copy of a section reader over the file returns the bytes of its
    window, cut at the end of the file. *)
Lemma copyLoop_fileView contents fuel b o l out written :
  0 ≤ o → l ≤ MaxInt64 → (Z.to_nat (l - o) < fuel)%nat →
  copyLoop fuel (mkSectionReader (fileView contents) b o l) out written =
    Ok (out ++ window contents o (l - o),
        written + Z.of_nat (length (window contents o (l - o)))).
Proof.
  revert o out written.
  induction fuel as [|fuel IH]; intros o out written Ho Hl Hfuel; [lia|].
  cbn [copyLoop]. unfold Read. cbn [sr_limit sr_off sr_r sr_base].
  destruct (Z.leb_spec l o) as [Hend|Hin].
  { rewrite window_nonpos by lia. cbn [length Z.of_nat].
    by rewrite Z.ltb_irrefl, app_nil_r, Z.add_0_r. }
  set (len := if l - o <? copyBufferSize then l - o else copyBufferSize).
  assert (Hlen : 0 < len ≤ l - o).
  { unfold len, copyBufferSize.
    destruct (Z.ltb_spec (l - o) (32 * 1024)); lia. }
  rewrite ReadAt_fileView by lia.
  set (got := window contents o len).
  pose proof (length_window_le contents o len ltac:(lia)) as Hgot.
  fold got in Hgot. rewrite Nat2Z.id, firstn_all.
  assert (Hout :
    (if 0 <? Z.of_nat (length got) then out ++ got else out) = out ++ got).
  { destruct (Z.ltb_spec 0 (Z.of_nat (length got))); [done|].
    destruct got; [by rewrite app_nil_r | simpl in *; lia]. }
  assert (Hw :
    (if 0 <? Z.of_nat (length got) then written + Z.of_nat (length got)
     else written) = written + Z.of_nat (length got)).
  { destruct (Z.ltb_spec 0 (Z.of_nat (length got))); lia. }
  rewrite Hout, Hw.
  destruct (Z.ltb_spec (Z.of_nat (length got)) len) as [Hshort|Hfull].
  - (* the file ends inside the window *)
    assert (window contents o (l - o) = got) as ->; [|done].
    unfold got, window in *. rewrite length_take, length_drop in Hshort.
    rewrite !take_ge; [done| |]; rewrite length_drop; lia.
  - rewrite IH by lia.
    assert (Z.of_nat (length got) = len) as Hg by lia. rewrite Hg.
    assert (window contents o (l - o) =
            got ++ window contents (o + len) (l - (o + len))) as ->.
    { replace (l - o) with (len + (l - (o + len))) at 1 by lia.
      by rewrite window_split by lia. }
    rewrite length_app, <- app_assoc. do 2 f_equal. lia.
Qed.

Lemma Copy_fileView contents off n :
  0 ≤ off → 0 ≤ n → off + n ≤ MaxInt64 →
  Copy (NewSectionReader (fileView contents) off n) =
    Ok (window contents off n, Z.of_nat (length (window contents off n))).
Proof.
  intros. rewrite NewSectionReader_within by lia. unfold Copy.
  cbn [sr_limit sr_off]. rewrite copyLoop_fileView by lia.
  by replace (n + off - off) with n by lia.
Qed.

(** io.Copy of a section reader over an InfiniteReaderAt: every Read
    reports one byte, whatever the size of the buffer, and the loop writes
    exactly the bytes of the section. *)
Lemma copyLoop_Infinite v fuel b o l out written :
  (Z.to_nat (l - o) < fuel)%nat →
  copyLoop fuel (mkSectionReader (InfiniteReaderAt v) b o l) out written =
    Ok (out ++ replicate (Z.to_nat (l - o)) v, written + Z.max 0 (l - o)).
Proof.
  revert o out written.
  induction fuel as [|fuel IH]; intros o out written Hfuel; [lia|].
  cbn [copyLoop]. unfold Read. cbn [sr_limit sr_off sr_r sr_base ReadAt].
  destruct (Z.leb_spec l o) as [Hend|Hin].
  { replace (Z.to_nat (l - o)) with 0%nat by lia. cbn [replicate].
    rewrite Z.ltb_irrefl, app_nil_r. do 2 f_equal. lia. }
  set (len := if l - o <? copyBufferSize then l - o else copyBufferSize).
  assert (Hlen : 0 < len).
  { unfold len, copyBufferSize.
    destruct (Z.ltb_spec (l - o) (32 * 1024)); lia. }
  cbn [Z.ltb Z.compare]. rewrite IH by lia.
  destruct (Z.to_nat len) as [|k] eqn:Hk; [lia|].
  replace (Z.to_nat (l - o)) with (S (Z.to_nat (l - (o + 1)))) by lia.
  cbn [replicate Z.to_nat Pos.to_nat Pos.iter_op take Nat.add].
  rewrite <- app_assoc. cbn [app]. do 2 f_equal. lia.
Qed.

Lemma Copy_Infinite v n :
  0 ≤ n ≤ MaxInt64 →
  Copy (NewSectionReader (InfiniteReaderAt v) 0 n) =
    Ok (replicate (Z.to_nat n) v, n).
Proof.
  intros. rewrite NewSectionReader_within by lia.
  unfold Copy. cbn [sr_limit sr_off].
  rewrite copyLoop_Infinite by lia. cbn [app].
  replace (n + 0 - 0) with n by lia. do 2 f_equal. lia.
Qed.

(** ** io.Copy and the WriteTo methods end *)

Lemma ReadAt_progress r : ∀ len off,
  0 < len →
  0 ≤ (ReadAt r len off).1.2 ∧
  ((ReadAt r len off).2 = None → 1 ≤ (ReadAt r len off).1.2).
Proof.
  induction r as [contents|Value|r IH base limit]; intros len off Hlen.
  - cbn [ReadAt]. destruct (Z.ltb_spec off 0); [done|]. cbn [fst snd].
    split; [lia|].
    destruct (Z.ltb_spec
      (Z.of_nat (length (take (Z.to_nat len) (drop (Z.to_nat off) contents))))
      len); [done|lia].
  - cbn. lia.
  - cbn [ReadAt].
    destruct (Z.ltb_spec off 0); [done|].
    destruct (Z.leb_spec (limit - base) off); [done|]. cbn [orb].
    destruct (Z.ltb_spec (limit - (off + base)) len).
    + specialize (IH (limit - (off + base)) (off + base) ltac:(lia)).
      destruct (ReadAt r (limit - (off + base)) (off + base))
        as [[got n] err]. cbn [fst snd] in *. split; [tauto|done].
    + by apply IH.
Qed.

Lemma copyLoop_terminates fuel : ∀ s out written,
  (Z.to_nat (sr_limit s - sr_off s) < fuel)%nat →
  copyLoop fuel s out written ≠ Diverged.
Proof.
  induction fuel as [|fuel IH]; intros s out written Hfuel; [lia|].
  cbn [copyLoop]. unfold Read.
  destruct (Z.leb_spec (sr_limit s) (sr_off s)); [done|].
  set (len := if sr_limit s - sr_off s <? copyBufferSize
              then sr_limit s - sr_off s else copyBufferSize).
  assert (0 < len).
  { unfold len, copyBufferSize.
    destruct (Z.ltb_spec (sr_limit s - sr_off s) (32 * 1024)); lia. }
  pose proof (ReadAt_progress (sr_r s) len (sr_off s) ltac:(lia)) as [Hn Hp].
  destruct (ReadAt (sr_r s) len (sr_off s)) as [[got n] err].
  cbn [fst snd] in *. destruct err as [[]|]; try done.
  specialize (Hp eq_refl). apply IH. cbn [sr_limit sr_off]. lia.
Qed.

Lemma Copy_terminates src : Copy src ≠ Diverged.
Proof. apply copyLoop_terminates. lia. Qed.

(** ** The loop of NewFile *)

Lemma fileReader_cursor contents :
  fileReader contents = fileCursor contents 0.
Proof. reflexivity. Qed.

Lemma SeekCurrent_fileCursor contents off d :
  0 ≤ off + d →
  SeekCurrent (fileCursor contents off) d =
    (off + d, fileCursor contents (off + d)).
Proof.
  intros. unfold SeekCurrent, fileCursor; simpl.
  destruct (Z.ltb_spec (d + off) 0); [lia|].
  rewrite Z.sub_0_r. by replace (d + off) with (off + d) by lia.
Qed.

Lemma binaryRead_fileCursor_Ok contents off size :
  0 ≤ off → 0 < size →
  off + size ≤ Z.of_nat (length contents) → off + size ≤ MaxInt64 →
  binaryRead (fileCursor contents off) size =
    Ok (window contents off size, fileCursor contents (off + size)).
Proof.
  intros. unfold binaryRead. by rewrite ReadFull_fileCursor_Ok.
Qed.

Lemma binaryRead_fileCursor_fail contents off size :
  0 ≤ off → 0 < size →
  ¬ (off + size ≤ Z.of_nat (length contents) ∧ off + size ≤ MaxInt64) →
  binaryRead (fileCursor contents off) size =
    Err (if decide (off < Z.of_nat (length contents) ∧ off < MaxInt64)
         then ErrUnexpectedEOF else EOF).
Proof.
  intros Hoff Hsize Hno. unfold binaryRead.
  pose proof (ReadFull_fileCursor_fail contents off size Hoff Hsize Hno) as H.
  destruct (ReadFull (fileCursor contents off) size) as [res r].
  simpl in H. by subst res.
Qed.

(** Both cases at once: a read either delivers its window or fails with an
    error. *)
Lemma binaryRead_fileCursor_cases contents off size :
  0 ≤ off → 0 < size →
  (off + size ≤ Z.of_nat (length contents) ∧
   binaryRead (fileCursor contents off) size =
     Ok (window contents off size, fileCursor contents (off + size))) ∨
  (∃ e, binaryRead (fileCursor contents off) size = Err e).
Proof.
  intros Hoff Hsize.
  destruct (decide (off + size ≤ Z.of_nat (length contents)
                    ∧ off + size ≤ MaxInt64)) as [[??]|Hno].
  - left. split; [done|]. by apply binaryRead_fileCursor_Ok.
  - right. eexists. by apply binaryRead_fileCursor_fail.
Qed.

Lemma hdr_Length_decode bs : 0 ≤ hdr_Length (decodeSectionHeader bs) < 2 ^ 32.
Proof. apply Uint32_range. Qed.

Lemma wrap32_range z : 0 ≤ wrap32 z < 2 ^ 32.
Proof. unfold wrap32. apply Z.mod_pos_bound. lia. Qed.

Lemma wrap32_small z : 0 ≤ z < 2 ^ 32 → wrap32 z = z.
Proof. intros. unfold wrap32. by apply Z.mod_small. Qed.

Lemma NewBankHeaderSection_fileCursor contents off hdr :
  0 ≤ off → Identifier hdr = bkhdHeaderId →
  off + 8 ≤ Z.of_nat (length contents) → off + 8 ≤ MaxInt64 →
  NewBankHeaderSection hdr (fileCursor contents off) =
    let remaining := wrap32 (hdr_Length hdr - 8) in
    Ok (mkBankHeaderSection hdr
          (decodeBankDescriptor (window contents off 8))
          (NewSectionReader (fileView contents) (off + 8) remaining),
        fileCursor contents (off + 8 + remaining)).
Proof.
  intros Hoff Hid Hlen Hmax. unfold NewBankHeaderSection.
  rewrite decide_False by (by intros []).
  unfold BKHD_SECTION_BYTES.
  rewrite binaryRead_fileCursor_Ok by lia. cbn [mbind outcome_bind].
  pose proof (wrap32_range (hdr_Length hdr - 8)).
  rewrite SeekCurrent_fileCursor by lia. rewrite Z.add_0_r.
  rewrite SeekCurrent_fileCursor by lia. reflexivity.
Qed.

Lemma NewUnknownSection_fileCursor contents off hdr :
  0 ≤ off → 0 ≤ hdr_Length hdr →
  NewUnknownSection hdr (fileCursor contents off) =
    Ok (mkUnknownSection hdr
          (NewSectionReader (fileView contents) off (hdr_Length hdr)),
        fileCursor contents (off + hdr_Length hdr)).
Proof.
  intros. unfold NewUnknownSection.
  rewrite SeekCurrent_fileCursor by lia. rewrite Z.add_0_r.
  by rewrite SeekCurrent_fileCursor by lia.
Qed.

Lemma NewDataSection_fileCursor contents off hdr idx :
  0 ≤ off → 0 ≤ hdr_Length hdr → Identifier hdr = dataHeaderId →
  NewDataSection hdr (fileCursor contents off) (Some idx) =
    Ok (mkDataSection hdr (wrap32 off)
          (imap (newWem hdr (fileCursor contents off) idx off) (WemIds idx)),
        fileCursor contents (off + hdr_Length hdr)).
Proof.
  intros ?? Hid. unfold NewDataSection.
  rewrite decide_False by (by intros []).
  rewrite SeekCurrent_fileCursor by lia. rewrite Z.add_0_r.
  by rewrite SeekCurrent_fileCursor by lia.
Qed.

Lemma NewDataSection_nil hdr sr :
  Identifier hdr = dataHeaderId →
  NewDataSection hdr sr None = Panic NilDereference.
Proof.
  intros Hid. unfold NewDataSection.
  rewrite decide_False by (by intros []).
  by destruct (SeekCurrent sr 0).
Qed.

(** The loop of NewDataIndexSection moves the cursor forward and never
    diverges. *)
Lemma NewDataIndexSection_loop_cursor contents count off sec :
  0 ≤ off →
  match NewDataIndexSection_loop count (fileCursor contents off) sec with
  | Ok (sec', sr') =>
      sr' = fileCursor contents (off + 12 * Z.of_nat count) ∧
      didx_Header sec' = didx_Header sec ∧ WemCount sec' = WemCount sec
  | Diverged => False
  | _ => True
  end.
Proof.
  revert off sec. induction count as [|count IH]; intros off sec Hoff.
  - cbn [NewDataIndexSection_loop]. split; [|done]. f_equal. lia.
  - cbn [NewDataIndexSection_loop]. unfold DIDX_ENTRY_BYTES.
    destruct (binaryRead_fileCursor_cases contents off 12)
      as [[_ ->]|[e ->]]; [lia|lia| |done].
    cbn [mbind outcome_bind]. case_decide; [done|].
    match goal with |- context [NewDataIndexSection_loop count ?s ?x] =>
      specialize (IH (off + 12) x ltac:(lia)) end.
    destruct (NewDataIndexSection_loop count _ _) as [[sec' sr']| | |];
      try done.
    destruct IH as (-> & ? & ?). split; [|done]. f_equal. lia.
Qed.

Lemma NewFile_body_header contents off bnk :
  0 ≤ off → off + 8 ≤ Z.of_nat (length contents) → off + 8 ≤ MaxInt64 →
  NewFile_body bnk (fileCursor contents off) =
    (next ← NewFile_switch bnk (decodeSectionHeader (window contents off 8))
              (fileCursor contents (off + 8));
     Ok (Some next)).
Proof.
  intros. unfold NewFile_body, SECTION_HEADER_BYTES.
  by rewrite ReadFull_fileCursor_Ok by lia.
Qed.

Lemma NewFile_body_end contents off bnk :
  0 ≤ off →
  ¬ (off + 8 ≤ Z.of_nat (length contents) ∧ off + 8 ≤ MaxInt64) →
  NewFile_body bnk (fileCursor contents off) =
    if decide (off < Z.of_nat (length contents) ∧ off < MaxInt64)
    then Err ErrUnexpectedEOF else Ok None.
Proof.
  intros Hoff Hno. unfold NewFile_body, SECTION_HEADER_BYTES.
  pose proof (ReadFull_fileCursor_fail contents off 8 Hoff ltac:(lia) Hno)
    as H.
  destruct (ReadFull (fileCursor contents off) 8) as [res r].
  simpl in H. subst res. by case_decide.
Qed.

Lemma headerAt_fileCursor contents off :
  0 ≤ off →
  headerAt (fileCursor contents off) =
    if decide (off + 8 ≤ Z.of_nat (length contents) ∧ off + 8 ≤ MaxInt64)
    then Some (decodeSectionHeader (window contents off 8)) else None.
Proof.
  intros Hoff. unfold headerAt, SECTION_HEADER_BYTES.
  case_decide as Hc.
  - by rewrite ReadFull_fileCursor_Ok by lia.
  - pose proof (ReadFull_fileCursor_fail contents off 8 Hoff ltac:(lia) Hc)
      as H.
    destruct (ReadFull (fileCursor contents off) 8) as [res r].
    simpl in H. by subst res.
Qed.

(** A NewFile_switched section leaves the cursor at or after the end of its
    header, and NewFile_switching never diverges. *)
Lemma NewFile_switch_cursor contents off bnk bs :
  0 ≤ off → off ≤ Z.of_nat (length contents) →
  match NewFile_switch bnk (decodeSectionHeader bs)
          (fileCursor contents off) with
  | Ok (bnk', sr') =>
      ∃ off', sr' = fileCursor contents off' ∧ off ≤ off' ∧
              closer bnk' = closer bnk
  | Diverged => False
  | _ => True
  end.
Proof.
  intros Hoff Hlen. unfold NewFile_switch.
  pose proof (hdr_Length_decode bs) as HL.
  set (hdr := decodeSectionHeader bs) in *.
  repeat case_decide.
  - unfold NewBankHeaderSection. rewrite decide_False by (by intros []).
    unfold BKHD_SECTION_BYTES.
    destruct (binaryRead_fileCursor_cases contents off 8)
      as [[_ ->]|[e ->]]; [lia|lia| |done].
    cbn [mbind outcome_bind].
    pose proof (wrap32_range (hdr_Length hdr - 8)).
    rewrite SeekCurrent_fileCursor by lia. rewrite Z.add_0_r.
    rewrite SeekCurrent_fileCursor by lia.
    eexists. split; [done|]. split; [lia|done].
  - unfold NewDataIndexSection. rewrite decide_False by (by intros []).
    match goal with |- context [NewDataIndexSection_loop ?n ?s ?x] =>
      pose proof (NewDataIndexSection_loop_cursor contents n off x Hoff)
        as Hl end.
    destruct (NewDataIndexSection_loop _ _ _) as [[sec' sr']| | |];
      try done.
    destruct Hl as (-> & _). cbn [mbind outcome_bind].
    eexists. split; [done|]. split; [lia|done].
  - destruct (bnk_IndexSection bnk) as [idx|].
    + rewrite NewDataSection_fileCursor by (done || lia).
      cbn [mbind outcome_bind]. eexists. split; [done|]. split; [lia|done].
    + by rewrite NewDataSection_nil.
  - rewrite NewUnknownSection_fileCursor by lia.
    cbn [mbind outcome_bind]. eexists. split; [done|]. split; [lia|done].
Qed.

Lemma NewFile_body_cursor contents off bnk :
  0 ≤ off →
  match NewFile_body bnk (fileCursor contents off) with
  | Ok (Some (bnk', sr')) =>
      ∃ off', sr' = fileCursor contents off' ∧ off + 8 ≤ off' ∧
              off + 8 ≤ Z.of_nat (length contents) ∧
              closer bnk' = closer bnk
  | Diverged => False
  | _ => True
  end.
Proof.
  intros Hoff.
  destruct (decide (off + 8 ≤ Z.of_nat (length contents)
                    ∧ off + 8 ≤ MaxInt64)) as [[??]|Hno].
  - rewrite NewFile_body_header by lia.
    pose proof (NewFile_switch_cursor contents (off + 8) bnk
                  (window contents off 8) ltac:(lia) ltac:(lia)) as Hd.
    destruct (NewFile_switch _ _ _) as [[bnk' sr']| | |]; try done.
    cbn [mbind outcome_bind].
    destruct Hd as (off' & -> & ? & ?).
    exists off'. repeat split; (done||lia).
  - rewrite NewFile_body_end by done. by case_decide.
Qed.

(** [S (length contents)] iterations are enough: the loop of NewFile ends
    with a File, an error or a panic. *)
Lemma NewFile_loop_terminates contents fuel off bnk :
  0 ≤ off → Z.of_nat (length contents) - off < Z.of_nat fuel →
  (0 < fuel)%nat →
  NewFile_loop fuel bnk (fileCursor contents off) ≠ Diverged.
Proof.
  revert off bnk. induction fuel as [|fuel IH]; intros off bnk Hoff Hf Hpos;
    [lia|].
  cbn [NewFile_loop].
  pose proof (NewFile_body_cursor contents off bnk Hoff) as H.
  destruct (NewFile_body bnk (fileCursor contents off))
    as [[[bnk' sr']|]| | |]; try done.
  destruct H as (off' & -> & ? & ? & _). cbn [mbind outcome_bind].
  apply IH; lia.
Qed.

Theorem NewFile_terminates contents : NewFile contents ≠ Diverged.
Proof.
  unfold NewFile. rewrite fileReader_cursor.
  pose proof (NewFile_loop_terminates contents (S (length contents)) 0
                newFile ltac:(lia) ltac:(lia) ltac:(lia)) as H.
  destruct (NewFile_loop _ _ _); try done.
  cbn [mbind outcome_bind]. by destruct (bnk_DataSection a).
Qed.

Lemma NewFile_run_app k bnk0 sr0 bnk sr m :
  NewFile_run k bnk0 sr0 = Some (bnk, sr) →
  NewFile_loop (k + m) bnk0 sr0 = NewFile_loop m bnk sr.
Proof.
  revert bnk0 sr0. induction k as [|k IH]; intros bnk0 sr0 Hrun.
  - by injection Hrun as -> ->.
  - cbn [NewFile_run] in Hrun. cbn [Nat.add NewFile_loop].
    destruct (NewFile_body bnk0 sr0) as [[[bnk1 sr1]|]| | |]; try done.
    cbn [mbind outcome_bind]. by apply IH.
Qed.

Lemma NewFile_run_cursor contents k off0 bnk0 bnk sr :
  0 ≤ off0 →
  NewFile_run k bnk0 (fileCursor contents off0) = Some (bnk, sr) →
  ∃ off, sr = fileCursor contents off ∧ off0 + 8 * Z.of_nat k ≤ off ∧
         (k ≠ 0%nat → off0 + 8 * Z.of_nat k ≤ Z.of_nat (length contents)) ∧
         closer bnk = closer bnk0.
Proof.
  revert off0 bnk0. induction k as [|k IH]; intros off0 bnk0 Hoff Hrun.
  - injection Hrun as <- <-. exists off0. repeat split; (done || lia).
  - cbn [NewFile_run] in Hrun.
    pose proof (NewFile_body_cursor contents off0 bnk0 Hoff) as H.
    destruct (NewFile_body bnk0 (fileCursor contents off0))
      as [[[bnk1 sr1]|]| | |]; try done.
    destruct H as (off1 & -> & ? & ? & Hc).
    destruct (IH off1 bnk1 ltac:(lia) Hrun) as (off & -> & ? & Hk & Hc').
    exists off. split; [done|]. split; [lia|]. split; [|congruence].
    intros _. destruct k; [lia|]. lia.
Qed.

(** What the iteration after [k] NewFile_switched sections does decides the
    result of the whole loop. *)
Lemma NewFile_loop_run contents k bnk sr :
  NewFile_run k newFile (fileReader contents) = Some (bnk, sr) →
  NewFile_loop (S (length contents)) newFile (fileReader contents) =
    match NewFile_body bnk sr with
    | Ok None => Ok bnk
    | Ok (Some (bnk', sr')) =>
        NewFile_loop (length contents - k) bnk' sr'
    | Err e => Err e
    | Panic p => Panic p
    | Diverged => Diverged
    end.
Proof.
  intros Hrun. rewrite fileReader_cursor in *.
  destruct (NewFile_run_cursor contents k 0 newFile bnk sr ltac:(lia) Hrun)
    as (off & -> & ? & Hk & _).
  assert (k ≤ length contents)%nat
    by (destruct k; [lia|specialize (Hk ltac:(done)); lia]).
  replace (S (length contents)) with (k + S (length contents - k))%nat
    by lia.
  rewrite (NewFile_run_app _ _ _ _ _ _ Hrun). cbn [NewFile_loop].
  by destruct (NewFile_body bnk (fileCursor contents off))
    as [[[bnk1 sr1]|]| | |].
Qed.

(** ** Replacement *)

Lemma replaceAt_ok bnk i r length tooLarge data idx wem :
  bnk_DataSection bnk = Some data → bnk_IndexSection bnk = Some idx →
  0 ≤ i → Wems data !! Z.to_nat i = Some wem →
  length ≤ Length (Descriptor wem) →
  replaceAt bnk i r length tooLarge =
    Returned
      (setDescriptor (setWem bnk data (Z.to_nat i) (replacedWem wem r length))
         idx (Descriptor (replacedWem wem r length))).
Proof.
  intros Hd Hi Hpos Hw Hlen. unfold replaceAt. rewrite Hd.
  destruct (Z.ltb_spec i 0); [lia|]. rewrite Hw.
  destruct (Z.ltb_spec (Length (Descriptor wem)) length); [lia|].
  cbn [setWem bnk_IndexSection]. by rewrite Hi.
Qed.

Lemma replaceAt_tooLarge bnk i r length tooLarge data wem :
  bnk_DataSection bnk = Some data →
  0 ≤ i → Wems data !! Z.to_nat i = Some wem →
  Length (Descriptor wem) < length →
  replaceAt bnk i r length tooLarge =
    Panicked (tooLarge (Length (Descriptor wem))) bnk.
Proof.
  intros Hd Hpos Hw Hlen. unfold replaceAt. rewrite Hd.
  destruct (Z.ltb_spec i 0); [lia|]. rewrite Hw.
  by destruct (Z.ltb_spec (Length (Descriptor wem)) length); [|lia].
Qed.

Lemma replaceAt_Returned_inv bnk i r length tooLarge bnk' :
  replaceAt bnk i r length tooLarge = Returned bnk' →
  ∃ data idx wem,
    bnk_DataSection bnk = Some data ∧ bnk_IndexSection bnk = Some idx ∧
    0 ≤ i ∧ Wems data !! Z.to_nat i = Some wem ∧
    length ≤ Length (Descriptor wem) ∧
    bnk' = setDescriptor
             (setWem bnk data (Z.to_nat i) (replacedWem wem r length))
             idx (Descriptor (replacedWem wem r length)).
Proof.
  unfold replaceAt. intros H.
  destruct (bnk_DataSection bnk) as [data|] eqn:Hd; [|done].
  destruct (Z.ltb_spec i 0); [done|].
  destruct (Wems data !! Z.to_nat i) as [wem|] eqn:Hw; [|done].
  destruct (Z.ltb_spec (Length (Descriptor wem)) length); [done|].
  cbn [setWem bnk_IndexSection] in H.
  destruct (bnk_IndexSection bnk) as [idx|] eqn:Hi; [|done].
  exists data, idx, wem. repeat split; try done. by inversion H.
Qed.

(** Whatever a replacement does, it touches the wem at index [i] only, and
    there it keeps WemId and Offset. *)
Lemma replaceAt_frame bnk i r length tooLarge :
  let bnk' := fileOf (replaceAt bnk i r length tooLarge) in
  List.length (wemsOf bnk') = List.length (wemsOf bnk) ∧
  ∀ j wem, wemsOf bnk !! j = Some wem →
    ∃ wem', wemsOf bnk' !! j = Some wem' ∧
      WemId (Descriptor wem') = WemId (Descriptor wem) ∧
      Offset (Descriptor wem') = Offset (Descriptor wem) ∧
      (Z.of_nat j ≠ i → wem' = wem).
Proof.
  cbv zeta. unfold replaceAt.
  assert (Hid : List.length (wemsOf bnk) = List.length (wemsOf bnk) ∧
    ∀ j wem, wemsOf bnk !! j = Some wem →
      ∃ wem', wemsOf bnk !! j = Some wem' ∧
        WemId (Descriptor wem') = WemId (Descriptor wem) ∧
        Offset (Descriptor wem') = Offset (Descriptor wem) ∧
        (Z.of_nat j ≠ i → wem' = wem)) by naive_solver.
  destruct (bnk_DataSection bnk) as [data|] eqn:Hd; [|done].
  destruct (Z.ltb_spec i 0); [done|].
  destruct (Wems data !! Z.to_nat i) as [wem|] eqn:Hw; [|done].
  destruct (Z.ltb_spec (Length (Descriptor wem)) length); [done|].
  clear Hid. cbn [setWem bnk_IndexSection].
  assert (Hw' : ∀ bnk'', wemsOf bnk'' = <[Z.to_nat i := replacedWem wem r length]> (Wems data) →
    List.length (wemsOf bnk'') = List.length (wemsOf bnk) ∧
    ∀ j wem0, wemsOf bnk !! j = Some wem0 →
      ∃ wem', wemsOf bnk'' !! j = Some wem' ∧
        WemId (Descriptor wem') = WemId (Descriptor wem0) ∧
        Offset (Descriptor wem') = Offset (Descriptor wem0) ∧
        (Z.of_nat j ≠ i → wem' = wem0)).
  { intros bnk'' ->. unfold wemsOf. rewrite Hd. split.
    - by rewrite length_insert.
    - intros j wem0 Hj. destruct (decide (j = Z.to_nat i)) as [->|Hne].
      + rewrite Hw in Hj. injection Hj as <-.
        exists (replacedWem wem r length). split.
        * apply list_lookup_insert_eq. by eapply lookup_lt_Some.
        * repeat split; try done. lia.
      + exists wem0. by rewrite list_lookup_insert_ne. }
  destruct (bnk_IndexSection bnk); apply Hw'; unfold wemsOf; by simpl.
Qed.

(** A dispatched section replaces one field of the File and leaves the
    others alone. *)
Lemma NewFile_switch_frame bnk hdr sr bnk' sr' :
  NewFile_switch bnk hdr sr = Ok (bnk', sr') →
  closer bnk' = closer bnk ∧
  (Identifier hdr ≠ bkhdHeaderId →
   bnk_BankHeaderSection bnk' = bnk_BankHeaderSection bnk) ∧
  (Identifier hdr ≠ didxHeaderId →
   bnk_IndexSection bnk' = bnk_IndexSection bnk) ∧
  (Identifier hdr ≠ dataHeaderId →
   bnk_DataSection bnk' = bnk_DataSection bnk).
Proof.
  unfold NewFile_switch. intros H.
  repeat case_decide;
    match type of H with
    | (mbind _ ?m) = _ => destruct m as [[sec sr1]| | |]; try done
    end;
    cbn [mbind outcome_bind] in H; injection H as <- <-; cbn;
    repeat split; congruence.
Qed.

(** *** No DATA section *)

Lemma NewFile_loop_no_data fuel bnk sr bnk' :
  NewFile_loop fuel bnk sr = Ok bnk' →
  Forall (λ hdr, Identifier hdr ≠ dataHeaderId)
         (NewFile_headers fuel bnk sr) →
  bnk_DataSection bnk' = bnk_DataSection bnk.
Proof.
  revert bnk sr. induction fuel as [|fuel IH]; intros bnk sr Hloop Hall;
    [done|].
  cbn [NewFile_loop NewFile_headers] in *.
  unfold NewFile_body, headerAt in *.
  destruct (ReadFull sr SECTION_HEADER_BYTES) as [[bs| [] | |] sr1];
    try done; cbn [mbind outcome_bind] in Hloop; [|congruence].
  apply Forall_cons in Hall as [Hhdr Hall].
  destruct (NewFile_switch bnk (decodeSectionHeader bs) sr1)
    as [[bnk1 sr2]| | |] eqn:Hsw; try done.
  cbn [mbind outcome_bind] in *.
  apply NewFile_switch_frame in Hsw as (_ & _ & _ & Hd).
  rewrite <- (Hd Hhdr). by apply (IH bnk1 sr2).
Qed.

(** C7.  When the loop of NewFile reaches the end of the input without
    having read a header tagged DATA, NewFile returns the error "There are
    no wems stored within this SoundBank." and no File. *)
Theorem NewFile_missing_data contents :
  exhausted contents →
  Forall (λ hdr, Identifier hdr ≠ dataHeaderId) (headersRead contents) →
  NewFile contents = Err ErrNoWems.
Proof.
  intros [bnk Hloop] Hall. unfold NewFile. rewrite Hloop.
  cbn [mbind outcome_bind].
  by rewrite (NewFile_loop_no_data _ _ _ _ Hloop Hall).
Qed.

(** *** DATA before DIDX *)

Lemma NewFile_loop_data_before_index pre hdr post fuel bnk sr :
  bnk_IndexSection bnk = None →
  NewFile_headers fuel bnk sr = pre ++ hdr :: post →
  Forall (λ h, Identifier h ≠ didxHeaderId) pre →
  Identifier hdr = dataHeaderId →
  NewFile_loop fuel bnk sr = Panic NilDereference.
Proof.
  revert fuel bnk sr.
  induction pre as [|h pre IH]; intros fuel bnk sr Hidx Hhs Hpre Hid.
  - destruct fuel as [|fuel]; [done|].
    cbn [NewFile_loop NewFile_headers app] in *.
    unfold NewFile_body, headerAt in *.
    destruct (ReadFull sr SECTION_HEADER_BYTES) as [[bs| [] | |] sr1];
      try done.
    injection Hhs as Hh _. rewrite Hh.
    unfold NewFile_switch. rewrite Hid.
    rewrite decide_False by done. rewrite decide_False by done.
    rewrite decide_True by done. rewrite Hidx.
    by rewrite NewDataSection_nil.
  - destruct fuel as [|fuel]; [done|].
    cbn [NewFile_loop NewFile_headers app] in *.
    unfold NewFile_body, headerAt in *.
    destruct (ReadFull sr SECTION_HEADER_BYTES) as [[bs| [] | |] sr1];
      try done.
    injection Hhs as Hh Hrest.
    apply Forall_cons in Hpre as [Hne Hpre]. rewrite <- Hh in Hne.
    destruct (NewFile_switch bnk (decodeSectionHeader bs) sr1)
      as [[bnk1 sr2]| | |] eqn:Hsw; cbn [mbind outcome_bind] in *;
      try (by destruct pre).
    apply NewFile_switch_frame in Hsw as (_ & _ & Hi & _).
    apply (IH fuel bnk1 sr2); try done. by rewrite (Hi Hne).
Qed.

(** What NewFile does on every input of C8: when it reads a header tagged
    DATA and no header read before it is tagged DIDX, it hands the nil
    IndexSection to NewDataSection, which dereferences it.  The parse ends
    in that runtime panic; NewFile returns neither a File nor an error. *)
Theorem NewFile_data_before_index contents pre hdr post :
  headersRead contents = pre ++ hdr :: post →
  Forall (λ h, Identifier h ≠ didxHeaderId) pre →
  Identifier hdr = dataHeaderId →
  NewFile contents = Panic NilDereference.
Proof.
  intros Hhs Hpre Hid. unfold NewFile.
  by rewrite (NewFile_loop_data_before_index pre hdr post
                (S (length contents)) newFile (fileReader contents)
                eq_refl Hhs Hpre Hid).
Qed.

(** *** Close *)

Lemma NewFile_loop_closer contents fuel off bnk bnk' :
  0 ≤ off →
  NewFile_loop fuel bnk (fileCursor contents off) = Ok bnk' →
  closer bnk' = closer bnk.
Proof.
  revert off bnk. induction fuel as [|fuel IH]; intros off bnk Hoff Hloop;
    [done|].
  cbn [NewFile_loop] in Hloop.
  pose proof (NewFile_body_cursor contents off bnk Hoff) as H.
  destruct (NewFile_body bnk (fileCursor contents off))
    as [[[bnk1 sr1]|]| | |]; try done; cbn [mbind outcome_bind] in Hloop.
  - destruct H as (off1 & -> & ? & ? & <-). apply (IH off1); [lia|done].
  - congruence.
Qed.

Lemma NewFile_closer contents bnk :
  NewFile contents = Ok bnk → closer bnk = None.
Proof.
  unfold NewFile. rewrite fileReader_cursor.
  destruct (NewFile_loop _ _ _) as [bnk1| | |] eqn:Hloop; try done.
  cbn [mbind outcome_bind].
  destruct (bnk_DataSection bnk1); [|done]. intros [= <-].
  by apply NewFile_loop_closer in Hloop.
Qed.

(** C10.  After a first call of Close, every later call returns nil and
    changes neither the File nor the open descriptors; on a File that
    NewFile returned, every call of Close does so. *)
Theorem Close_idempotent :
  (∀ bnk w n,
     let st := Close bnk w in
     Nat.iter (S n) closeAgain st = (None, st.1.2, st.2)) ∧
  (∀ contents bnk w n,
     NewFile contents = Ok bnk →
     Nat.iter (S n) closeAgain (None, bnk, w) = (None, bnk, w)).
Proof.
  assert (Hnil : ∀ bnk w n, closer bnk = None →
            Nat.iter (S n) closeAgain (None, bnk, w) = (None, bnk, w)).
  { intros bnk w n Hc. induction n as [|n IH].
    - cbn. unfold closeAgain, Close. cbn. by rewrite Hc.
    - rewrite Nat.iter_succ, IH. unfold closeAgain, Close. cbn.
      by rewrite Hc. }
  split.
  - intros bnk w n st.
    assert (closer st.1.2 = None) as Hc.
    { unfold st, Close. destruct (closer bnk) as [c|] eqn:Hcl; [|done].
      by destruct (os_Close c w). }
    destruct st as [[err bnk1] w1] eqn:Hst. cbn [fst snd] in *.
    induction n as [|n IH].
    + cbn. unfold closeAgain, Close. cbn. by rewrite Hc.
    + rewrite Nat.iter_succ, IH. unfold closeAgain, Close. cbn.
      by rewrite Hc.
  - intros contents bnk w n Hnew. apply Hnil. by eapply NewFile_closer.
Qed.

(** *** Repeated wem ids *)

Lemma firstRepeat_exists (ids : list Z) i j id :
  (i < j)%nat → ids !! i = Some id → ids !! j = Some id →
  ∃ j' id', firstRepeat ids j' id'.
Proof.
  revert i j id. induction ids as [|x ids IH] using rev_ind;
    intros i j id Hij Hi Hj; [done|].
  destruct (decide (NoDup ids)) as [Hnd|Hnd].
  - destruct (decide (j = length ids)) as [->|Hne].
    + exists (length ids), x. unfold firstRepeat.
      rewrite take_app_length, list_lookup_middle by done.
      rewrite lookup_app_l in Hi by done.
      rewrite list_lookup_middle in Hj by done. injection Hj as ->.
      repeat split; [|done]. by eapply list_elem_of_lookup_2.
    + assert (j < length ids)%nat.
      { apply lookup_lt_Some in Hj. rewrite length_app in Hj. simpl in Hj.
        lia. }
      rewrite lookup_app_l in Hi by lia. rewrite lookup_app_l in Hj by lia.
      pose proof (proj1 (NoDup_alt ids) Hnd i j id Hi Hj). lia.
  - assert (∃ i j id, (i < j)%nat ∧ ids !! i = Some id ∧ ids !! j = Some id)
      as (i' & j' & id' & ? & ? & ?).
    { clear -Hnd. induction ids as [|a ids IH]; [by destruct Hnd; constructor|].
      destruct (decide (a ∈ ids)) as [Hin|Hnin].
      - apply list_elem_of_lookup in Hin as [k Hk].
        exists 0%nat, (S k), a. split; [lia|done].
      - destruct IH as (i & j & id & ? & ? & ?).
        { intros ?. apply Hnd. by constructor. }
        exists (S i), (S j), id. split; [lia|done]. }
    destruct (IH i' j' id') as (j'' & id'' & Hl & Hin & Hnd'); try done.
    exists j'', id''. unfold firstRepeat.
    assert (j'' < length ids)%nat by by eapply lookup_lt_Some.
    rewrite lookup_app_l by done. rewrite take_app_le by lia. done.
Qed.

Lemma length_indexRecords contents off count :
  length (indexRecords contents off count) = count.
Proof.
  revert off. induction count as [|count IH]; intros off; [done|].
  cbn [indexRecords length]. by rewrite IH.
Qed.

Lemma NewDataIndexSection_loop_repeat contents j : ∀ count off sec id,
  0 ≤ off → (j < count)%nat →
  off + 12 * Z.of_nat (S j) ≤ Z.of_nat (length contents) →
  off + 12 * Z.of_nat (S j) ≤ MaxInt64 →
  let ids := WemId <$> indexRecords contents off count in
  ids !! j = Some id →
  NoDup (take j ids) →
  (∀ x, x ∈ take j ids → DescriptorMap sec !! x = None) →
  id ∈ take j ids ∨ is_Some (DescriptorMap sec !! id) →
  NewDataIndexSection_loop count (fileCursor contents off) sec =
    Panic (RepeatedWemId id).
Proof.
  induction j as [|j IH]; intros count off sec id Hoff Hj Hlen Hmax ids
    Hid Hnd Hfresh Hin.
  - destruct count as [|count]; [lia|].
    cbn [NewDataIndexSection_loop]. unfold DIDX_ENTRY_BYTES.
    rewrite binaryRead_fileCursor_Ok by lia. cbn [mbind outcome_bind].
    unfold ids in Hid.
    cbn [indexRecords fmap list_fmap lookup list_lookup] in Hid.
    apply (inj Some) in Hid. rewrite Hid.
    destruct Hin as [Hin|Hin]; [by apply elem_of_nil in Hin|].
    by rewrite decide_True.
  - destruct count as [|count]; [lia|].
    cbn [NewDataIndexSection_loop]. unfold DIDX_ENTRY_BYTES.
    rewrite binaryRead_fileCursor_Ok by lia. cbn [mbind outcome_bind].
    unfold ids in *. cbn [indexRecords fmap list_fmap] in *.
    set (desc := decodeWemDescriptor (window contents off 12)) in *.
    cbn [take lookup list_lookup] in *.
    apply NoDup_cons in Hnd as [Hnotin Hnd].
    rewrite decide_False.
    2:{ rewrite (Hfresh (WemId desc)) by apply list_elem_of_here.
        by intros []. }
    apply IH; try done; try lia.
    + cbn [DescriptorMap]. intros x Hx.
      rewrite lookup_insert_ne; [|by intros <-].
      apply Hfresh. by apply list_elem_of_further.
    + cbn [DescriptorMap].
      destruct Hin as [Hin|Hin].
      * apply elem_of_cons in Hin as [Heq|Hin]; [|by left].
        right. rewrite Heq, lookup_insert_eq. by eexists.
      * right. destruct (decide (WemId desc = id)) as [Heq|];
          [rewrite <- Heq, lookup_insert_eq; by eexists|].
        by rewrite lookup_insert_ne.
Qed.

(** C6.  Whenever NewFile reads a DIDX header whose records are all
    present in the input and two of them carry the same id, parsing the
    index panics with "%d is an illegal repeated wem ID in the DIDX" for
    the id of the first record that repeats an earlier one, and NewFile
    ends with that panic: no File is returned.  When a single id is
    repeated, the panic carries it. *)
Theorem NewFile_repeated_wem_id contents k bnk sr hdr i j id :
  NewFile_run k newFile (fileReader contents) = Some (bnk, sr) →
  headerAt sr = Some hdr →
  Identifier hdr = didxHeaderId →
  let count := hdr_Length hdr / DIDX_ENTRY_BYTES in
  let start := sr_off sr + SECTION_HEADER_BYTES in
  let ids := WemId <$> indexRecords contents start (Z.to_nat count) in
  start + DIDX_ENTRY_BYTES * count ≤ Z.of_nat (length contents) →
  Z.of_nat (length contents) ≤ MaxInt64 →
  (i < j)%nat → ids !! i = Some id → ids !! j = Some id →
  ∃ j' id',
    firstRepeat ids j' id' ∧
    NewDataIndexSection hdr (fileCursor contents start)
      = Panic (RepeatedWemId id') ∧
    NewFile contents = Panic (RepeatedWemId id') ∧
    ((∀ a b x, (a < b)%nat → ids !! a = Some x → ids !! b = Some x → x = id)
     → id' = id).
Proof.
  intros Hrun Hhdr Hid count start ids Hlen Hmax Hij Hi Hj.
  destruct (firstRepeat_exists ids i j id Hij Hi Hj)
    as (j' & id' & Hrep).
  exists j', id'. split; [done|].
  rewrite fileReader_cursor in Hrun.
  destruct (NewFile_run_cursor contents k 0 newFile bnk sr ltac:(lia) Hrun)
    as (off & -> & Hoff & _).
  rewrite headerAt_fileCursor in Hhdr by lia.
  case_decide as Hc; [|done]. injection Hhdr as Hhdr.
  cbn [sr_off fileCursor] in start.
  unfold SECTION_HEADER_BYTES, DIDX_ENTRY_BYTES in *.
  destruct Hrep as (Hl & Hin & Hnd).
  assert (Hj' : (j' < Z.to_nat count)%nat).
  { apply lookup_lt_Some in Hl. unfold ids in Hl.
    by rewrite length_fmap, length_indexRecords in Hl. }
  assert (Hpanic :
    NewDataIndexSection hdr (fileCursor contents start)
    = Panic (RepeatedWemId id')).
  { unfold NewDataIndexSection. rewrite decide_False by (by intros []).
    unfold DIDX_ENTRY_BYTES. fold count.
    apply (NewDataIndexSection_loop_repeat contents j'); try done.
    - unfold start; lia.
    - unfold start in *. lia.
    - unfold start in *. lia.
    - by left. }
  split; [done|]. split.
  - unfold NewFile. rewrite <- fileReader_cursor in Hrun.
    rewrite (NewFile_loop_run contents k bnk _ Hrun).
    rewrite NewFile_body_header by lia. rewrite Hhdr.
    unfold NewFile_switch. rewrite Hid.
    rewrite decide_False by done. rewrite decide_True by done.
    fold start. by rewrite Hpanic.
  - intros Huniq. apply list_elem_of_lookup in Hin as [a Ha].
    assert (a < j')%nat.
    { apply lookup_lt_Some in Ha. rewrite length_take in Ha. lia. }
    rewrite lookup_take_lt in Ha by done.
    by apply (Huniq a j' id').
Qed.

Lemma replaceAt_framed bnk i r length tooLarge :
  framed bnk (fileOf (replaceAt bnk i r length tooLarge))
    (λ j, Z.of_nat j ≠ i).
Proof. apply replaceAt_frame. Qed.

Lemma framed_refl bnk untouched : framed bnk bnk untouched.
Proof. split; [done|]. intros j wem Hj. by exists wem. Qed.

Lemma framed_trans bnk1 bnk2 bnk3 (P Q R : nat → Prop) :
  (∀ j, R j → P j ∧ Q j) →
  framed bnk1 bnk2 P → framed bnk2 bnk3 Q → framed bnk1 bnk3 R.
Proof.
  intros HR [Hl1 H1] [Hl2 H2]. split; [congruence|].
  intros j wem Hj.
  destruct (H1 j wem Hj) as (wem1 & Hj1 & ? & ? & Hu1).
  destruct (H2 j wem1 Hj1) as (wem2 & Hj2 & ? & ? & Hu2).
  exists wem2. repeat split; try congruence.
  intros [HP HQ]%HR. by rewrite (Hu2 HQ), (Hu1 HP).
Qed.

Lemma ReplaceWems_framed reps : ∀ bnk,
  framed bnk (fileOf (ReplaceWems bnk reps))
    (λ j, ∀ rep, rep ∈ reps → rw_WemIndex rep ≠ Z.of_nat j).
Proof.
  induction reps as [|rep reps IH]; intros bnk; [apply framed_refl|].
  cbn [ReplaceWems].
  pose proof (replaceAt_framed bnk (rw_WemIndex rep) (rw_Wem rep)
                (rw_Length rep)
                (TargetLargerThanOriginal (rw_WemIndex rep) (rw_Length rep)))
    as Hstep.
  destruct (replaceAt _ _ _ _ _) as [bnk1|p bnk1]; cbn [fileOf] in *.
  - eapply framed_trans; [|exact Hstep|apply IH].
    intros j Hj. split.
    + intros Heq. by apply (Hj rep); [left|].
    + intros rep' Hin. apply Hj. by right.
  - eapply framed_trans; [|exact Hstep|apply framed_refl].
    intros j Hj. split; [|exact I].
    intros Heq. by apply (Hj rep); [left|].
Qed.

Lemma ReplaceWems_app bnk before rest bnk1 :
  ReplaceWems bnk before = Returned bnk1 →
  ReplaceWems bnk (before ++ rest) = ReplaceWems bnk1 rest.
Proof.
  revert bnk. induction before as [|rep before IH]; intros bnk H.
  - by injection H as ->.
  - cbn [ReplaceWems app] in *.
    destruct (replaceAt _ _ _ _ _) as [bnk2|]; [|done]. by apply IH.
Qed.

(** C3 (as the code has it).  A replacement whose length exceeds the
    Descriptor.Length of the wem it targets panics.  ReplaceWem leaves the
    File as it was.  ReplaceWems panics at the first such entry of the
    batch: the File then holds the replacements of the entries before it,
    and is the File as it was when no entry comes before it. *)
Theorem replacement_growth_panics :
  (∀ bnk data wem i r length,
     bnk_DataSection bnk = Some data →
     0 ≤ i → Wems data !! Z.to_nat i = Some wem →
     Length (Descriptor wem) < length →
     ReplaceWem bnk i r length = Panicked LargerThanOriginal bnk) ∧
  (∀ bnk before rep rest bnk1 data wem,
     ReplaceWems bnk before = Returned bnk1 →
     bnk_DataSection bnk1 = Some data →
     0 ≤ rw_WemIndex rep →
     Wems data !! Z.to_nat (rw_WemIndex rep) = Some wem →
     Length (Descriptor wem) < rw_Length rep →
     ReplaceWems bnk (before ++ rep :: rest) =
       Panicked (TargetLargerThanOriginal (rw_WemIndex rep) (rw_Length rep)
                   (Length (Descriptor wem))) bnk1) ∧
  (∀ bnk rep rest data wem,
     bnk_DataSection bnk = Some data →
     0 ≤ rw_WemIndex rep →
     Wems data !! Z.to_nat (rw_WemIndex rep) = Some wem →
     Length (Descriptor wem) < rw_Length rep →
     ReplaceWems bnk (rep :: rest) =
       Panicked (TargetLargerThanOriginal (rw_WemIndex rep) (rw_Length rep)
                   (Length (Descriptor wem))) bnk).
Proof.
  assert (Hfirst : ∀ bnk rep rest data wem,
     bnk_DataSection bnk = Some data →
     0 ≤ rw_WemIndex rep →
     Wems data !! Z.to_nat (rw_WemIndex rep) = Some wem →
     Length (Descriptor wem) < rw_Length rep →
     ReplaceWems bnk (rep :: rest) =
       Panicked (TargetLargerThanOriginal (rw_WemIndex rep) (rw_Length rep)
                   (Length (Descriptor wem))) bnk).
  { intros bnk rep rest data wem Hd Hi Hw Hlen. cbn [ReplaceWems].
    by rewrite (replaceAt_tooLarge _ _ _ _ _ data wem). }
  split; [|split; [|done]].
  - intros bnk data wem i r length Hd Hi Hw Hlen. unfold ReplaceWem.
    by rewrite (replaceAt_tooLarge _ _ _ _ _ data wem).
  - intros bnk before rep rest bnk1 data wem Hbefore Hd Hi Hw Hlen.
    rewrite (ReplaceWems_app _ _ _ _ Hbefore). by eapply Hfirst.
Qed.

(** C4.  A replacement changes no Offset and no WemId, and it leaves the
    wems at the other indices as they were: ReplaceWem touches the wem at
    index [i] only, and a batch of ReplaceWems only the wems that an entry
    of the batch targets.  This holds of the File that the call leaves,
    whether it returns or panics; ReplaceWem returns whenever the new
    length is at most the Descriptor.Length of wem [i]. *)
Theorem replacement_keeps_offsets :
  (∀ bnk i r length,
     framed bnk (fileOf (ReplaceWem bnk i r length))
       (λ j, Z.of_nat j ≠ i)) ∧
  (∀ bnk reps,
     framed bnk (fileOf (ReplaceWems bnk reps))
       (λ j, ∀ rep, rep ∈ reps → rw_WemIndex rep ≠ Z.of_nat j)) ∧
  (∀ bnk data idx wem i r length,
     bnk_DataSection bnk = Some data → bnk_IndexSection bnk = Some idx →
     0 ≤ i → Wems data !! Z.to_nat i = Some wem →
     length ≤ Length (Descriptor wem) →
     ∃ bnk', ReplaceWem bnk i r length = Returned bnk').
Proof.
  split; [|split].
  - intros bnk i r length. apply replaceAt_framed.
  - intros bnk reps. apply ReplaceWems_framed.
  - intros bnk data idx wem i r length Hd Hi Hpos Hw Hlen.
    unfold ReplaceWem.
    rewrite (replaceAt_ok _ _ _ _ _ data idx wem) by done. by eexists.
Qed.

(** *** The index section *)

Lemma DataIndexSection_WriteTo_foldl (m : gmap Z WemDescriptor) ids :
  ∀ out written,
  foldl (λ '(out, written) id,
           let desc := descriptorOf m id in
           (out ++ encodeWemDescriptor desc, written + DIDX_ENTRY_BYTES))
        (out, written) ids
  = (out ++ indexRecordBytes m ids,
     written + DIDX_ENTRY_BYTES * Z.of_nat (length ids)).
Proof.
  induction ids as [|id ids IH]; intros out written.
  - cbn. by rewrite app_nil_r, Z.mul_0_r, Z.add_0_r.
  - cbn [foldl]. rewrite IH. unfold indexRecordBytes. cbn [flat_map length].
    rewrite <- app_assoc. f_equal. unfold DIDX_ENTRY_BYTES. lia.
Qed.

Lemma DataIndexSection_WriteTo_eq idx :
  DataIndexSection_WriteTo idx =
    Ok (encodeSectionHeader (didx_Header idx)
          ++ indexRecordBytes (DescriptorMap idx) (WemIds idx),
        SECTION_HEADER_BYTES
          + DIDX_ENTRY_BYTES * Z.of_nat (length (WemIds idx))).
Proof.
  unfold DataIndexSection_WriteTo.
  by rewrite DataIndexSection_WriteTo_foldl.
Qed.

Lemma DataSection_WriteTo_terminates data :
  DataSection_WriteTo data ≠ Diverged.
Proof.
  unfold DataSection_WriteTo.
  generalize (encodeSectionHeader (data_Header data)) SECTION_HEADER_BYTES.
  induction (Wems data) as [|wem wems IH]; intros out written; [done|].
  cbn [DataSection_WriteTo_loop].
  pose proof (Copy_terminates (Reader wem)).
  destruct (Copy (Reader wem)) as [[bs n]| | |]; try done.
  cbn [mbind outcome_bind].
  destruct (RemainingReader wem) as [rem|]; [|done].
  pose proof (Copy_terminates rem).
  destruct (Copy rem) as [[bs' n']| | |]; try done.
  cbn [mbind outcome_bind]. apply IH.
Qed.

Lemma File_WriteTo_others_terminates others : ∀ out written,
  File_WriteTo_others others out written ≠ Diverged.
Proof.
  induction others as [|other others IH]; intros out written; [done|].
  cbn [File_WriteTo_others]. unfold UnknownSection_WriteTo.
  pose proof (Copy_terminates (unk_Reader other)).
  destruct (Copy (unk_Reader other)) as [[bs n]| | |]; try done.
  cbn [mbind outcome_bind]. apply IH.
Qed.

Theorem File_WriteTo_terminates bnk : File_WriteTo bnk ≠ Diverged.
Proof.
  unfold File_WriteTo.
  destruct (bnk_BankHeaderSection bnk) as [hdr|]; [|done].
  unfold BankHeaderSection_WriteTo.
  pose proof (Copy_terminates (bkhd_RemainingReader hdr)).
  destruct (Copy (bkhd_RemainingReader hdr)) as [[bs n]| | |]; try done.
  cbn [mbind outcome_bind].
  destruct (bnk_IndexSection bnk) as [idx|]; [|done].
  rewrite DataIndexSection_WriteTo_eq. cbn [mbind outcome_bind].
  destruct (bnk_DataSection bnk) as [data|]; [|done].
  pose proof (DataSection_WriteTo_terminates data).
  destruct (DataSection_WriteTo data) as [[bs' n']| | |]; try done.
  cbn [mbind outcome_bind]. apply File_WriteTo_others_terminates.
Qed.


(** C5.  In a File whose index holds the single record {1, 0, 4} and whose
    DATA section, of header length 8, holds one wem with that descriptor
    and 4 bytes of padding, replacing wem 0 by the two bytes BB BB gives
    the descriptor {1, 0, 2}, in the wem and in the index, and
    DataSection.WriteTo then writes the header and the 8 bytes
    BB BB 00 00 00 00 00 00. *)
Theorem replace_wem_scenario bnk idx data wem :
  bnk_IndexSection bnk = Some idx →
  WemIds idx = [1] →
  DescriptorMap idx = {[1 := mkWemDescriptor 1 0 4]} →
  bnk_DataSection bnk = Some data →
  data_Header data = mkSectionHeader dataHeaderId 8 →
  Wems data = [wem] →
  Descriptor wem = mkWemDescriptor 1 0 4 →
  RemainingLength wem = 4 →
  ∃ bnk' idx' data' wem',
    ReplaceWem bnk 0 exampleSource 2 = Returned bnk' ∧
    bnk_IndexSection bnk' = Some idx' ∧
    bnk_DataSection bnk' = Some data' ∧
    Wems data' = [wem'] ∧
    Descriptor wem' = mkWemDescriptor 1 0 2 ∧
    WemIds idx' = [1] ∧
    DescriptorMap idx' = {[1 := mkWemDescriptor 1 0 2]} ∧
    DataSection_WriteTo data' =
      Ok (sectionHeaderBytes dataHeaderId 8
            ++ ["187"; "187"; "000"; "000"; "000"; "000"; "000"; "000"]%byte,
          16).
Proof.
  intros Hidx Hids Hmap Hdata Hhdr Hwems Hdesc Hrem.
  unfold ReplaceWem.
  rewrite (replaceAt_ok _ _ _ _ _ data idx wem);
    [|done|done|done|by rewrite Hwems|by rewrite Hdesc].
  eexists _, _, _, _. split; [reflexivity|].
  split; [reflexivity|]. split; [reflexivity|].
  cbn [setDescriptor setWem bnk_DataSection Wems WemIds DescriptorMap].
  unfold replacedWem. rewrite Hwems, Hdesc, Hrem, Hids, Hmap.
  cbn [WemId Offset Length Descriptor].
  split; [reflexivity|]. split; [reflexivity|]. split; [reflexivity|].
  split; [by rewrite insert_singleton_eq|].
  unfold DataSection_WriteTo. cbn [Wems data_Header]. rewrite Hhdr.
  vm_compute. reflexivity.
Qed.

(** *** The wems of a parsed DATA section *)

Lemma imap_newWem_from hdr sr idx dataOffset suf : ∀ pre,
  WemIds idx = pre ++ suf →
  imap (λ i, newWem hdr sr idx dataOffset (length pre + i)) suf =
    wemsFrom hdr (asReaderAt sr) dataOffset
      (descriptorOf (DescriptorMap idx)) suf.
Proof.
  induction suf as [|id rest IH]; intros pre Hids; [done|].
  cbn [imap wemsFrom]. f_equal.
  - unfold newWem. rewrite Hids, length_app. cbn [length].
    destruct (Z.leb_spec (Z.of_nat (length pre + 0))
                (Z.of_nat (length pre + S (length rest)) - 1)); [|lia].
    destruct rest as [|next rest].
    + cbn [length].
      destruct (Z.eqb_spec (Z.of_nat (length pre + 0))
                  (Z.of_nat (length pre + 1) - 1)); [done|lia].
    + cbn [length].
      destruct (Z.eqb_spec (Z.of_nat (length pre + 0))
                  (Z.of_nat (length pre + S (S (length rest))) - 1)); [lia|].
      replace (pre ++ id :: next :: rest) with ((pre ++ [id]) ++ next :: rest)
        by (by rewrite <- app_assoc).
      replace (length pre + 0 + 1)%nat with (length (pre ++ [id]))
        by (rewrite length_app; cbn; lia).
      by rewrite list_lookup_total_middle.
  - specialize (IH (pre ++ [id])). rewrite <- app_assoc in IH.
    specialize (IH Hids). rewrite <- IH. apply imap_ext.
    intros i x _. cbn. f_equal. rewrite length_app. cbn. lia.
Qed.

Lemma imap_newWem hdr sr idx dataOffset :
  imap (newWem hdr sr idx dataOffset) (WemIds idx) =
    wemsFrom hdr (asReaderAt sr) dataOffset
      (descriptorOf (DescriptorMap idx)) (WemIds idx).
Proof.
  by rewrite <- (imap_newWem_from hdr sr idx dataOffset (WemIds idx) []).
Qed.

Lemma NewDataSection_built hdr sr idx data sr' :
  NewDataSection hdr sr idx = Ok (data, sr') → dataSectionBuilt data.
Proof.
  unfold NewDataSection. case_decide; [done|].
  destruct (SeekCurrent sr 0) as [dataOffset sr1].
  destruct idx as [idx|]; [|done].
  destruct (SeekCurrent sr1 (hdr_Length hdr)) as [? sr2].
  intros [= <- <-]. unfold dataSectionBuilt. cbn [Wems data_Header].
  rewrite imap_newWem. by eexists _, _, _, _.
Qed.

Lemma NewFile_switch_built bnk hdr sr bnk' sr' :
  NewFile_switch bnk hdr sr = Ok (bnk', sr') →
  (∀ data, bnk_DataSection bnk = Some data → dataSectionBuilt data) →
  ∀ data, bnk_DataSection bnk' = Some data → dataSectionBuilt data.
Proof.
  unfold NewFile_switch. intros H Hinv.
  repeat case_decide;
    match type of H with
    | (mbind _ ?m) = _ => destruct m as [[sec sr1]| | |] eqn:Hsec; try done
    end;
    cbn [mbind outcome_bind] in H; injection H as <- <-;
    cbn [bnk_DataSection]; try done.
  intros data [= <-]. by eapply NewDataSection_built.
Qed.

Lemma NewFile_loop_built fuel : ∀ bnk sr bnk',
  NewFile_loop fuel bnk sr = Ok bnk' →
  (∀ data, bnk_DataSection bnk = Some data → dataSectionBuilt data) →
  ∀ data, bnk_DataSection bnk' = Some data → dataSectionBuilt data.
Proof.
  induction fuel as [|fuel IH]; intros bnk sr bnk' Hloop Hinv; [done|].
  cbn [NewFile_loop] in Hloop. unfold NewFile_body in Hloop.
  destruct (ReadFull sr SECTION_HEADER_BYTES) as [[bs| [] | |] sr1];
    try done; cbn [mbind outcome_bind] in Hloop;
    [|by injection Hloop as <-].
  destruct (NewFile_switch bnk (decodeSectionHeader bs) sr1)
    as [[bnk1 sr2]| | |] eqn:Hsw; try done.
  cbn [mbind outcome_bind] in Hloop.
  apply (IH _ _ _ Hloop). by eapply NewFile_switch_built.
Qed.

Lemma NewFile_built contents bnk data :
  NewFile contents = Ok bnk → bnk_DataSection bnk = Some data →
  dataSectionBuilt data.
Proof.
  unfold NewFile.
  destruct (NewFile_loop _ _ _) as [bnk1| | |] eqn:Hloop; try done.
  cbn [mbind outcome_bind]. destruct (bnk_DataSection bnk1) eqn:Hd; [|done].
  intros [= <-] Hdata. by eapply (NewFile_loop_built _ _ _ _ Hloop).
Qed.

Lemma spanSum_wemsFrom hdr view dataOffset descOf rest : ∀ id,
  spanSum (wemsFrom hdr view dataOffset descOf (id :: rest)) =
    hdr_Length hdr - Offset (descOf id).
Proof.
  induction rest as [|next rest IH]; intros id.
  - cbn. lia.
  - specialize (IH next). cbn [wemsFrom] in *. unfold spanSum in *.
    cbn [foldr Descriptor RemainingLength] in *. rewrite IH. lia.
Qed.

(** C2 (as the code has it).  In a File that NewFile returned, the sum over
    the wems of Descriptor.Length + RemainingLength is the declared length
    of the DATA section minus the Offset of the first wem, and 0 when there
    is no wem. *)
Theorem span_of_wems contents bnk data :
  NewFile contents = Ok bnk → bnk_DataSection bnk = Some data →
  spanSum (Wems data) =
    match Wems data with
    | [] => 0
    | wem :: _ => hdr_Length (data_Header data) - Offset (Descriptor wem)
    end.
Proof.
  intros Hnew Hdata.
  destruct (NewFile_built _ _ _ Hnew Hdata)
    as (view & dataOffset & descOf & ids & Hw).
  rewrite Hw. destruct ids as [|id rest]; [done|].
  rewrite spanSum_wemsFrom. done.
Qed.

(** * Round trip of a well-formed bank *)

(** ** Encoding and decoding *)

Lemma Uint32_PutUint32 v :
  0 ≤ v < 2 ^ 32 →
  Uint32 (byte_of_Z v) (byte_of_Z (v / 2 ^ 8)) (byte_of_Z (v / 2 ^ 16))
         (byte_of_Z (v / 2 ^ 24)) = v.
Proof.
  intros Hv. unfold Uint32. rewrite !byte_to_of_Z.
  assert (H16 : v / 2 ^ 16 = v / 2 ^ 8 / 2 ^ 8)
    by (rewrite Z.div_div by lia; f_equal).
  assert (H24 : v / 2 ^ 24 = v / 2 ^ 16 / 2 ^ 8)
    by (rewrite Z.div_div by lia; f_equal).
  pose proof (Z.div_mod v (2 ^ 8) ltac:(lia)) as E0.
  pose proof (Z.div_mod (v / 2 ^ 8) (2 ^ 8) ltac:(lia)) as E1.
  pose proof (Z.div_mod (v / 2 ^ 16) (2 ^ 8) ltac:(lia)) as E2.
  rewrite <- H16 in E1. rewrite <- H24 in E2.
  assert (0 ≤ v / 2 ^ 24 < 2 ^ 8) as H3.
  { split; [apply Z.div_pos; lia|]. apply Z.div_lt_upper_bound; lia. }
  rewrite (Z.mod_small (v / 2 ^ 24)) by lia.
  change 256 with (2 ^ 8). lia.
Qed.

Lemma decodeSectionHeader_encode h rest :
  0 ≤ hdr_Length h < 2 ^ 32 →
  decodeSectionHeader (encodeSectionHeader h ++ rest) = h.
Proof.
  intros Hl. destruct h as [[[[a b] c] d] len].
  unfold decodeSectionHeader, encodeSectionHeader, getUint32. cbn in *.
  f_equal. by apply Uint32_PutUint32.
Qed.

Lemma length_PutUint32 v : length (PutUint32 v) = 4%nat.
Proof. reflexivity. Qed.

Lemma length_encodeSectionHeader h : length (encodeSectionHeader h) = 8%nat.
Proof. by destruct h as [[[[a b] c] d] len]. Qed.

Lemma length_encodeWemDescriptor d : length (encodeWemDescriptor d) = 12%nat.
Proof. reflexivity. Qed.

Lemma encodeBankDescriptor_decode bs :
  length bs = 8%nat → encodeBankDescriptor (decodeBankDescriptor bs) = bs.
Proof.
  intros Hl. do 9 (destruct bs as [|? bs]; try done).
  unfold encodeBankDescriptor, decodeBankDescriptor, getUint32, byteAt.
  cbn [lookup list_lookup Nat.add default Version BankId].
  by rewrite !PutUint32_Uint32.
Qed.

Lemma encodeWemDescriptor_decode bs :
  length bs = 12%nat → encodeWemDescriptor (decodeWemDescriptor bs) = bs.
Proof.
  intros Hl. do 13 (destruct bs as [|? bs]; try done).
  unfold encodeWemDescriptor, decodeWemDescriptor, getUint32, byteAt.
  cbn [lookup list_lookup Nat.add default WemId Offset Length].
  by rewrite !PutUint32_Uint32.
Qed.

Lemma decodeWemDescriptor_range bs :
  let d := decodeWemDescriptor bs in
  0 ≤ WemId d < 2 ^ 32 ∧ 0 ≤ Offset d < 2 ^ 32 ∧ 0 ≤ Length d < 2 ^ 32.
Proof. cbn. repeat split; apply Uint32_range. Qed.

(** ** Windows of a file made of three parts *)

Lemma window_middle (pre mid suf : list byte) a n :
  0 ≤ a → 0 ≤ n → a + n ≤ Z.of_nat (length mid) →
  window (pre ++ mid ++ suf) (Z.of_nat (length pre) + a) n = window mid a n.
Proof.
  intros Ha Hn Hlen. unfold window.
  replace (Z.to_nat (Z.of_nat (length pre) + a))
    with (length pre + Z.to_nat a)%nat by lia.
  rewrite <- drop_drop, drop_app_length.
  rewrite drop_app_le by lia.
  rewrite take_app_le; [done|]. rewrite length_drop. lia.
Qed.

Lemma window_all (mid : list byte) :
  window mid 0 (Z.of_nat (length mid)) = mid.
Proof.
  unfold window. cbn [Z.to_nat drop]. by rewrite Nat2Z.id, firstn_all.
Qed.

Lemma length_encodeChunk c :
  Z.of_nat (length (encodeChunk c)) = 8 + Z.of_nat (length (payload c)).
Proof.
  unfold encodeChunk. rewrite length_app, length_encodeSectionHeader. lia.
Qed.

Lemma indexRecords_range contents off count :
  Forall (λ d, 0 ≤ Offset d < 2 ^ 32 ∧ 0 ≤ Length d < 2 ^ 32)
         (indexRecords contents off count).
Proof.
  revert off. induction count as [|count IH]; intros off; [constructor|].
  cbn [indexRecords]. constructor; [|apply IH].
  split; apply Uint32_range.
Qed.

Lemma flat_map_encode_indexRecords (bytes : list byte) count : ∀ a,
  0 ≤ a → a + 12 * Z.of_nat count ≤ Z.of_nat (length bytes) →
  flat_map encodeWemDescriptor (indexRecords bytes a count) =
    window bytes a (12 * Z.of_nat count).
Proof.
  induction count as [|count IH]; intros a Ha Hlen.
  - by rewrite window_nonpos by lia.
  - cbn [indexRecords flat_map]. rewrite IH by lia.
    rewrite encodeWemDescriptor_decode.
    2:{ apply Nat2Z.inj. rewrite length_window; lia. }
    rewrite <- window_split by lia. f_equal. lia.
Qed.

Lemma recordsOf_bytes (bytes : list byte) :
  Z.of_nat (length bytes) mod 12 = 0 →
  flat_map encodeWemDescriptor (recordsOf bytes) = bytes.
Proof.
  intros Hmod. unfold recordsOf.
  pose proof (Z.div_mod (Z.of_nat (length bytes)) 12 ltac:(lia)) as Hdm.
  assert (0 ≤ Z.of_nat (length bytes) / 12) by (apply Z.div_pos; lia).
  rewrite flat_map_encode_indexRecords by lia.
  rewrite Z2Nat.id by lia.
  replace (12 * (Z.of_nat (length bytes) / 12)) with (Z.of_nat (length bytes))
    by lia.
  apply window_all.
Qed.

Lemma indexRecords_shift (pre mid suf : list byte) count : ∀ a,
  0 ≤ a → a + 12 * Z.of_nat count ≤ Z.of_nat (length mid) →
  indexRecords (pre ++ mid ++ suf) (Z.of_nat (length pre) + a) count =
    indexRecords mid a count.
Proof.
  induction count as [|count IH]; intros a Ha Hlen; [done|].
  cbn [indexRecords]. rewrite window_middle by lia.
  rewrite <- Z.add_assoc, IH by lia. done.
Qed.

(** The loop of NewDataIndexSection on records with fresh, distinct ids. *)
Lemma NewDataIndexSection_loop_ok contents count : ∀ off sec,
  0 ≤ off →
  off + 12 * Z.of_nat count ≤ Z.of_nat (length contents) →
  Z.of_nat (length contents) ≤ MaxInt64 →
  let recs := indexRecords contents off count in
  NoDup (WemId <$> recs) →
  (∀ d, d ∈ recs → DescriptorMap sec !! WemId d = None) →
  ∃ sec',
    NewDataIndexSection_loop count (fileCursor contents off) sec =
      Ok (sec', fileCursor contents (off + 12 * Z.of_nat count)) ∧
    didx_Header sec' = didx_Header sec ∧
    WemIds sec' = WemIds sec ++ (WemId <$> recs) ∧
    (∀ d, d ∈ recs → DescriptorMap sec' !! WemId d = Some d) ∧
    (∀ x, x ∉ WemId <$> recs →
          DescriptorMap sec' !! x = DescriptorMap sec !! x).
Proof.
  induction count as [|count IH]; intros off sec Hoff Hlen Hmax recs Hnd
    Hfresh.
  - exists sec. cbn [NewDataIndexSection_loop]. repeat split.
    + do 3 f_equal. lia.
    + cbn. by rewrite app_nil_r.
    + intros d Hd. by apply elem_of_nil in Hd.
  - cbn [NewDataIndexSection_loop]. unfold DIDX_ENTRY_BYTES.
    rewrite binaryRead_fileCursor_Ok by lia. cbn [mbind outcome_bind].
    unfold recs in *. cbn [indexRecords fmap list_fmap] in *.
    set (desc := decodeWemDescriptor (window contents off 12)) in *.
    apply NoDup_cons in Hnd as [Hnotin Hnd].
    rewrite decide_False.
    2:{ rewrite (Hfresh desc) by apply list_elem_of_here. by intros []. }
    match goal with |- context [NewDataIndexSection_loop count ?s ?x] =>
      destruct (IH (off + 12) x) as (sec' & Hloop & Hh & Hids & Hin & Hout)
    end; try lia; try done.
    { cbn [DescriptorMap]. intros d Hd.
      rewrite lookup_insert_ne.
      - apply Hfresh. by apply list_elem_of_further.
      - intros Heq. apply Hnotin. rewrite Heq.
        by apply list_elem_of_fmap_2. }
    exists sec'. split.
    { rewrite Hloop. do 3 f_equal. lia. }
    cbn [didx_Header WemIds DescriptorMap] in *.
    split; [done|]. split; [by rewrite Hids, <- app_assoc|]. split.
    + intros d [->|Hd]%elem_of_cons; [|by apply Hin].
      rewrite Hout by done. by rewrite lookup_insert_eq.
    + intros x Hx. apply not_elem_of_cons in Hx as [Hne Hx].
      rewrite Hout by done. by rewrite lookup_insert_ne.
Qed.

Lemma indexOf_descriptors c idx :
  indexOf c idx →
  descriptorOf (DescriptorMap idx) <$> WemIds idx = recordsOf (payload c).
Proof.
  intros (_ & -> & Hm). rewrite <- list_fmap_compose.
  transitivity (id <$> recordsOf (payload c)); [|apply list_fmap_id].
  apply list_fmap_ext. intros i d Hd. cbn. unfold descriptorOf.
  rewrite (Hm d); [done|]. by eapply list_elem_of_lookup_2.
Qed.

Lemma indexOf_WriteTo c idx :
  indexOf c idx → tag c = didxHeaderId →
  Z.of_nat (length (payload c)) mod 12 = 0 →
  DataIndexSection_WriteTo idx =
    Ok (encodeChunk c, Z.of_nat (length (encodeChunk c))).
Proof.
  intros Hidx Htag Hmod. rewrite DataIndexSection_WriteTo_eq.
  pose proof (indexOf_descriptors c idx Hidx) as Hd.
  destruct Hidx as (Hh & Hids & Hm).
  assert (indexRecordBytes (DescriptorMap idx) (WemIds idx) = payload c)
    as ->.
  { unfold indexRecordBytes.
    rewrite <- (recordsOf_bytes (payload c) Hmod) at 1.
    rewrite <- Hd. rewrite !flat_map_concat_map. f_equal.
    by rewrite <- list_fmap_compose. }
  rewrite Hh. unfold encodeChunk. do 2 f_equal.
  rewrite length_app, length_encodeSectionHeader, Hids, length_fmap.
  unfold recordsOf. rewrite length_indexRecords.
  unfold SECTION_HEADER_BYTES, DIDX_ENTRY_BYTES.
  pose proof (Z.div_mod (Z.of_nat (length (payload c))) 12 ltac:(lia)).
  assert (0 ≤ Z.of_nat (length (payload c)) / 12) by (apply Z.div_pos; lia).
  lia.
Qed.

Lemma tiles_head_le descs total :
  Forall (λ d, 0 ≤ Offset d < 2 ^ 32 ∧ 0 ≤ Length d < 2 ^ 32) descs →
  tiles descs total →
  match descs with [] => True | d :: _ => Offset d + Length d ≤ total end.
Proof.
  induction descs as [|d rest IH]; intros Hr Ht; [done|].
  cbn [tiles] in Ht. destruct Ht as [Hd Ht].
  apply Forall_cons in Hr as [Hrd Hr].
  destruct rest as [|next rest]; [done|].
  specialize (IH Hr Ht). cbn in IH.
  apply Forall_cons in Hr as [Hrn _]. lia.
Qed.

Lemma wemsFrom_cons hdr view dataOffset descOf id rest :
  wemsFrom hdr view dataOffset descOf (id :: rest) =
    (let desc := descOf id in
     let wemStartOffset := dataOffset + Offset desc in
     let wemEndOffset := wemStartOffset + Length desc in
     let nextOffset :=
       match rest with
       | [] => dataOffset + hdr_Length hdr
       | next :: _ => dataOffset + Offset (descOf next)
       end in
     let remaining := nextOffset - wemEndOffset in
     mkWem (NewSectionReader view wemStartOffset (Length desc)) desc
           (Some (NewSectionReader view wemEndOffset remaining)) remaining)
    :: wemsFrom hdr view dataOffset descOf rest.
Proof. reflexivity. Qed.

(** DataSection.WriteTo on wems that tile the section writes the bytes of
    the file from the start of the first wem to the end of the section. *)
Lemma DataSection_WriteTo_loop_tiles contents hdr dataOffset descOf rest :
  ∀ id out written,
  0 ≤ dataOffset → dataOffset + hdr_Length hdr ≤ MaxInt64 →
  Forall (λ d, 0 ≤ Offset d < 2 ^ 32 ∧ 0 ≤ Length d < 2 ^ 32)
         (descOf <$> id :: rest) →
  tiles (descOf <$> id :: rest) (hdr_Length hdr) →
  let first := dataOffset + Offset (descOf id) in
  let bytes :=
    window contents first (hdr_Length hdr - Offset (descOf id)) in
  DataSection_WriteTo_loop
    (wemsFrom hdr (fileView contents) dataOffset descOf (id :: rest))
    out written
  = Ok (out ++ bytes, written + Z.of_nat (length bytes)).
Proof.
  induction rest as [|next rest IH];
    intros id out written Hoff Hmax Hr Ht first bytes.
  - cbn [fmap list_fmap tiles] in *. destruct Ht as [Hd _].
    apply Forall_cons in Hr as [[? ?] _].
    cbn [wemsFrom DataSection_WriteTo_loop Reader RemainingReader].
    rewrite Copy_fileView by lia. cbn [mbind outcome_bind].
    rewrite Copy_fileView by lia. cbn [mbind outcome_bind].
    unfold bytes, first.
    replace (hdr_Length hdr - Offset (descOf id))
      with (Length (descOf id)
            + (dataOffset + hdr_Length hdr
               - (dataOffset + Offset (descOf id) + Length (descOf id))))
      by lia.
    rewrite window_split by lia. rewrite length_app, <- app_assoc.
    do 2 f_equal. lia.
  - pose proof (tiles_head_le _ _ Hr Ht) as Hle. cbn in Hle.
    cbn [fmap list_fmap tiles] in Ht. destruct Ht as [Hd Ht].
    pose proof Hr as Hr'.
    apply Forall_cons in Hr as [[? ?] Hr].
    pose proof (tiles_head_le _ _ Hr Ht) as Hle'. cbn in Hle'.
    pose proof Hr as Hr''. apply Forall_cons in Hr'' as [[? ?] _].
    rewrite wemsFrom_cons. cbv zeta.
    cbn [DataSection_WriteTo_loop Reader RemainingReader].
    rewrite Copy_fileView by lia. cbn [mbind outcome_bind].
    rewrite Copy_fileView by lia. cbn [mbind outcome_bind].
    rewrite (IH next) by done. cbv zeta.
    unfold bytes, first.
    replace (hdr_Length hdr - Offset (descOf id))
      with (Length (descOf id)
            + ((dataOffset + Offset (descOf next)
                - (dataOffset + Offset (descOf id) + Length (descOf id)))
               + (hdr_Length hdr - Offset (descOf next))))
      by lia.
    rewrite !window_split by lia. rewrite !length_app, <- !app_assoc.
    replace (dataOffset + Offset (descOf id) + Length (descOf id)
             + (dataOffset + Offset (descOf next)
                - (dataOffset + Offset (descOf id) + Length (descOf id))))
      with (dataOffset + Offset (descOf next)) by lia.
    do 2 f_equal. lia.
Qed.

Section Chunk.
Context (pre suf : list byte) (c : chunk).
Let contents := pre ++ encodeChunk c ++ suf.
Let off := Z.of_nat (length pre).
Let len := Z.of_nat (length (payload c)).

Lemma contents_length :
  off + 8 + len ≤ Z.of_nat (length contents).
Proof.
  unfold contents, off, len. rewrite !length_app.
  pose proof (length_encodeChunk c). lia.
Qed.

Lemma window_chunk_header :
  window contents off 8 = encodeSectionHeader (chunkHeader c).
Proof.
  unfold contents, off.
  rewrite <- (Z.add_0_r (Z.of_nat (length pre))).
  rewrite window_middle by (pose proof (length_encodeChunk c); lia).
  unfold encodeChunk, window. change (Z.to_nat 0) with 0%nat.
  change (Z.to_nat 8) with 8%nat. rewrite drop_0.
  rewrite take_app_length'; [done|].
  by rewrite length_encodeSectionHeader.
Qed.

Lemma window_chunk_payload a n :
  0 ≤ a → 0 ≤ n → a + n ≤ len →
  window contents (off + 8 + a) n = window (payload c) a n.
Proof.
  intros Ha Hn Han. unfold contents, off, encodeChunk.
  rewrite <- app_assoc.
  rewrite (app_assoc pre).
  replace (Z.of_nat (length pre) + 8 + a)
    with (Z.of_nat (length (pre ++ encodeSectionHeader (chunkHeader c))) + a)
    by (rewrite length_app, length_encodeSectionHeader; lia).
  by rewrite window_middle by (fold len; lia).
Qed.

Lemma decode_chunk_header (Hlen32 : len < 2 ^ 32) :
  decodeSectionHeader (window contents off 8) = chunkHeader c.
Proof.
  rewrite window_chunk_header.
  rewrite <- (app_nil_r (encodeSectionHeader _)).
  apply decodeSectionHeader_encode. cbn. fold len. lia.
Qed.

Lemma NewFile_body_chunk (Hlen32 : len < 2 ^ 32)
    (Hmax : Z.of_nat (length contents) ≤ MaxInt64) bnk :
  NewFile_body bnk (fileCursor contents off) =
    (next ← NewFile_switch bnk (chunkHeader c)
              (fileCursor contents (off + 8));
     Ok (Some next)).
Proof.
  pose proof contents_length.
  rewrite NewFile_body_header by (unfold off in *; lia).
  by rewrite decode_chunk_header.
Qed.

(** *** A BKHD chunk *)

Lemma NewBankHeaderSection_chunk (Hlen32 : len < 2 ^ 32)
    (Hmax : Z.of_nat (length contents) ≤ MaxInt64) :
  tag c = bkhdHeaderId → 8 ≤ len →
  ∃ sec,
    NewBankHeaderSection (chunkHeader c) (fileCursor contents (off + 8)) =
      Ok (sec, fileCursor contents (off + 8 + len)) ∧
    BankHeaderSection_WriteTo sec =
      Ok (encodeChunk c, Z.of_nat (length (encodeChunk c))).
Proof.
  intros Htag H8. pose proof contents_length.
  rewrite NewBankHeaderSection_fileCursor;
    [|unfold off; lia|done|lia|lia].
  cbv zeta. cbn [hdr_Length chunkHeader]. fold len.
  rewrite wrap32_small by lia.
  eexists. split; [do 3 f_equal; lia|].
  unfold BankHeaderSection_WriteTo.
  cbn [bkhd_Header bkhd_Descriptor bkhd_RemainingReader].
  rewrite Copy_fileView by (unfold off; lia).
  cbn [mbind outcome_bind].
  replace (off + 8) with (off + 8 + 0) at 1 by lia.
  replace (off + 8 + 8) with (off + 8 + 8) by lia.
  rewrite !window_chunk_payload by lia.
  rewrite encodeBankDescriptor_decode.
  2:{ apply Nat2Z.inj. rewrite length_window; fold len; lia. }
  rewrite <- !app_assoc, <- window_split by lia.
  replace (8 + (len - 8)) with len by lia.
  unfold len at 1. rewrite window_all.
  unfold encodeChunk. f_equal. f_equal.
  rewrite length_window by (fold len; lia).
  rewrite length_app, length_encodeSectionHeader.
  unfold SECTION_HEADER_BYTES, BKHD_SECTION_BYTES. fold len. lia.
Qed.

(** *** An unknown chunk *)

Lemma NewUnknownSection_chunk (Hlen32 : len < 2 ^ 32)
    (Hmax : Z.of_nat (length contents) ≤ MaxInt64) :
  ∃ sec,
    NewUnknownSection (chunkHeader c) (fileCursor contents (off + 8)) =
      Ok (sec, fileCursor contents (off + 8 + len)) ∧
    UnknownSection_WriteTo sec =
      Ok (encodeChunk c, Z.of_nat (length (encodeChunk c))).
Proof.
  pose proof contents_length.
  rewrite NewUnknownSection_fileCursor by (cbn; unfold off, len; lia).
  eexists. split; [reflexivity|].
  unfold UnknownSection_WriteTo. cbn [unk_Header unk_Reader].
  cbn [hdr_Length chunkHeader]. fold len.
  rewrite Copy_fileView by (unfold off, len; lia).
  cbn [mbind outcome_bind].
  replace (off + 8) with (off + 8 + 0) by lia.
  rewrite window_chunk_payload by (unfold len; lia).
  unfold len. rewrite window_all. unfold encodeChunk.
  f_equal. f_equal.
  rewrite length_app, length_encodeSectionHeader.
  unfold SECTION_HEADER_BYTES. lia.
Qed.

(** *** A DIDX chunk *)

Lemma NewDataIndexSection_chunk (Hlen32 : len < 2 ^ 32)
    (Hmax : Z.of_nat (length contents) ≤ MaxInt64) :
  tag c = didxHeaderId → len mod 12 = 0 →
  NoDup (WemId <$> recordsOf (payload c)) →
  ∃ idx,
    NewDataIndexSection (chunkHeader c) (fileCursor contents (off + 8)) =
      Ok (idx, fileCursor contents (off + 8 + len)) ∧
    indexOf c idx.
Proof.
  intros Htag Hmod Hnd. pose proof contents_length.
  unfold NewDataIndexSection. rewrite decide_False by (by intros []).
  cbn [hdr_Length chunkHeader]. fold len. unfold DIDX_ENTRY_BYTES.
  pose proof (Z.div_mod len 12 ltac:(lia)) as Hdm.
  assert (0 ≤ len / 12) by (apply Z.div_pos; unfold len; lia).
  assert (Hrecs :
    indexRecords contents (off + 8) (Z.to_nat (len / 12))
    = recordsOf (payload c)).
  { unfold recordsOf. fold len. unfold contents, off, encodeChunk.
    rewrite <- app_assoc. rewrite (app_assoc pre).
    replace (Z.of_nat (length pre) + 8)
      with (Z.of_nat (length (pre ++ encodeSectionHeader (chunkHeader c)))
            + 0)
      by (rewrite length_app, length_encodeSectionHeader; lia).
    apply indexRecords_shift; [lia|]. fold len. lia. }
  match goal with |- context [NewDataIndexSection_loop ?n ?s ?x] =>
    destruct (NewDataIndexSection_loop_ok contents n (off + 8) x)
      as (idx & Hloop & Hh & Hids & Hin & _)
  end; try (unfold off; lia); try done.
  { by rewrite Hrecs. }
  exists idx. split.
  { rewrite Hloop. do 3 f_equal. lia. }
  rewrite Hrecs in *. by split.
Qed.

(** *** A DATA chunk *)

Lemma NewDataSection_chunk (Hlen32 : len < 2 ^ 32)
    (Hmax : Z.of_nat (length contents) ≤ MaxInt64) idx ci :
  tag c = dataHeaderId → indexOf ci idx →
  covers (recordsOf (payload ci)) (payload c) →
  ∃ data,
    NewDataSection (chunkHeader c) (fileCursor contents (off + 8))
      (Some idx) =
      Ok (data, fileCursor contents (off + 8 + len)) ∧
    DataSection_WriteTo data =
      Ok (encodeChunk c, Z.of_nat (length (encodeChunk c))).
Proof.
  intros Htag Hidx Hcov. pose proof contents_length.
  rewrite NewDataSection_fileCursor by (done || cbn; unfold off, len; lia).
  eexists. split; [reflexivity|].
  unfold DataSection_WriteTo. cbn [Wems data_Header].
  rewrite imap_newWem, asReaderAt_fileCursor.
  pose proof (indexOf_descriptors ci idx Hidx) as Hd.
  unfold covers in Hcov.
  destruct (WemIds idx) as [|id rest] eqn:Hids.
  - cbn in Hd. rewrite <- Hd in Hcov.
    cbn [wemsFrom DataSection_WriteTo_loop]. unfold encodeChunk.
    rewrite Hcov, app_nil_r. do 2 f_equal.
    by rewrite length_encodeSectionHeader.
  - rewrite <- Hd in Hcov. cbn [fmap list_fmap] in Hcov.
    destruct Hcov as [H0 Ht].
    rewrite DataSection_WriteTo_loop_tiles;
      [|unfold off; lia|cbn; unfold off, len in *; lia| |done].
    2:{ cbn [fmap list_fmap] in Hd |- *. rewrite Hd.
        apply indexRecords_range. }
    cbv zeta. rewrite H0, Z.add_0_r, Z.sub_0_r.
    cbn [hdr_Length chunkHeader]. fold len.
    replace (off + 8) with (off + 8 + 0) by lia.
    rewrite window_chunk_payload by lia.
    unfold len. rewrite window_all. unfold encodeChunk.
    f_equal. f_equal.
    rewrite length_app, length_encodeSectionHeader.
    unfold SECTION_HEADER_BYTES. lia.
Qed.
End Chunk.

(** C9.  DataIndexSection.WriteTo writes the section header and then one
    record for every id of WemIds, in the order of WemIds, and
    NewDataIndexSection fills WemIds with the ids of the records in the
    order of the file.  ReplaceWem keeps the header and WemIds; the record
    of the id of the replaced wem becomes {WemId, Offset, uint32(length)}
    and every other record is the one it was, so each record is written at
    the position it had. *)
Theorem index_written_in_WemIds_order :
  (∀ idx,
     DataIndexSection_WriteTo idx =
       Ok (encodeSectionHeader (didx_Header idx)
             ++ indexRecordBytes (DescriptorMap idx) (WemIds idx),
           SECTION_HEADER_BYTES
             + DIDX_ENTRY_BYTES * Z.of_nat (length (WemIds idx)))) ∧
  (∀ pre suf c,
     Z.of_nat (length (payload c)) < 2 ^ 32 →
     Z.of_nat (length (pre ++ encodeChunk c ++ suf)) ≤ MaxInt64 →
     tag c = didxHeaderId →
     Z.of_nat (length (payload c)) mod 12 = 0 →
     NoDup (WemId <$> recordsOf (payload c)) →
     ∃ idx sr,
       NewDataIndexSection (chunkHeader c)
         (fileCursor (pre ++ encodeChunk c ++ suf)
            (Z.of_nat (length pre) + SECTION_HEADER_BYTES))
       = Ok (idx, sr) ∧
       WemIds idx = WemId <$> recordsOf (payload c) ∧
       indexRecordBytes (DescriptorMap idx) (WemIds idx) = payload c) ∧
  (∀ bnk i r length bnk' idx wem,
     ReplaceWem bnk i r length = Returned bnk' →
     bnk_IndexSection bnk = Some idx →
     wemsOf bnk !! Z.to_nat i = Some wem →
     ∃ idx',
       bnk_IndexSection bnk' = Some idx' ∧
       didx_Header idx' = didx_Header idx ∧
       WemIds idx' = WemIds idx ∧
       ∀ id,
         descriptorOf (DescriptorMap idx') id =
           if decide (id = WemId (Descriptor wem))
           then mkWemDescriptor id (Offset (Descriptor wem)) (wrap32 length)
           else descriptorOf (DescriptorMap idx) id).
Proof.
  split; [apply DataIndexSection_WriteTo_eq|]. split.
  { intros pre suf c H32 Hmax Htag Hmod Hnd.
    destruct (NewDataIndexSection_chunk pre suf c H32 Hmax Htag Hmod Hnd)
      as (idx & Hnew & Hidx).
    exists idx. eexists. split; [exact Hnew|].
    split; [apply Hidx|].
    pose proof (indexOf_WriteTo c idx Hidx Htag Hmod) as Hw.
    rewrite DataIndexSection_WriteTo_eq in Hw. injection Hw as Hw _.
    destruct Hidx as (Hh & _ & _). rewrite Hh in Hw.
    unfold encodeChunk in Hw. by apply app_inv_head in Hw. }
  intros bnk i r length bnk' idx wem Hret Hidx Hwem.
  apply replaceAt_Returned_inv in Hret
    as (data & idx0 & wem0 & Hd & Hi & Hpos & Hw & Hlen & ->).
  unfold wemsOf in Hwem. rewrite Hd, Hw in Hwem. injection Hwem as ->.
  rewrite Hidx in Hi. injection Hi as <-.
  eexists. split; [reflexivity|]. cbn. repeat split.
  intros id. unfold descriptorOf. case_decide as Hid.
  - subst id. by rewrite lookup_insert_eq.
  - by rewrite lookup_insert_ne.
Qed.


Lemma encodeChunks_app l1 l2 :
  encodeChunks (l1 ++ l2) = encodeChunks l1 ++ encodeChunks l2.
Proof. unfold encodeChunks. by rewrite flat_map_app. Qed.

Lemma encodeChunks_cons c l :
  encodeChunks (c :: l) = encodeChunk c ++ encodeChunks l.
Proof. reflexivity. Qed.

Lemma length_encodeChunks_ge cs :
  (length cs ≤ length (encodeChunks cs))%nat.
Proof.
  induction cs as [|c cs IH]; [done|].
  rewrite encodeChunks_cons, length_app. cbn [length].
  pose proof (length_encodeChunk c). lia.
Qed.

Lemma File_WriteTo_others_app others : ∀ sec out written bs n,
  UnknownSection_WriteTo sec = Ok (bs, n) →
  File_WriteTo_others (others ++ [sec]) out written =
    ('(out', written') ← File_WriteTo_others others out written;
     Ok (out' ++ bs, written' + n)).
Proof.
  induction others as [|other others IH]; intros sec out written bs n Hsec.
  - cbn [app File_WriteTo_others]. by rewrite Hsec.
  - cbn [app File_WriteTo_others].
    destruct (UnknownSection_WriteTo other) as [[bs' n']| | |]; try done.
    cbn [mbind outcome_bind]. by apply IH.
Qed.

Section RoundTrip.
Context (cs : list chunk) (cb ci cd : chunk).
Context (Hbank : filter isBankHeader cs = [cb]).
Context (Horder : filter isIndexOrData cs = [ci; cd]).
Context (Hci : tag ci = didxHeaderId) (Hcd : tag cd = dataHeaderId).
Context (H32 : Forall (λ c, Z.of_nat (length (payload c)) < 2 ^ 32) cs).
Context (Hcb8 : 8 ≤ Z.of_nat (length (payload cb))).
Context (Hmod : Z.of_nat (length (payload ci)) mod 12 = 0).
Context (Hnd : NoDup (WemId <$> recordsOf (payload ci))).
Context (Hcov : covers (recordsOf (payload ci)) (payload cd)).
Context (Hmax : Z.of_nat (length (encodeChunks cs)) ≤ MaxInt64).

Lemma bank_chunk c : c ∈ cs → tag c = bkhdHeaderId → c = cb.
Proof.
  intros Hin Htag.
  assert (c ∈ filter isBankHeader cs) as Hf
    by by apply list_elem_of_filter.
  rewrite Hbank in Hf. by apply list_elem_of_singleton in Hf.
Qed.

Lemma index_chunk c : c ∈ cs → tag c = didxHeaderId → c = ci.
Proof.
  intros Hin Htag.
  assert (c ∈ filter isIndexOrData cs) as Hf.
  { apply list_elem_of_filter. split; [by left|done]. }
  rewrite Horder in Hf.
  apply elem_of_cons in Hf as [->|Hf]; [done|].
  apply list_elem_of_singleton in Hf as ->. by rewrite Hcd in Htag.
Qed.

Lemma data_chunk c : c ∈ cs → tag c = dataHeaderId → c = cd.
Proof.
  intros Hin Htag.
  assert (c ∈ filter isIndexOrData cs) as Hf.
  { apply list_elem_of_filter. split; [by right|done]. }
  rewrite Horder in Hf.
  apply elem_of_cons in Hf as [->|Hf]; [by rewrite Hci in Htag|].
  by apply list_elem_of_singleton in Hf.
Qed.

Lemma index_before_data l1 c l2 :
  cs = l1 ++ c :: l2 → tag c = dataHeaderId → ci ∈ l1.
Proof.
  intros Hcs Htag. pose proof Horder as Ho.
  rewrite Hcs, filter_app, filter_cons_True in Ho by (by right).
  destruct (filter isIndexOrData l1) as [|x r] eqn:Hf.
  - cbn in Ho. injection Ho as -> _. by rewrite Hci in Htag.
  - cbn in Ho. injection Ho as -> _.
    assert (ci ∈ filter isIndexOrData l1) as Hin
      by (rewrite Hf; apply list_elem_of_here).
    by apply list_elem_of_filter in Hin as [_ ?].
Qed.


Lemma parse_chunks l2 : ∀ l1 bnk fuel,
  cs = l1 ++ l2 → parsedSoFar cb ci cd bnk l1 → (length l2 < fuel)%nat →
  ∃ bnk',
    NewFile_loop fuel bnk
      (fileCursor (encodeChunks cs) (Z.of_nat (length (encodeChunks l1))))
    = Ok bnk' ∧
    closer bnk' = closer bnk ∧ parsedSoFar cb ci cd bnk' cs.
Proof.
  induction l2 as [|c l2 IH]; intros l1 bnk fuel Hcs Hinv Hfuel.
  - rewrite app_nil_r in Hcs. subst l1.
    destruct fuel as [|fuel]; [cbn in Hfuel; lia|].
    cbn [NewFile_loop]. rewrite NewFile_body_end by lia.
    rewrite decide_False by lia. cbn [mbind outcome_bind]. by exists bnk.
  - destruct fuel as [|fuel]; [cbn in Hfuel; lia|].
    cbn [length] in Hfuel. cbn [NewFile_loop].
    assert (Hin : c ∈ cs).
    { rewrite Hcs. apply elem_of_app. right. apply list_elem_of_here. }
    pose proof (proj1 (Forall_forall _ _) H32 c Hin) as Hc32. cbn in Hc32.
    assert (Hcontents :
      encodeChunks cs =
      encodeChunks l1 ++ encodeChunk c ++ encodeChunks l2)
      by (by rewrite Hcs, encodeChunks_app, encodeChunks_cons).
    assert (Hnext :
      Z.of_nat (length (encodeChunks l1)) + 8
      + Z.of_nat (length (payload c))
      = Z.of_nat (length (encodeChunks (l1 ++ [c])))).
    { rewrite encodeChunks_app, length_app. cbn [encodeChunks flat_map].
      rewrite app_nil_r. pose proof (length_encodeChunk c). lia. }
    assert (Hcs' : cs = (l1 ++ [c]) ++ l2) by (by rewrite <- app_assoc).
    pose proof Hmax as Hmax'. rewrite Hcontents in Hmax'.
    destruct Hinv as (Hib & Hii & Hid & Hio).
    pose proof (NewFile_body_chunk _ _ _ Hc32 Hmax' bnk) as Hbody.
    rewrite <- Hcontents in Hbody. rewrite Hbody. clear Hbody.
    unfold NewFile_switch. cbn [Identifier chunkHeader].
    destruct (decide (tag c = bkhdHeaderId)) as [Hb|Hnb];
      [|destruct (decide (tag c = didxHeaderId)) as [Hi|Hni];
        [|destruct (decide (tag c = dataHeaderId)) as [Hd|Hnd']]].
    + (* BKHD *)
      pose proof (bank_chunk c Hin Hb) as ->.
      destruct (NewBankHeaderSection_chunk _ (encodeChunks l2) cb Hc32
                  Hmax' Hb Hcb8) as (sec & Hsec & Hw).
      rewrite <- Hcontents in Hsec. rewrite Hsec.
      cbn [mbind outcome_bind]. rewrite Hnext.
      destruct (IH (l1 ++ [cb]) (mkFile (closer bnk) (Some sec)
                 (bnk_IndexSection bnk) (bnk_DataSection bnk) (Others bnk))
                 fuel Hcs') as (bnk' & Hloop & Hcl & Hinv');
        [|lia|by exists bnk'].
      split; [exact Hw|]. cbn. split; [|split].
      * destruct (bnk_IndexSection bnk); [done|].
        apply Forall_app. split; [done|].
        constructor; [by rewrite Hb|constructor].
      * destruct (bnk_DataSection bnk); [done|].
        apply Forall_app. split; [done|].
        constructor; [by rewrite Hb|constructor].
      * intros out written. rewrite filter_app, filter_cons_False.
        -- cbn [filter list_filter]. rewrite app_nil_r. apply Hio.
        -- intros (? & _). done.
    + (* DIDX *)
      pose proof (index_chunk c Hin Hi) as ->.
      destruct (NewDataIndexSection_chunk _ (encodeChunks l2) ci Hc32
                  Hmax' Hi Hmod Hnd) as (idx & Hsec & Hidx).
      rewrite <- Hcontents in Hsec. rewrite Hsec.
      cbn [mbind outcome_bind]. rewrite Hnext.
      destruct (IH (l1 ++ [ci]) (mkFile (closer bnk)
                 (bnk_BankHeaderSection bnk) (Some idx)
                 (bnk_DataSection bnk) (Others bnk))
                 fuel Hcs') as (bnk' & Hloop & Hcl & Hinv');
        [|lia|by exists bnk'].
      cbn. split; [|split; [exact Hidx|split]].
      * destruct (bnk_BankHeaderSection bnk); [done|].
        apply Forall_app. split; [done|].
        constructor; [by rewrite Hi|constructor].
      * destruct (bnk_DataSection bnk); [done|].
        apply Forall_app. split; [done|].
        constructor; [by rewrite Hi|constructor].
      * intros out written. rewrite filter_app, filter_cons_False.
        -- cbn [filter list_filter]. rewrite app_nil_r. apply Hio.
        -- intros (_ & ? & _). done.
    + (* DATA *)
      pose proof (data_chunk c Hin Hd) as ->.
      pose proof (index_before_data l1 cd l2 Hcs Hd) as Hbefore.
      destruct (bnk_IndexSection bnk) as [idx|] eqn:Hidx.
      2:{ exfalso. by apply (proj1 (Forall_forall _ _) Hii ci Hbefore). }
      destruct (NewDataSection_chunk _ (encodeChunks l2) cd Hc32
                  Hmax' idx ci Hd Hii Hcov) as (data & Hsec & Hw).
      rewrite <- Hcontents in Hsec. rewrite Hsec.
      cbn [mbind outcome_bind]. rewrite Hnext.
      destruct (IH (l1 ++ [cd]) (mkFile (closer bnk)
                 (bnk_BankHeaderSection bnk) (Some idx)
                 (Some data) (Others bnk))
                 fuel Hcs') as (bnk' & Hloop & Hcl & Hinv');
        [|lia|by exists bnk'].
      cbn. split; [|split; [exact Hii|split; [exact Hw|]]].
      * destruct (bnk_BankHeaderSection bnk); [done|].
        apply Forall_app. split; [done|].
        constructor; [by rewrite Hd|constructor].
      * intros out written. rewrite filter_app, filter_cons_False.
        -- cbn [filter list_filter]. rewrite app_nil_r. apply Hio.
        -- intros (_ & _ & ?). done.
    + (* an unknown section *)
      destruct (NewUnknownSection_chunk _ (encodeChunks l2) c Hc32 Hmax')
        as (sec & Hsec & Hw).
      rewrite <- Hcontents in Hsec. rewrite Hsec.
      cbn [mbind outcome_bind]. rewrite Hnext.
      destruct (IH (l1 ++ [c]) (mkFile (closer bnk)
                 (bnk_BankHeaderSection bnk) (bnk_IndexSection bnk)
                 (bnk_DataSection bnk) (Others bnk ++ [sec]))
                 fuel Hcs') as (bnk' & Hloop & Hcl & Hinv');
        [|lia|by exists bnk'].
      unfold parsedSoFar.
      cbn [bnk_BankHeaderSection bnk_IndexSection bnk_DataSection Others].
      split; [|split; [|split]].
      * destruct (bnk_BankHeaderSection bnk); [done|].
        apply Forall_app. split; [done|]. by repeat constructor.
      * destruct (bnk_IndexSection bnk); [done|].
        apply Forall_app. split; [done|]. by repeat constructor.
      * destruct (bnk_DataSection bnk); [done|].
        apply Forall_app. split; [done|]. by repeat constructor.
      * intros out written.
        rewrite (File_WriteTo_others_app _ _ _ _ _ _ Hw), Hio.
        cbn [mbind outcome_bind].
        rewrite filter_app, filter_cons_True by done.
        cbn [filter list_filter]. rewrite encodeChunks_app.
        cbn [encodeChunks flat_map]. rewrite app_nil_r.
        rewrite length_app, <- app_assoc. do 2 f_equal. lia.
Qed.
End RoundTrip.

(** C1 (as the code has it).  Take a bank made of sections whose payloads
    are shorter than 2^32 bytes, with exactly one BKHD section of at least
    8 bytes, exactly one DIDX section, whose length is a multiple of 12
    and whose records have distinct ids, and after it exactly one DATA
    section that its wems and their padding cover from offset 0 to its
    end; unknown sections may stand anywhere.  NewFile returns a File on
    it, the three sections serialize to the bytes of their chunks, and
    File.WriteTo writes the BKHD, DIDX and DATA chunks followed by the
    unknown chunks in their order. *)
Theorem roundtrip_of_well_formed_bank cs cb ci cd :
  filter isBankHeader cs = [cb] →
  filter isIndexOrData cs = [ci; cd] →
  tag ci = didxHeaderId → tag cd = dataHeaderId →
  Forall (λ c, Z.of_nat (length (payload c)) < 2 ^ 32) cs →
  8 ≤ Z.of_nat (length (payload cb)) →
  Z.of_nat (length (payload ci)) mod 12 = 0 →
  NoDup (WemId <$> recordsOf (payload ci)) →
  covers (recordsOf (payload ci)) (payload cd) →
  Z.of_nat (length (encodeChunks cs)) ≤ MaxInt64 →
  ∃ bnk hdr idx data,
    NewFile (encodeChunks cs) = Ok bnk ∧
    bnk_BankHeaderSection bnk = Some hdr ∧
    bnk_IndexSection bnk = Some idx ∧
    bnk_DataSection bnk = Some data ∧
    BankHeaderSection_WriteTo hdr =
      Ok (encodeChunk cb, Z.of_nat (length (encodeChunk cb))) ∧
    DataIndexSection_WriteTo idx =
      Ok (encodeChunk ci, Z.of_nat (length (encodeChunk ci))) ∧
    DataSection_WriteTo data =
      Ok (encodeChunk cd, Z.of_nat (length (encodeChunk cd))) ∧
    let out := encodeChunk cb ++ encodeChunk ci ++ encodeChunk cd
               ++ encodeChunks (filter isUnknown cs) in
    File_WriteTo bnk = Ok (out, Z.of_nat (length out)).
Proof.
  intros Hbank Horder Hci Hcd H32 Hcb8 Hmod Hnd Hcov Hmax.
  destruct (parse_chunks cs cb ci cd Hbank Horder Hci Hcd H32 Hcb8 Hmod Hnd
              Hcov Hmax cs [] newFile (S (length (encodeChunks cs))))
    as (bnk & Hloop & _ & Hb & Hi & Hd & Ho).
  { done. }
  { repeat split; try by constructor.
    intros out written. cbn. by rewrite app_nil_r, Z.add_0_r. }
  { pose proof (length_encodeChunks_ge cs). lia. }
  assert (Hin : ∀ c (P : chunk → Prop) `{∀ x, Decision (P x)} l,
            filter P cs = c :: l → c ∈ cs ∧ P c).
  { intros c P ? l Hf.
    assert (c ∈ filter P cs) as Hc by (rewrite Hf; apply list_elem_of_here).
    by apply list_elem_of_filter in Hc as [? ?]. }
  destruct (Hin _ _ _ _ Hbank) as [Hcb Htb].
  destruct (Hin _ _ _ _ Horder) as [Hcic _].
  assert (Hcdc : cd ∈ cs).
  { assert (cd ∈ filter isIndexOrData cs) as Hc
      by (rewrite Horder; apply list_elem_of_further, list_elem_of_here).
    by apply list_elem_of_filter in Hc as [? ?]. }
  destruct (bnk_BankHeaderSection bnk) as [hdr|] eqn:Ehdr.
  2:{ exfalso. by apply (proj1 (Forall_forall _ _) Hb cb Hcb). }
  destruct (bnk_IndexSection bnk) as [idx|] eqn:Eidx.
  2:{ exfalso. by apply (proj1 (Forall_forall _ _) Hi ci Hcic). }
  destruct (bnk_DataSection bnk) as [data|] eqn:Edata.
  2:{ exfalso. by apply (proj1 (Forall_forall _ _) Hd cd Hcdc). }
  pose proof (indexOf_WriteTo ci idx Hi Hci Hmod) as Hiw.
  exists bnk, hdr, idx, data.
  split.
  { unfold NewFile. rewrite fileReader_cursor.
    change (Z.of_nat (length (encodeChunks []))) with 0 in Hloop.
    rewrite Hloop. cbn [mbind outcome_bind]. by rewrite Edata. }
  do 6 (split; [done|]). cbv zeta.
  unfold File_WriteTo. rewrite Ehdr, Hb. cbn [mbind outcome_bind].
  rewrite Eidx, Hiw. cbn [mbind outcome_bind].
  rewrite Edata, Hd. cbn [mbind outcome_bind]. rewrite Ho.
  rewrite <- !app_assoc. do 2 f_equal. rewrite !length_app. lia.
Qed.

(** * The theorems at concrete banks *)

Lemma NewFile_exampleBank : NewFile exampleBank = Ok exampleFile.
Proof. vm_compute. reflexivity. Qed.

Lemma NewFile_twoWemBank : NewFile twoWemBank = Ok twoWemFile.
Proof. vm_compute. reflexivity. Qed.

(** C1 as stated fails on three banks that NewFile accepts.  On [gapBank]
    the DATA section serializes to 12 bytes, not to the 16 bytes of the
    DATA chunk of the input.  On [noBankHeaderBank] File.WriteTo panics.
    On [looseIndexBank] the DIDX section serializes to 20 bytes, not to
    the 28 bytes of the DIDX chunk of the input. *)
Lemma roundtrip_loses_bytes :
  (∃ bnk data out written,
     NewFile gapBank = Ok bnk ∧
     bnk_DataSection bnk = Some data ∧
     DataSection_WriteTo data = Ok (out, written) ∧
     out ≠ gapBankData) ∧
  (∃ bnk,
     NewFile noBankHeaderBank = Ok bnk ∧
     File_WriteTo bnk = Panic NilDereference) ∧
  (∃ bnk idx out written,
     NewFile looseIndexBank = Ok bnk ∧
     bnk_IndexSection bnk = Some idx ∧
     DataIndexSection_WriteTo idx = Ok (out, written) ∧
     out ≠ looseIndexChunk).
Proof.
  split; [|split].
  - eexists _, _, _, _. split; [vm_compute; reflexivity|].
    split; [reflexivity|]. split; [vm_compute; reflexivity|].
    intros H. apply (f_equal length) in H. vm_compute in H. discriminate.
  - eexists. split; [vm_compute; reflexivity|]. vm_compute. reflexivity.
  - eexists _, _, _, _. split; [vm_compute; reflexivity|].
    split; [reflexivity|]. split; [vm_compute; reflexivity|].
    intros H. apply (f_equal length) in H. vm_compute in H. discriminate.
Qed.

Lemma roundtrip_of_well_formed_bank_witness :
  ∃ bnk,
    NewFile (encodeChunks exampleChunks) = Ok bnk ∧
    File_WriteTo bnk =
      Ok (encodeChunks
            [mkChunk bkhdHeaderId
               (PutUint32 134 ++ PutUint32 77 ++ ["009"]%byte);
             mkChunk didxHeaderId
               (encodeWemDescriptor (mkWemDescriptor 7 0 3)
                ++ encodeWemDescriptor (mkWemDescriptor 9 4 2));
             mkChunk dataHeaderId
               ["001"; "002"; "003"; "000"; "004"; "005"; "000"; "000"]%byte;
             mkChunk ("H", "I", "R", "C")%byte ["001"; "002"; "003"]%byte;
             mkChunk ("S", "T", "I", "D")%byte [];
             mkChunk ("E", "N", "V", "S")%byte ["007"]%byte],
          93).
Proof.
  edestruct (roundtrip_of_well_formed_bank exampleChunks)
    as (bnk & hdr & idx & data & Hnew & _ & _ & _ & _ & _ & _ & Hw).
  - vm_compute. reflexivity.
  - vm_compute. reflexivity.
  - reflexivity.
  - reflexivity.
  - repeat constructor.
  - vm_compute. discriminate.
  - reflexivity.
  - refine (bool_decide_unpack _ _). vm_compute. exact I.
  - vm_compute. repeat split; discriminate.
  - vm_compute. discriminate.
  - exists bnk. split; [exact Hnew|]. rewrite Hw. vm_compute. reflexivity.
Defined.

(** C2 as stated fails twice: on [gapBank] the sum of Descriptor.Length +
    RemainingLength over the wems of the parsed File is 4 and the declared
    length of the DATA section is 8; and replacing the 4 bytes of the wem
    of [exampleFile] by 2 bytes takes the sum from 8 to 6, because ReplaceWem
    leaves the RemainingLength of the wem as it was. *)
Lemma span_sum_changes :
  (∃ bnk data,
     NewFile gapBank = Ok bnk ∧ bnk_DataSection bnk = Some data ∧
     spanSum (Wems data) ≠ hdr_Length (data_Header data)) ∧
  (∃ bnk',
     ReplaceWem exampleFile 0 exampleSource 2 = Returned bnk' ∧
     spanSum (wemsOf bnk') ≠ spanSum (wemsOf exampleFile)).
Proof.
  split.
  - eexists _, _. split; [vm_compute; reflexivity|].
    split; [reflexivity|]. vm_compute. discriminate.
  - eexists. split; [vm_compute; reflexivity|]. vm_compute. discriminate.
Qed.

Lemma span_of_wems_witness :
  ∃ data,
    bnk_DataSection twoWemFile = Some data ∧
    hdr_Length (data_Header data) = 8 ∧
    spanSum (Wems data) = 8.
Proof.
  destruct (bnk_DataSection twoWemFile) as [data|] eqn:Hdata;
    [|vm_compute in Hdata; discriminate].
  exists data. split; [reflexivity|].
  rewrite (span_of_wems twoWemBank twoWemFile data NewFile_twoWemBank Hdata).
  vm_compute in Hdata. injection Hdata as <-. split; reflexivity.
Defined.

(** C3 as stated fails for the batched form: in the batch below the second
    entry asks for 9 bytes, more than the wem holds; ReplaceWems panics,
    and the File keeps the replacement made by the first entry. *)
Lemma batch_growth_keeps_earlier_replacements :
  ∃ p bnk',
    ReplaceWems exampleFile
      [mkReplacementWem exampleSource 0 2; mkReplacementWem exampleSource 0 9]
    = Panicked p bnk' ∧
    Descriptor <$> wemsOf bnk' ≠ Descriptor <$> wemsOf exampleFile.
Proof.
  eexists _, _. split; [vm_compute; reflexivity|].
  vm_compute. discriminate.
Qed.

Lemma replacement_growth_panics_witness :
  ReplaceWem twoWemFile 1 exampleSource 3
    = Panicked LargerThanOriginal twoWemFile ∧
  ∃ bnk1,
    ReplaceWems twoWemFile [mkReplacementWem exampleSource 0 2] = Returned bnk1 ∧
    ReplaceWems twoWemFile
      [mkReplacementWem exampleSource 0 2; mkReplacementWem exampleSource 1 3]
    = Panicked (TargetLargerThanOriginal 1 3 2) bnk1.
Proof.
  destruct replacement_growth_panics as (Hsingle & Hbatch & _).
  destruct (bnk_DataSection twoWemFile) as [data|] eqn:Hdata;
    [|vm_compute in Hdata; discriminate].
  destruct (Wems data !! Z.to_nat 1) as [wem|] eqn:Hwem;
    [|vm_compute in Hdata; injection Hdata as <-; vm_compute in Hwem;
      discriminate].
  assert (Hlen : Length (Descriptor wem) = 2).
  { vm_compute in Hdata. injection Hdata as <-.
    vm_compute in Hwem. injection Hwem as <-. reflexivity. }
  split.
  - apply (Hsingle twoWemFile data wem 1 exampleSource 3 Hdata);
      [lia|exact Hwem|lia].
  - destruct (ReplaceWems twoWemFile [mkReplacementWem exampleSource 0 2])
      as [bnk1|] eqn:Hret; [|vm_compute in Hret; discriminate].
    exists bnk1. split; [reflexivity|].
    destruct (bnk_DataSection bnk1) as [data1|] eqn:Hdata1;
      [|vm_compute in Hret; injection Hret as <-; vm_compute in Hdata1;
        discriminate].
    destruct (Wems data1 !! Z.to_nat 1) as [wem1|] eqn:Hwem1.
    2:{ vm_compute in Hret. injection Hret as <-.
        vm_compute in Hdata1. injection Hdata1 as <-.
        vm_compute in Hwem1. discriminate. }
    assert (Hlen1 : Length (Descriptor wem1) = 2).
    { vm_compute in Hret. injection Hret as <-.
      vm_compute in Hdata1. injection Hdata1 as <-.
      vm_compute in Hwem1. injection Hwem1 as <-. reflexivity. }
    replace (TargetLargerThanOriginal 1 3 2)
      with (TargetLargerThanOriginal 1 3 (Length (Descriptor wem1)))
      by (by rewrite Hlen1).
    apply (Hbatch twoWemFile [mkReplacementWem exampleSource 0 2]
             (mkReplacementWem exampleSource 1 3) [] bnk1 data1 wem1 Hret
             Hdata1); cbn [rw_WemIndex rw_Length]; [lia|exact Hwem1|lia].
Defined.

Lemma replacement_keeps_offsets_witness :
  (∃ bnk',
     ReplaceWem twoWemFile 0 exampleSource 2 = Returned bnk' ∧
     framed twoWemFile bnk' (λ j, Z.of_nat j ≠ 0)) ∧
  (∃ bnk',
     ReplaceWems twoWemFile
       [mkReplacementWem exampleSource 1 1; mkReplacementWem exampleSource 1 0]
     = Returned bnk' ∧
     framed twoWemFile bnk'
       (λ j, ∀ rep,
          rep ∈ [mkReplacementWem exampleSource 1 1;
                 mkReplacementWem exampleSource 1 0] →
          rw_WemIndex rep ≠ Z.of_nat j)).
Proof.
  destruct replacement_keeps_offsets as (Hsingle & Hbatch & Hreturns). split.
  - destruct (bnk_DataSection twoWemFile) as [data|] eqn:Hdata;
      [|vm_compute in Hdata; discriminate].
    destruct (bnk_IndexSection twoWemFile) as [idx|] eqn:Hidx;
      [|vm_compute in Hidx; discriminate].
    destruct (Wems data !! Z.to_nat 0) as [wem|] eqn:Hwem;
      [|vm_compute in Hdata; injection Hdata as <-; vm_compute in Hwem;
        discriminate].
    destruct (Hreturns twoWemFile data idx wem 0 exampleSource 2 Hdata Hidx)
      as [bnk' Hret]; [lia|exact Hwem| |].
    + vm_compute in Hdata. injection Hdata as <-.
      vm_compute in Hwem. injection Hwem as <-. vm_compute. discriminate.
    + exists bnk'. split; [exact Hret|].
      pose proof (Hsingle twoWemFile 0 exampleSource 2) as Hf.
      by rewrite Hret in Hf.
  - pose proof (Hbatch twoWemFile
      [mkReplacementWem exampleSource 1 1; mkReplacementWem exampleSource 1 0])
      as Hf.
    destruct (ReplaceWems twoWemFile _) as [bnk'|] eqn:Hret;
      [|vm_compute in Hret; discriminate].
    exists bnk'. split; [reflexivity|exact Hf].
Defined.

Lemma replace_wem_scenario_witness :
  ∃ bnk' data',
    ReplaceWem exampleFile 0 exampleSource 2 = Returned bnk' ∧
    Descriptor <$> wemsOf bnk' = [mkWemDescriptor 1 0 2] ∧
    bnk_DataSection bnk' = Some data' ∧
    DataSection_WriteTo data' =
      Ok (sectionHeaderBytes dataHeaderId 8
            ++ ["187"; "187"; "000"; "000"; "000"; "000"; "000"; "000"]%byte,
          16).
Proof.
  destruct (bnk_IndexSection exampleFile) as [idx|] eqn:Hidx;
    [|vm_compute in Hidx; discriminate].
  destruct (bnk_DataSection exampleFile) as [data|] eqn:Hdata;
    [|vm_compute in Hdata; discriminate].
  destruct (Wems data) as [|wem [|wem2 wems]] eqn:Hwems;
    try (vm_compute in Hdata; injection Hdata as <-; vm_compute in Hwems;
         discriminate).
  destruct (replace_wem_scenario exampleFile idx data wem Hidx)
    as (bnk' & idx' & data' & wem' & Hret & _ & Hd' & Hw' & Hdesc & _ & _
        & Hout); try done.
  - vm_compute in Hidx. injection Hidx as <-. reflexivity.
  - vm_compute in Hidx. injection Hidx as <-. vm_compute. reflexivity.
  - vm_compute in Hdata. injection Hdata as <-. reflexivity.
  - vm_compute in Hdata. injection Hdata as <-.
    vm_compute in Hwems. injection Hwems as <-. reflexivity.
  - vm_compute in Hdata. injection Hdata as <-.
    vm_compute in Hwems. injection Hwems as <-. reflexivity.
  - exists bnk', data'. split; [exact Hret|].
    split; [|split; [exact Hd'|exact Hout]].
    unfold wemsOf. rewrite Hd', Hw'. cbn. by rewrite Hdesc.
Defined.

Lemma NewFile_repeated_wem_id_witness :
  NewFile repeatedIdBank = Panic (RepeatedWemId 5).
Proof.
  edestruct (NewFile_repeated_wem_id repeatedIdBank 1) with (i := 0%nat)
    (j := 1%nat) (id := 5) as (j' & id' & _ & _ & Hnew & Hid).
  - vm_compute. reflexivity.
  - vm_compute. reflexivity.
  - reflexivity.
  - vm_compute. discriminate.
  - vm_compute. discriminate.
  - lia.
  - vm_compute. reflexivity.
  - vm_compute. reflexivity.
  - rewrite Hnew, Hid; [reflexivity|].
    intros a b x _ Ha _. vm_compute in Ha.
    destruct a as [|[|a]]; by inversion Ha.
Defined.

Lemma NewFile_missing_data_witness :
  exhausted bankHeaderOnly ∧
  Forall (λ hdr, Identifier hdr ≠ dataHeaderId) (headersRead bankHeaderOnly) ∧
  NewFile bankHeaderOnly = Err ErrNoWems.
Proof.
  assert (H1 : exhausted bankHeaderOnly)
    by (eexists; vm_compute; reflexivity).
  assert (H2 : Forall (λ hdr, Identifier hdr ≠ dataHeaderId)
                 (headersRead bankHeaderOnly))
    by (vm_compute; repeat constructor; discriminate).
  split; [exact H1|]. split; [exact H2|].
  exact (NewFile_missing_data bankHeaderOnly H1 H2).
Defined.

(** C8.  On [dataFirstBank], whose DATA section comes before its DIDX
    section, NewFile does not fail with an error value as C8 asks: it
    crashes with the nil pointer dereference of NewDataSection. *)
Lemma data_before_index_is_a_panic :
  NewFile dataFirstBank = Panic NilDereference ∧
  ∀ e, NewFile dataFirstBank ≠ Err e.
Proof.
  assert (H : NewFile dataFirstBank = Panic NilDereference)
    by (vm_compute; reflexivity).
  split; [exact H|]. intros e. rewrite H. discriminate.
Qed.

Lemma NewFile_data_before_index_witness :
  headersRead dataFirstBank =
    [mkSectionHeader bkhdHeaderId 8] ++ mkSectionHeader dataHeaderId 4 :: [] ∧
  NewFile dataFirstBank = Panic NilDereference.
Proof.
  assert (H1 : headersRead dataFirstBank =
    [mkSectionHeader bkhdHeaderId 8] ++ mkSectionHeader dataHeaderId 4 :: [])
    by (vm_compute; reflexivity).
  split; [exact H1|].
  apply (NewFile_data_before_index dataFirstBank _ _ _ H1).
  - repeat constructor. discriminate.
  - reflexivity.
Defined.

Lemma index_written_in_WemIds_order_witness :
  ∃ bnk' idx',
    ReplaceWem twoWemFile 0 exampleSource 2 = Returned bnk' ∧
    bnk_IndexSection bnk' = Some idx' ∧
    WemIds idx' = [7; 9] ∧
    descriptorOf (DescriptorMap idx') <$> [7; 9] =
      [mkWemDescriptor 7 0 2; mkWemDescriptor 9 4 2] ∧
    DataIndexSection_WriteTo idx' =
      Ok (sectionHeaderBytes didxHeaderId 24
            ++ encodeWemDescriptor (mkWemDescriptor 7 0 2)
            ++ encodeWemDescriptor (mkWemDescriptor 9 4 2),
          32).
Proof.
  destruct index_written_in_WemIds_order as (Hwrite & _ & Hreplace).
  destruct (ReplaceWem twoWemFile 0 exampleSource 2) as [bnk'|] eqn:Hret;
    [|vm_compute in Hret; discriminate].
  destruct (bnk_IndexSection twoWemFile) as [idx|] eqn:Hidx;
    [|vm_compute in Hidx; discriminate].
  destruct (wemsOf twoWemFile !! Z.to_nat 0) as [wem|] eqn:Hwem;
    [|vm_compute in Hwem; discriminate].
  destruct (Hreplace twoWemFile 0 exampleSource 2 bnk' idx wem Hret Hidx Hwem)
    as (idx' & Hidx' & Hhdr & Hids & Hdesc).
  assert (WemIds idx' = [7; 9]) as Hids'.
  { rewrite Hids. vm_compute in Hidx. injection Hidx as <-. reflexivity. }
  assert (descriptorOf (DescriptorMap idx') <$> [7; 9] =
          [mkWemDescriptor 7 0 2; mkWemDescriptor 9 4 2]) as Hds.
  { cbn [fmap list_fmap]. rewrite !Hdesc.
    vm_compute in Hwem. injection Hwem as <-.
    vm_compute in Hidx. injection Hidx as <-. vm_compute. reflexivity. }
  exists bnk', idx'. split; [reflexivity|]. split; [exact Hidx'|].
  split; [exact Hids'|]. split; [exact Hds|].
  rewrite Hwrite, Hhdr, Hids'. unfold indexRecordBytes.
  cbn [flat_map]. cbn [fmap list_fmap] in Hds.
  injection Hds as -> ->.
  vm_compute in Hidx. injection Hidx as <-. vm_compute. reflexivity.
Defined.

Lemma Close_idempotent_witness :
  Nat.iter 3 closeAgain (None, exampleFile, exampleWorld)
    = (None, exampleFile, exampleWorld) ∧
  ∃ bnk w,
    Open "example.bnk" exampleWorld = (Ok bnk, w) ∧
    closer bnk = Some (mkCloser 3) ∧
    Close bnk w = (None, (Close bnk w).1.2, exampleWorld_closed) ∧
    Nat.iter 2 closeAgain (Close bnk w)
      = (None, (Close bnk w).1.2, (Close bnk w).2).
Proof.
  destruct Close_idempotent as [Hagain Hnew]. split.
  - exact (Hnew exampleBank exampleFile exampleWorld 2%nat NewFile_exampleBank).
  - eexists _, _. split; [vm_compute; reflexivity|].
    split; [reflexivity|]. split; [vm_compute; reflexivity|].
    apply (Hagain _ _ 1%nat).
Defined.

(** The listing of NewFile without the final test returns a File without
    DATA section on a bank that holds a BKHD section only. *)
Remark NewFile_legacy_bankHeaderOnly :
  ∃ bnk, NewFile_legacy bankHeaderOnly = Ok bnk ∧ bnk_DataSection bnk = None.
Proof. eexists. split; [vm_compute; reflexivity|reflexivity]. Qed.

(** ReplaceWem keeps the RemainingLength that NewDataSection computed, so a
    second replacement of the same wem sizes its padding from the stale
    value: after 4 -> 2 -> 1 bytes the DATA section of [exampleFile], of
    declared length 8, serializes to 6 bytes of payload and padding. *)
Remark second_replacement_shrinks_data :
  ∃ bnk1 bnk2 data out,
    ReplaceWem exampleFile 0 exampleSource 2 = Returned bnk1 ∧
    ReplaceWem bnk1 0 exampleSource 1 = Returned bnk2 ∧
    bnk_DataSection bnk2 = Some data ∧
    hdr_Length (data_Header data) = 8 ∧
    DataSection_WriteTo data = Ok (out, 14) ∧
    out = sectionHeaderBytes dataHeaderId 8
          ++ ["187"; "000"; "000"; "000"; "000"; "000"]%byte.
Proof.
  eexists _, _, _, _. split; [vm_compute; reflexivity|].
  split; [vm_compute; reflexivity|]. split; [reflexivity|].
  split; [reflexivity|]. split; vm_compute; reflexivity.
Qed.

(** * More of the package *)

(** ** The counts that the readers and writers report *)

Lemma ReadAt_count r : ∀ len off,
  0 < len →
  0 ≤ (ReadAt r len off).1.2 ≤ Z.of_nat (length (ReadAt r len off).1.1).
Proof.
  induction r as [contents|v|r IH base limit]; intros len off Hlen; cbn [ReadAt].
  - destruct (Z.ltb_spec off 0); cbn; lia.
  - cbn. rewrite length_replicate. lia.
  - destruct (Z.ltb_spec off 0); [cbn; lia|].
    destruct (Z.leb_spec (limit - base) off); [cbn; lia|]. cbn [orb].
    destruct (Z.ltb_spec (limit - (off + base)) len).
    + specialize (IH (limit - (off + base)) (off + base) ltac:(lia)).
      destruct (ReadAt r _ _) as [[got n] err]. exact IH.
    + apply IH. lia.
Qed.

Lemma Read_count s len :
  0 < len →
  0 ≤ (Read s len).1.1.2 ≤ Z.of_nat (length (Read s len).1.1.1).
Proof.
  intros Hlen. unfold Read.
  destruct (Z.leb_spec (sr_limit s) (sr_off s)); [cbn; lia|].
  set (len' := if sr_limit s - sr_off s <? len then _ else _).
  assert (0 < len') as Hlen'.
  { unfold len'. destruct (Z.ltb_spec (sr_limit s - sr_off s) len); lia. }
  pose proof (ReadAt_count (sr_r s) len' (sr_off s) Hlen') as Hc.
  destruct (ReadAt _ _ _) as [[got n] err]. exact Hc.
Qed.

Lemma copyLoop_count fuel : ∀ s out written res n,
  copyLoop fuel s out written = Ok (res, n) →
  ∃ bs, res = out ++ bs ∧ n = written + Z.of_nat (length bs).
Proof.
  induction fuel as [|fuel IH]; intros s out written res n; [done|].
  cbn [copyLoop].
  pose proof (Read_count s copyBufferSize ltac:(done)) as Hc.
  destruct (Read s copyBufferSize) as [[[got nr] er] s']. cbn in Hc.
  set (out' := if 0 <? nr then _ else _).
  set (written' := if 0 <? nr then _ else _).
  assert (∃ bs, out' = out ++ bs ∧ written' = written + Z.of_nat (length bs))
    as (bs & Hout & Hwritten).
  { unfold out', written'. destruct (Z.ltb_spec 0 nr).
    - exists (take (Z.to_nat nr) got). split; [done|].
      rewrite length_take. lia.
    - exists []. rewrite app_nil_r. cbn. split; [done|lia]. }
  destruct er as [[]|].
  - intros [= <- <-]. eauto.
  - done.
  - done.
  - done.
  - done.
  - done.
  - intros (bs' & -> & ->)%IH. exists (bs ++ bs').
    rewrite Hout, Hwritten, length_app, app_assoc. split; [done|lia].
Qed.

Lemma Copy_count src bs n : Copy src = Ok (bs, n) → n = Z.of_nat (length bs).
Proof. intros (bs' & -> & ->)%copyLoop_count. done. Qed.

Lemma BankHeaderSection_WriteTo_count hdr out n :
  BankHeaderSection_WriteTo hdr = Ok (out, n) → n = Z.of_nat (length out).
Proof.
  unfold BankHeaderSection_WriteTo.
  destruct (Copy (bkhd_RemainingReader hdr)) as [[bs m]| | |] eqn:Hcopy;
    try done.
  apply Copy_count in Hcopy as ->. intros [= <- <-].
  rewrite !length_app, length_encodeSectionHeader.
  unfold encodeBankDescriptor. rewrite length_app, !length_PutUint32.
  unfold SECTION_HEADER_BYTES, BKHD_SECTION_BYTES. lia.
Qed.

Lemma length_indexRecordBytes m ids :
  Z.of_nat (length (indexRecordBytes m ids)) = 12 * Z.of_nat (length ids).
Proof.
  unfold indexRecordBytes. induction ids as [|id ids IH]; [done|].
  cbn [flat_map]. rewrite length_app, length_encodeWemDescriptor.
  cbn [length]. lia.
Qed.

Lemma DataIndexSection_WriteTo_count idx out n :
  DataIndexSection_WriteTo idx = Ok (out, n) → n = Z.of_nat (length out).
Proof.
  rewrite DataIndexSection_WriteTo_eq. intros [= <- <-].
  rewrite length_app, length_encodeSectionHeader, Nat2Z.inj_add,
    length_indexRecordBytes.
  unfold SECTION_HEADER_BYTES, DIDX_ENTRY_BYTES. lia.
Qed.

Lemma DataSection_WriteTo_loop_count wems : ∀ out written res n,
  DataSection_WriteTo_loop wems out written = Ok (res, n) →
  ∃ bs, res = out ++ bs ∧ n = written + Z.of_nat (length bs).
Proof.
  induction wems as [|wem wems IH]; intros out written res n;
    cbn [DataSection_WriteTo_loop].
  - intros [= <- <-]. exists []. by rewrite app_nil_r, Z.add_0_r.
  - destruct (Copy (Reader wem)) as [[bs m]| | |] eqn:Hcopy; try done.
    apply Copy_count in Hcopy as ->. cbn [mbind outcome_bind].
    destruct (RemainingReader wem) as [rem|]; [|done].
    destruct (Copy rem) as [[ps m]| | |] eqn:Hrem; try done.
    apply Copy_count in Hrem as ->. cbn [mbind outcome_bind].
    intros (bs' & -> & ->)%IH. exists (bs ++ ps ++ bs').
    rewrite !length_app, !app_assoc. split; [done|lia].
Qed.

Lemma DataSection_WriteTo_count data out n :
  DataSection_WriteTo data = Ok (out, n) → n = Z.of_nat (length out).
Proof.
  intros (bs & -> & ->)%DataSection_WriteTo_loop_count.
  rewrite length_app, length_encodeSectionHeader.
  unfold SECTION_HEADER_BYTES. lia.
Qed.

Lemma UnknownSection_WriteTo_count unknown out n :
  UnknownSection_WriteTo unknown = Ok (out, n) → n = Z.of_nat (length out).
Proof.
  unfold UnknownSection_WriteTo.
  destruct (Copy (unk_Reader unknown)) as [[bs m]| | |] eqn:Hcopy; try done.
  apply Copy_count in Hcopy as ->. intros [= <- <-].
  rewrite length_app, length_encodeSectionHeader.
  unfold SECTION_HEADER_BYTES. lia.
Qed.

Lemma File_WriteTo_others_count others : ∀ out written res n,
  File_WriteTo_others others out written = Ok (res, n) →
  ∃ bs, res = out ++ bs ∧ n = written + Z.of_nat (length bs).
Proof.
  induction others as [|other others IH]; intros out written res n;
    cbn [File_WriteTo_others].
  - intros [= <- <-]. exists []. by rewrite app_nil_r, Z.add_0_r.
  - destruct (UnknownSection_WriteTo other) as [[bs m]| | |] eqn:Hw;
      try done.
    apply UnknownSection_WriteTo_count in Hw as ->. cbn [mbind outcome_bind].
    intros (bs' & -> & ->)%IH. exists (bs ++ bs').
    rewrite !length_app, !app_assoc. split; [done|lia].
Qed.

Lemma File_WriteTo_count bnk out n :
  File_WriteTo bnk = Ok (out, n) → n = Z.of_nat (length out).
Proof.
  unfold File_WriteTo.
  destruct (bnk_BankHeaderSection bnk) as [hdr|]; [|done].
  destruct (BankHeaderSection_WriteTo hdr) as [[b m]| | |] eqn:Hb; try done.
  apply BankHeaderSection_WriteTo_count in Hb as ->. cbn [mbind outcome_bind].
  destruct (bnk_IndexSection bnk) as [idx|]; [|done].
  destruct (DataIndexSection_WriteTo idx) as [[bi m]| | |] eqn:Hi; try done.
  apply DataIndexSection_WriteTo_count in Hi as ->. cbn [mbind outcome_bind].
  destruct (bnk_DataSection bnk) as [data|]; [|done].
  destruct (DataSection_WriteTo data) as [[bd m]| | |] eqn:Hd; try done.
  apply DataSection_WriteTo_count in Hd as ->. cbn [mbind outcome_bind].
  intros (bs & -> & ->)%File_WriteTo_others_count.
  rewrite !length_app. lia.
Qed.

(** X1.  Every WriteTo method reports the number of bytes that it has
    written: when File.WriteTo, or the WriteTo of a section, returns
    without error, its count [written] is the length of the bytes appended
    to the writer, whatever readers the File holds. *)
Theorem WriteTo_counts_bytes :
  (∀ bnk out n, File_WriteTo bnk = Ok (out, n) → n = Z.of_nat (length out)) ∧
  (∀ hdr out n,
     BankHeaderSection_WriteTo hdr = Ok (out, n) → n = Z.of_nat (length out)) ∧
  (∀ idx out n,
     DataIndexSection_WriteTo idx = Ok (out, n) → n = Z.of_nat (length out)) ∧
  (∀ data out n,
     DataSection_WriteTo data = Ok (out, n) → n = Z.of_nat (length out)) ∧
  (∀ unknown out n,
     UnknownSection_WriteTo unknown = Ok (out, n) →
     n = Z.of_nat (length out)).
Proof.
  repeat split; intros ?; intros;
    eauto using File_WriteTo_count, BankHeaderSection_WriteTo_count,
      DataIndexSection_WriteTo_count, DataSection_WriteTo_count,
      UnknownSection_WriteTo_count.
Qed.

Lemma WriteTo_counts_bytes_witness :
  ∃ out n, File_WriteTo exampleFile = Ok (out, n) ∧ n = 52.
Proof.
  destruct (File_WriteTo exampleFile) as [[out n]| | |] eqn:Hw;
    [|vm_compute in Hw; discriminate..].
  exists out, n. split; [done|].
  rewrite (proj1 WriteTo_counts_bytes exampleFile out n Hw).
  vm_compute in Hw. injection Hw as <- _. reflexivity.
Defined.

(** ** The ways in which NewFile ends *)

Lemma binaryRead_fileCursor_Err contents off size e :
  0 ≤ off → 0 < size →
  binaryRead (fileCursor contents off) size = Err e →
  e = EOF ∨ e = ErrUnexpectedEOF.
Proof.
  intros Hoff Hsize.
  destruct (decide (off + size ≤ Z.of_nat (length contents)
                    ∧ off + size ≤ MaxInt64)) as [[? ?]|Hno].
  - by rewrite binaryRead_fileCursor_Ok.
  - rewrite binaryRead_fileCursor_fail by done.
    case_decide; intros [= <-]; auto.
Qed.

Lemma binaryRead_fileCursor_inv contents off size bs sr :
  0 ≤ off → 0 < size →
  binaryRead (fileCursor contents off) size = Ok (bs, sr) →
  bs = window contents off size ∧ sr = fileCursor contents (off + size) ∧
  off + size ≤ Z.of_nat (length contents).
Proof.
  intros Hoff Hsize.
  destruct (binaryRead_fileCursor_cases contents off size Hoff Hsize)
    as [[Hlen ->]|[e ->]]; [|done].
  by intros [= <- <-].
Qed.

Lemma NewDataIndexSection_loop_failures contents count : ∀ off sec,
  0 ≤ off →
  match NewDataIndexSection_loop count (fileCursor contents off) sec with
  | Err e => e = EOF ∨ e = ErrUnexpectedEOF
  | Panic p => ∃ id, p = RepeatedWemId id
  | _ => True
  end.
Proof.
  induction count as [|count IH]; intros off sec Hoff; [done|].
  cbn [NewDataIndexSection_loop].
  destruct (binaryRead (fileCursor contents off) DIDX_ENTRY_BYTES)
    as [[bs sr]|e| |] eqn:Hread; cbn [mbind outcome_bind]; try done.
  - apply binaryRead_fileCursor_inv in Hread as (-> & -> & _); [|done..].
    case_decide; [by eauto|]. apply IH. unfold DIDX_ENTRY_BYTES. lia.
  - by apply binaryRead_fileCursor_Err in Hread.
  - unfold binaryRead in Hread.
    destruct (ReadFull _ _) as [[bs| | |] sr] eqn:Hfull; try done.
    pose proof (binaryRead_fileCursor_cases contents off DIDX_ENTRY_BYTES
                  Hoff ltac:(done)) as [[_ H]|[e H]];
      unfold binaryRead in H; rewrite Hfull in H; done.
Qed.

Lemma binaryRead_fileCursor_no_panic contents off size p :
  0 ≤ off → 0 < size →
  binaryRead (fileCursor contents off) size ≠ Panic p.
Proof.
  intros Hoff Hsize.
  by destruct (binaryRead_fileCursor_cases contents off size Hoff Hsize)
    as [[_ ->]|[e ->]].
Qed.

Lemma NewFile_switch_failures contents off bnk hdr :
  0 ≤ off →
  match NewFile_switch bnk hdr (fileCursor contents off) with
  | Ok (bnk', _) => indexBeforeData bnk → indexBeforeData bnk'
  | Err e => e = EOF ∨ e = ErrUnexpectedEOF
  | Panic p => p = NilDereference ∨ ∃ id, p = RepeatedWemId id
  | Diverged => True
  end.
Proof.
  intros Hoff. unfold NewFile_switch, indexBeforeData.
  destruct (decide (Identifier hdr = bkhdHeaderId)) as [Hb|Hb].
  { unfold NewBankHeaderSection. rewrite decide_False by (by intros []).
    destruct (binaryRead _ BKHD_SECTION_BYTES) as [[bs sr]|e|p|] eqn:Hread;
      cbn [mbind outcome_bind]; try done.
    - destruct (SeekCurrent sr 0) as [knownOffset sr1].
      destruct (SeekCurrent sr1 _) as [? sr2].
      cbn [mbind outcome_bind bnk_DataSection bnk_IndexSection]. auto.
    - by apply binaryRead_fileCursor_Err in Hread.
    - by apply binaryRead_fileCursor_no_panic in Hread. }
  destruct (decide (Identifier hdr = didxHeaderId)) as [Hi|Hi].
  { unfold NewDataIndexSection. rewrite decide_False by (by intros []).
    pose proof (NewDataIndexSection_loop_failures contents
      (Z.to_nat (hdr_Length hdr / DIDX_ENTRY_BYTES)) off
      (mkDataIndexSection hdr (hdr_Length hdr / DIDX_ENTRY_BYTES) [] ∅) Hoff)
      as Hloop.
    destruct (NewDataIndexSection_loop _ _ _) as [[idx sr]|e|p|];
      cbn [mbind outcome_bind bnk_DataSection bnk_IndexSection];
      try done; eauto. }
  destruct (decide (Identifier hdr = dataHeaderId)) as [Hd|Hd].
  { unfold NewDataSection. rewrite decide_False by (by intros []).
    destruct (SeekCurrent _ 0) as [dataOffset sr].
    destruct (bnk_IndexSection bnk) as [idx|];
      cbn [mbind outcome_bind]; [|by left].
    destruct (SeekCurrent sr _) as [? sr'].
    cbn [mbind outcome_bind bnk_DataSection bnk_IndexSection]. by eauto. }
  unfold NewUnknownSection.
  destruct (SeekCurrent _ 0) as [dataOffset sr].
  destruct (SeekCurrent sr _) as [? sr'].
  cbn [mbind outcome_bind bnk_DataSection bnk_IndexSection]. auto.
Qed.

Lemma NewFile_body_failures contents off bnk :
  0 ≤ off →
  match NewFile_body bnk (fileCursor contents off) with
  | Ok (Some (bnk', _)) => indexBeforeData bnk → indexBeforeData bnk'
  | Ok None => True
  | Err e => e = EOF ∨ e = ErrUnexpectedEOF
  | Panic p => p = NilDereference ∨ ∃ id, p = RepeatedWemId id
  | Diverged => True
  end.
Proof.
  intros Hoff.
  destruct (decide (off + 8 ≤ Z.of_nat (length contents)
                    ∧ off + 8 ≤ MaxInt64)) as [[? ?]|Hno].
  - rewrite NewFile_body_header by done.
    pose proof (NewFile_switch_failures contents (off + 8) bnk
      (decodeSectionHeader (window contents off 8)) ltac:(lia)) as Hsw.
    by destruct (NewFile_switch _ _ _) as [[bnk' sr]|e|p|].
  - rewrite NewFile_body_end by done. case_decide; auto.
Qed.

Lemma NewFile_loop_failures contents fuel : ∀ off bnk,
  0 ≤ off →
  match NewFile_loop fuel bnk (fileCursor contents off) with
  | Ok bnk' => indexBeforeData bnk → indexBeforeData bnk'
  | Err e => e = EOF ∨ e = ErrUnexpectedEOF
  | Panic p => p = NilDereference ∨ ∃ id, p = RepeatedWemId id
  | Diverged => True
  end.
Proof.
  induction fuel as [|fuel IH]; intros off bnk Hoff; [done|].
  cbn [NewFile_loop].
  pose proof (NewFile_body_failures contents off bnk Hoff) as Hbody.
  pose proof (NewFile_body_cursor contents off bnk Hoff) as Hcur.
  destruct (NewFile_body _ _) as [[[bnk' sr]|]|e|p|];
    cbn [mbind outcome_bind]; try done.
  destruct Hcur as (off' & -> & Hoff' & _).
  specialize (IH off' bnk' ltac:(lia)).
  destruct (NewFile_loop _ _ _); try done. auto.
Qed.

(** X2.  The ways in which NewFile ends.  It always ends; when it returns
    a File, the File has no closer and has both an index and a DATA
    section; its errors are io.EOF (the input ends where the payload of a
    BKHD section or a record of the index should start),
    io.ErrUnexpectedEOF and the missing-wems error; its panics are the nil
    dereference of a DATA section without index and the repeated wem id.
    The "Expected ... header" panics of the section constructors never
    come out of NewFile. *)
Theorem NewFile_outcomes contents :
  match NewFile contents with
  | Ok bnk =>
      closer bnk = None ∧ is_Some (bnk_IndexSection bnk) ∧
      is_Some (bnk_DataSection bnk)
  | Err e => e = EOF ∨ e = ErrUnexpectedEOF ∨ e = ErrNoWems
  | Panic p => p = NilDereference ∨ ∃ id, p = RepeatedWemId id
  | Diverged => False
  end.
Proof.
  pose proof (NewFile_terminates contents) as Hterm.
  pose proof (NewFile_closer contents) as Hcloser.
  unfold NewFile in *. rewrite fileReader_cursor in *.
  pose proof (NewFile_loop_failures contents (S (length contents)) 0 newFile
                ltac:(done)) as Hloop.
  destruct (NewFile_loop _ _ _) as [bnk|e|p|]; cbn [mbind outcome_bind] in *;
    try done.
  - destruct (bnk_DataSection bnk) as [data|] eqn:Hdata; [|by auto].
    split; [by apply Hcloser|]. split; [|done].
    unfold indexBeforeData in Hloop. rewrite Hdata in Hloop.
    apply Hloop; [|done]. by intros [? [=]].
  - destruct Hloop; auto.
Qed.

(** ** Inputs that end early *)

(** X3.  Where the loop of NewFile stops.  When the input ends at or
    before the cursor that the loop has reached, the loop leaves by its
    break and the second listing of NewFile returns the File built so far;
    when 1 to 7 bytes are left, too few for a section header, both
    listings return io.ErrUnexpectedEOF. *)
Theorem NewFile_end_of_input contents k bnk sr :
  NewFile_run k newFile (fileReader contents) = Some (bnk, sr) →
  Z.of_nat (length contents) ≤ MaxInt64 →
  (Z.of_nat (length contents) ≤ sr_off sr →
   NewFile_legacy contents = Ok bnk ∧
   NewFile contents =
     match bnk_DataSection bnk with
     | Some _ => Ok bnk
     | None => Err ErrNoWems
     end) ∧
  (sr_off sr < Z.of_nat (length contents) < sr_off sr + SECTION_HEADER_BYTES →
   NewFile_legacy contents = Err ErrUnexpectedEOF ∧
   NewFile contents = Err ErrUnexpectedEOF).
Proof.
  intros Hrun Hmax. unfold NewFile, NewFile_legacy.
  rewrite (NewFile_loop_run contents k bnk sr Hrun).
  rewrite fileReader_cursor in Hrun.
  destruct (NewFile_run_cursor contents k 0 newFile bnk sr ltac:(lia) Hrun)
    as (off & -> & Hoff & _).
  cbn [sr_off fileCursor]. unfold SECTION_HEADER_BYTES.
  split; intros Hlen; rewrite NewFile_body_end by lia.
  - by rewrite decide_False by lia.
  - by rewrite decide_True by lia.
Qed.

Lemma NewFile_end_of_input_witness :
  NewFile (exampleBank ++ ["001"; "002"; "003"]%byte) = Err ErrUnexpectedEOF.
Proof.
  edestruct (NewFile_end_of_input
               (exampleBank ++ ["001"; "002"; "003"]%byte) 3) as [_ Hcut].
  - vm_compute. reflexivity.
  - vm_compute. discriminate.
  - apply Hcut. vm_compute. split; reflexivity.
Defined.

Lemma NewDataIndexSection_loop_app a : ∀ b r sec,
  NewDataIndexSection_loop (a + b) r sec =
    ('(sec', r') ← NewDataIndexSection_loop a r sec;
     NewDataIndexSection_loop b r' sec').
Proof.
  induction a as [|a IH]; intros b r sec; [done|].
  cbn [Nat.add NewDataIndexSection_loop].
  destruct (binaryRead r DIDX_ENTRY_BYTES) as [[bs r1]| | |];
    cbn [mbind outcome_bind]; try done.
  case_decide; [done|]. apply IH.
Qed.

(** X4.  An index that the input cuts short.  When a DIDX header declares
    more records than the input holds, and the records that are complete
    carry distinct ids, NewFile returns an error and no File: io.EOF when
    the input ends on a record boundary, io.ErrUnexpectedEOF when it ends
    inside a record. *)
Theorem NewFile_truncated_index contents k bnk sr hdr :
  NewFile_run k newFile (fileReader contents) = Some (bnk, sr) →
  headerAt sr = Some hdr →
  Identifier hdr = didxHeaderId →
  let start := sr_off sr + SECTION_HEADER_BYTES in
  let count := hdr_Length hdr / DIDX_ENTRY_BYTES in
  let avail := Z.of_nat (length contents) - start in
  Z.of_nat (length contents) ≤ MaxInt64 →
  avail < DIDX_ENTRY_BYTES * count →
  NoDup (WemId <$> indexRecords contents start
                     (Z.to_nat (avail / DIDX_ENTRY_BYTES))) →
  NewFile contents =
    Err (if decide (avail mod DIDX_ENTRY_BYTES = 0)
         then EOF else ErrUnexpectedEOF).
Proof.
  intros Hrun Hhdr Hid start count avail Hmax Hshort Hnd.
  unfold NewFile. rewrite (NewFile_loop_run contents k bnk sr Hrun).
  rewrite fileReader_cursor in Hrun.
  destruct (NewFile_run_cursor contents k 0 newFile bnk sr ltac:(lia) Hrun)
    as (off & -> & Hoff & _).
  rewrite headerAt_fileCursor in Hhdr by lia.
  case_decide as Hc; [|done]. injection Hhdr as Hhdr.
  cbn [sr_off fileCursor] in start.
  unfold SECTION_HEADER_BYTES, DIDX_ENTRY_BYTES in *.
  rewrite NewFile_body_header by lia. rewrite Hhdr.
  unfold NewFile_switch. rewrite Hid.
  rewrite decide_False by done. rewrite decide_True by done.
  unfold NewDataIndexSection. rewrite decide_False by (by intros []).
  unfold DIDX_ENTRY_BYTES. fold count. fold start.
  assert (0 ≤ avail) as Havail by (unfold avail, start; lia).
  set (a := Z.to_nat (avail / 12)) in *.
  assert (Z.of_nat a = avail / 12) as Ha
    by (unfold a; rewrite Z2Nat.id; [done|by apply Z.div_pos]).
  pose proof (Z.div_mod avail 12 ltac:(lia)) as Hdm.
  pose proof (Z.mod_pos_bound avail 12 ltac:(lia)) as Hmod.
  assert (a < Z.to_nat count)%nat as Hlt by lia.
  replace (Z.to_nat count) with (a + S (Z.to_nat count - S a))%nat by lia.
  rewrite NewDataIndexSection_loop_app.
  assert (0 ≤ start) as Hstart by (unfold start; lia).
  assert (start + 12 * Z.of_nat a ≤ Z.of_nat (length contents)) as Hfit
    by (unfold avail in *; lia).
  destruct (NewDataIndexSection_loop_ok contents a start
              (mkDataIndexSection hdr count [] ∅) Hstart Hfit Hmax Hnd)
    as (sec' & -> & _); [by intros; apply lookup_empty|].
  cbn [mbind outcome_bind NewDataIndexSection_loop].
  unfold DIDX_ENTRY_BYTES.
  rewrite binaryRead_fileCursor_fail; [|lia|done|unfold avail in *; lia].
  cbn [mbind outcome_bind].
  destruct (decide (avail mod 12 = 0)).
  - rewrite decide_False; [done|]. unfold avail in *. lia.
  - rewrite decide_True; [done|]. unfold avail in *. lia.
Qed.

Lemma NewFile_truncated_index_witness :
  NewFile (take 38 repeatedIdBank) = Err ErrUnexpectedEOF.
Proof.
  edestruct (NewFile_truncated_index (take 38 repeatedIdBank) 1) as [].
  - vm_compute. reflexivity.
  - vm_compute. reflexivity.
  - reflexivity.
  - vm_compute. discriminate.
  - vm_compute. reflexivity.
  - refine (bool_decide_unpack _ _). vm_compute. exact I.
  - vm_compute. reflexivity.
Defined.

(** ** The index section *)

Lemma NewDataIndexSection_loop_consistent count : ∀ r sec sec' r',
  NewDataIndexSection_loop count r sec = Ok (sec', r') →
  indexConsistent sec →
  didx_Header sec' = didx_Header sec ∧ WemCount sec' = WemCount sec ∧
  length (WemIds sec') = (length (WemIds sec) + count)%nat ∧
  indexConsistent sec'.
Proof.
  induction count as [|count IH]; intros r sec sec' r';
    cbn [NewDataIndexSection_loop].
  { intros [= <- <-] Hc. by rewrite Nat.add_0_r. }
  destruct (binaryRead r DIDX_ENTRY_BYTES) as [[bs r1]| | |];
    cbn [mbind outcome_bind]; try done.
  case_decide as Hnew; [done|]. intros Hloop (Hnd & Hkeys & Hdesc).
  apply IH in Hloop as (Hh & Hc & Hlen & Hcons);
    cbn [didx_Header WemCount WemIds DescriptorMap] in *.
  - rewrite length_app in Hlen. cbn [length] in Hlen.
    split; [done|]. split; [done|]. split; [lia|done].
  - unfold indexConsistent. cbn [WemIds DescriptorMap].
    set (d := decodeWemDescriptor bs) in *. split; [|split].
    + apply NoDup_app. split; [done|]. split; [|apply NoDup_singleton].
      intros x Hx ->%list_elem_of_singleton. by apply Hnew, Hkeys.
    + intros id. rewrite elem_of_app, list_elem_of_singleton, Hkeys.
      destruct (decide (id = WemId d)) as [->|Hne].
      * rewrite lookup_insert_eq. split; [by eauto|by right].
      * rewrite lookup_insert_ne by done.
        split; [by intros [|]|by left].
    + intros id d'. destruct (decide (id = WemId d)) as [->|Hne].
      * rewrite lookup_insert_eq. intros [= <-]. split; [done|].
        apply (decodeWemDescriptor_range bs).
      * rewrite lookup_insert_ne by done. apply Hdesc.
Qed.

Lemma indexConsistent_empty hdr count :
  indexConsistent (mkDataIndexSection hdr count [] ∅).
Proof.
  split; [apply NoDup_nil_2|]. cbn [WemIds DescriptorMap]. split.
  - intros id. rewrite lookup_empty, elem_of_nil.
    split; [done|by intros [? [=]]].
  - intros id d. by rewrite lookup_empty.
Qed.

Lemma NewDataIndexSection_indexConsistent hdr r idx r' :
  NewDataIndexSection hdr r = Ok (idx, r') → indexConsistent idx.
Proof.
  unfold NewDataIndexSection. case_decide; [done|]. intros Hloop.
  apply NewDataIndexSection_loop_consistent in Hloop as (_ & _ & _ & ?);
    [done|apply indexConsistent_empty].
Qed.

(** X5.  The index that NewDataIndexSection returns, whatever reader it
    reads from: it carries the header it was given, WemCount is
    Length / 12 and is the number of WemIds, the ids are distinct, they are
    exactly the keys of DescriptorMap, and every descriptor is stored under
    its own id. *)
Theorem NewDataIndexSection_consistent hdr r idx r' :
  NewDataIndexSection hdr r = Ok (idx, r') →
  didx_Header idx = hdr ∧
  WemCount idx = hdr_Length hdr / DIDX_ENTRY_BYTES ∧
  length (WemIds idx) = Z.to_nat (WemCount idx) ∧
  indexConsistent idx.
Proof.
  unfold NewDataIndexSection. case_decide; [done|].
  intros Hloop. apply NewDataIndexSection_loop_consistent in Hloop.
  - cbn [didx_Header WemCount WemIds length Nat.add] in Hloop.
    destruct Hloop as (-> & -> & -> & ?). done.
  - apply indexConsistent_empty.
Qed.

Lemma NewDataIndexSection_consistent_witness :
  ∃ idx r',
    NewDataIndexSection (mkSectionHeader didxHeaderId 24)
      (fileCursor twoWemBank 24) = Ok (idx, r') ∧
    length (WemIds idx) = 2%nat ∧ indexConsistent idx.
Proof.
  destruct (NewDataIndexSection (mkSectionHeader didxHeaderId 24)
              (fileCursor twoWemBank 24)) as [[idx r']| | |] eqn:Hnew;
    [|vm_compute in Hnew; discriminate..].
  exists idx, r'. split; [done|].
  destruct (NewDataIndexSection_consistent _ _ _ _ Hnew)
    as (_ & Hcount & Hlen & Hcons).
  split; [|done]. rewrite Hlen, Hcount. reflexivity.
Defined.

(** X6.  NewDataIndexSection reads Length / 12 records and nothing more:
    it leaves the cursor 12 * (Length / 12) bytes after the start of the
    section data, that is Length mod 12 bytes before the end that the
    header declares, and never seeks to that end. *)
Theorem NewDataIndexSection_leaves_tail contents off hdr idx sr' :
  0 ≤ off → 0 ≤ hdr_Length hdr →
  NewDataIndexSection hdr (fileCursor contents off) = Ok (idx, sr') →
  sr' = fileCursor contents
          (off + hdr_Length hdr - hdr_Length hdr mod DIDX_ENTRY_BYTES).
Proof.
  intros Hoff Hlen. unfold NewDataIndexSection. case_decide; [done|].
  intros Hloop. unfold DIDX_ENTRY_BYTES in *.
  pose proof (Z.div_mod (hdr_Length hdr) 12 ltac:(lia)) as Hdm.
  assert (0 ≤ hdr_Length hdr / 12) as Hq by (by apply Z.div_pos).
  pose proof (NewDataIndexSection_loop_cursor contents
    (Z.to_nat (hdr_Length hdr / 12)) off
    (mkDataIndexSection hdr (hdr_Length hdr / 12) [] ∅) Hoff) as Hcur.
  rewrite Hloop in Hcur. destruct Hcur as (-> & _). f_equal. lia.
Qed.

Lemma NewDataIndexSection_leaves_tail_witness :
  ∃ idx,
    NewDataIndexSection (mkSectionHeader didxHeaderId 20)
      (fileCursor looseIndexBank 24) = Ok (idx, fileCursor looseIndexBank 36).
Proof.
  destruct (NewDataIndexSection (mkSectionHeader didxHeaderId 20)
              (fileCursor looseIndexBank 24)) as [[idx sr']| | |] eqn:Hnew;
    [|vm_compute in Hnew; discriminate..].
  exists idx.
  rewrite (NewDataIndexSection_leaves_tail looseIndexBank 24
             (mkSectionHeader didxHeaderId 20) idx sr'
             ltac:(lia) ltac:(cbn; lia) Hnew).
  reflexivity.
Defined.

(** ** Declared lengths that do not fit *)



(** X8.  NewUnknownSection reads nothing and cannot fail.  It accepts a
    section whose declared length runs past the end of the input, and moves
    the cursor by the declared length; UnknownSection.WriteTo then writes
    the header as it was read, followed by the bytes that the input does
    hold, so that the count falls short of 8 + Length by the bytes that are
    missing. *)
Theorem NewUnknownSection_past_end contents off hdr :
  0 ≤ off → 0 ≤ hdr_Length hdr → off + hdr_Length hdr ≤ MaxInt64 →
  ∃ sec,
    NewUnknownSection hdr (fileCursor contents off) =
      Ok (sec, fileCursor contents (off + hdr_Length hdr)) ∧
    UnknownSection_WriteTo sec =
      Ok (encodeSectionHeader hdr ++ window contents off (hdr_Length hdr),
          SECTION_HEADER_BYTES
          + Z.min (hdr_Length hdr)
                  (Z.max 0 (Z.of_nat (length contents) - off))).
Proof.
  intros Hoff Hlen Hmax. eexists. split.
  - by apply NewUnknownSection_fileCursor.
  - unfold UnknownSection_WriteTo. cbn [unk_Reader unk_Header].
    rewrite Copy_fileView by done. cbn [mbind outcome_bind].
    do 2 f_equal. unfold window. rewrite length_take, length_drop. lia.
Qed.

Lemma NewUnknownSection_past_end_witness :
  ∃ sec,
    NewUnknownSection (mkSectionHeader ("H", "I", "R", "C")%byte 100)
      (fileCursor exampleBank 50) =
      Ok (sec, fileCursor exampleBank 150) ∧
    UnknownSection_WriteTo sec =
      Ok (sectionHeaderBytes ("H", "I", "R", "C")%byte 100
          ++ ["000"; "000"]%byte, 10).
Proof.
  destruct (NewUnknownSection_past_end exampleBank 50
              (mkSectionHeader ("H", "I", "R", "C")%byte 100))
    as (sec & Hnew & Hw).
  - lia.
  - cbn. lia.
  - vm_compute. discriminate.
  - exists sec. split; [exact Hnew|]. rewrite Hw. vm_compute. reflexivity.
Defined.

(** ** io.Copy over an os.File *)

Lemma ReadAt_File contents len off :
  0 ≤ off →
  ReadAt (FileReaderAt contents) len off =
    (window contents off len, Z.of_nat (length (window contents off len)),
     if Z.of_nat (length (window contents off len)) <? len
     then Some EOF else None).
Proof.
  intros Hoff. cbn [ReadAt]. by destruct (Z.ltb_spec off 0); [lia|].
Qed.

(** io.Copy of a section reader over an os.File returns the bytes of its
    window, cut at the end of the file. *)
Lemma copyLoop_File contents fuel b o l out written :
  0 ≤ o → (Z.to_nat (l - o) < fuel)%nat →
  copyLoop fuel (mkSectionReader (FileReaderAt contents) b o l) out written =
    Ok (out ++ window contents o (l - o),
        written + Z.of_nat (length (window contents o (l - o)))).
Proof.
  revert o out written.
  induction fuel as [|fuel IH]; intros o out written Ho Hfuel; [lia|].
  cbn [copyLoop]. unfold Read. cbn [sr_limit sr_off sr_r sr_base].
  destruct (Z.leb_spec l o) as [Hend|Hin].
  { rewrite window_nonpos by lia. cbn [length Z.of_nat].
    by rewrite Z.ltb_irrefl, app_nil_r, Z.add_0_r. }
  set (len := if l - o <? copyBufferSize then l - o else copyBufferSize).
  assert (Hlen : 0 < len ≤ l - o).
  { unfold len, copyBufferSize.
    destruct (Z.ltb_spec (l - o) (32 * 1024)); lia. }
  rewrite ReadAt_File by lia.
  set (got := window contents o len).
  pose proof (length_window_le contents o len ltac:(lia)) as Hgot.
  fold got in Hgot. rewrite Nat2Z.id, firstn_all.
  assert (Hout :
    (if 0 <? Z.of_nat (length got) then out ++ got else out) = out ++ got).
  { destruct (Z.ltb_spec 0 (Z.of_nat (length got))); [done|].
    destruct got; [by rewrite app_nil_r | simpl in *; lia]. }
  assert (Hw :
    (if 0 <? Z.of_nat (length got) then written + Z.of_nat (length got)
     else written) = written + Z.of_nat (length got)).
  { destruct (Z.ltb_spec 0 (Z.of_nat (length got))); lia. }
  rewrite Hout, Hw.
  destruct (Z.ltb_spec (Z.of_nat (length got)) len) as [Hshort|Hfull].
  - assert (window contents o (l - o) = got) as ->; [|done].
    unfold got, window in *. rewrite length_take, length_drop in Hshort.
    rewrite !take_ge; [done| |]; rewrite length_drop; lia.
  - rewrite IH by lia.
    assert (Z.of_nat (length got) = len) as Hg by lia. rewrite Hg.
    assert (window contents o (l - o) =
            got ++ window contents (o + len) (l - (o + len))) as ->.
    { replace (l - o) with (len + (l - (o + len))) at 1 by lia.
      by rewrite window_split by lia. }
    rewrite length_app, <- app_assoc. do 2 f_equal. lia.
Qed.

Lemma Copy_File contents n :
  0 ≤ n ≤ MaxInt64 →
  Copy (NewSectionReader (FileReaderAt contents) 0 n) =
    Ok (take (Z.to_nat n) contents,
        Z.of_nat (length (take (Z.to_nat n) contents))).
Proof.
  intros. rewrite NewSectionReader_within by lia. unfold Copy.
  cbn [sr_limit sr_off]. rewrite copyLoop_File by lia.
  unfold window. rewrite drop_0. cbn [app].
  by replace (n + 0 - 0) with n by lia.
Qed.

(** A section of negative length over an os.File runs up to maxint64:
    io.Copy returns the whole file. *)
Lemma Copy_File_negative contents n :
  MinInt64 ≤ n < 0 → Z.of_nat (length contents) ≤ MaxInt64 →
  Copy (NewSectionReader (FileReaderAt contents) 0 n) =
    Ok (contents, Z.of_nat (length contents)).
Proof.
  intros. rewrite NewSectionReader_negative by lia. unfold Copy.
  cbn [sr_limit sr_off]. rewrite copyLoop_File by lia.
  unfold window. rewrite drop_0. cbn [app].
  by rewrite take_ge by lia.
Qed.

(** ** The outcomes of a replacement *)

Lemma wemsOf_setDescriptor bnk idx desc :
  wemsOf (setDescriptor bnk idx desc) = wemsOf bnk.
Proof. done. Qed.

Lemma wemsOf_setWem bnk data i wem :
  wemsOf (setWem bnk data i wem) = <[i := wem]> (Wems data).
Proof. done. Qed.

Lemma replaceAt_cases bnk i r length tooLarge :
  is_Some (bnk_IndexSection bnk) →
  match replaceAt bnk i r length tooLarge with
  | Returned bnk' =>
      ∃ wem, 0 ≤ i ∧ wemsOf bnk !! Z.to_nat i = Some wem ∧
             length ≤ Length (Descriptor wem) ∧
             wemsOf bnk' = <[Z.to_nat i := replacedWem wem r length]>
                             (wemsOf bnk)
  | Panicked p bnk' =>
      bnk' = bnk ∧
      ((p = NilDereference ∧ bnk_DataSection bnk = None) ∨
       (p = IndexOutOfRange i (List.length (wemsOf bnk)) ∧
        is_Some (bnk_DataSection bnk) ∧
        (i < 0 ∨ Z.of_nat (List.length (wemsOf bnk)) ≤ i)) ∨
       (∃ wem, 0 ≤ i ∧ wemsOf bnk !! Z.to_nat i = Some wem ∧
               Length (Descriptor wem) < length ∧
               p = tooLarge (Length (Descriptor wem))))
  end.
Proof.
  intros [idx Hidx]. unfold replaceAt, wemsOf.
  destruct (bnk_DataSection bnk) as [data|] eqn:Hdata; [|by auto].
  destruct (Z.ltb_spec i 0) as [Hneg|Hpos].
  { split; [done|]. right. left. by eauto with lia. }
  destruct (Wems data !! Z.to_nat i) as [wem|] eqn:Hwem.
  - destruct (Z.ltb_spec (Length (Descriptor wem)) length) as [Hbig|Hfit].
    + split; [done|]. right. right. by eauto.
    + cbn [bnk_IndexSection setWem]. rewrite Hidx.
      exists wem. cbn [bnk_DataSection setDescriptor Wems]. done.
  - split; [done|]. right. left. apply lookup_ge_None in Hwem.
    split; [done|]. split; [by eauto|lia].
Qed.

(** X9.  The outcomes of ReplaceWem on a File that has an index (every
    File that NewFile returns has one).  It returns exactly when the index
    [i] is in range and [length] does not exceed the Length of the wem, and
    then installs the replaced wem at position [i].  Otherwise it panics
    and the File is as it was before the call: with a nil dereference when
    there is no DATA section, an index out of range when [i] is negative or
    not below the number of wems, and the larger-than-original panic when
    [length] exceeds the Length of the wem. *)
Theorem ReplaceWem_outcomes bnk i r length :
  is_Some (bnk_IndexSection bnk) →
  match ReplaceWem bnk i r length with
  | Returned bnk' =>
      ∃ wem, 0 ≤ i ∧ wemsOf bnk !! Z.to_nat i = Some wem ∧
             length ≤ Length (Descriptor wem) ∧
             wemsOf bnk' = <[Z.to_nat i := replacedWem wem r length]>
                             (wemsOf bnk)
  | Panicked p bnk' =>
      bnk' = bnk ∧
      ((p = NilDereference ∧ bnk_DataSection bnk = None) ∨
       (p = IndexOutOfRange i (List.length (wemsOf bnk)) ∧
        is_Some (bnk_DataSection bnk) ∧
        (i < 0 ∨ Z.of_nat (List.length (wemsOf bnk)) ≤ i)) ∨
       (∃ wem, 0 ≤ i ∧ wemsOf bnk !! Z.to_nat i = Some wem ∧
               Length (Descriptor wem) < length ∧
               p = LargerThanOriginal))
  end.
Proof. apply replaceAt_cases. Qed.

Lemma ReplaceWem_outcomes_witness :
  ReplaceWem exampleFile 1 exampleSource 2
    = Panicked (IndexOutOfRange 1 1) exampleFile.
Proof.
  assert (is_Some (bnk_IndexSection exampleFile)) as Hidx
    by (vm_compute; eauto).
  pose proof (ReplaceWem_outcomes exampleFile 1 exampleSource 2 Hidx) as H.
  destruct (ReplaceWem exampleFile 1 exampleSource 2) as [bnk'|p bnk'] eqn:Hr;
    [vm_compute in Hr; discriminate|].
  destruct H as [-> _].
  vm_compute in Hr. injection Hr as <-. reflexivity.
Defined.

(** X10.  A negative length passes the guard of ReplaceWem, which only
    rejects growth.  The payload reader of the wem is then not a section
    of the source: the subtraction in the guard of io.NewSectionReader
    wraps around and the reader runs from 0 up to maxint64, so that
    copying it yields the whole source file.  The descriptor, and with it
    the record of the index, carries the length converted to uint32, that
    is 2^32 + length. *)
Theorem ReplaceWem_negative_length bnk data idx i wem src length :
  bnk_DataSection bnk = Some data → bnk_IndexSection bnk = Some idx →
  Wems data !! i = Some wem →
  0 ≤ Length (Descriptor wem) →
  - 2 ^ 32 ≤ length < 0 →
  Z.of_nat (List.length src) ≤ MaxInt64 →
  ∃ bnk' wem' idx',
    ReplaceWem bnk (Z.of_nat i) (FileReaderAt src) length = Returned bnk' ∧
    wemsOf bnk' !! i = Some wem' ∧
    Size (Reader wem') = MaxInt64 ∧
    Copy (Reader wem') = Ok (src, Z.of_nat (List.length src)) ∧
    Length (Descriptor wem') = 2 ^ 32 + length ∧
    bnk_IndexSection bnk' = Some idx' ∧
    DescriptorMap idx' !! WemId (Descriptor wem) = Some (Descriptor wem').
Proof.
  intros Hdata Hidx Hwem Hold Hlen Hsrc.
  unfold ReplaceWem.
  rewrite (replaceAt_ok bnk (Z.of_nat i) (FileReaderAt src) length _ data idx
             wem)
    by (rewrite ?Nat2Z.id; done || lia).
  rewrite Nat2Z.id. eexists _, (replacedWem wem (FileReaderAt src) length), _.
  split; [done|]. split.
  { rewrite wemsOf_setDescriptor, wemsOf_setWem.
    apply list_lookup_insert_eq. by eapply lookup_lt_Some. }
  assert (Hmin : MinInt64 ≤ length < 0) by (unfold MinInt64; lia).
  split.
  { cbn [replacedWem Reader]. rewrite NewSectionReader_negative by done.
    unfold Size. cbn [sr_limit sr_base]. lia. }
  split.
  { cbn [replacedWem Reader]. by apply Copy_File_negative. }
  split.
  { cbn [replacedWem Descriptor Length]. unfold wrap32.
    symmetry. apply (Z.mod_unique_pos _ _ (-1)); lia. }
  split; [done|].
  cbn [DescriptorMap replacedWem Descriptor WemId]. apply lookup_insert_eq.
Qed.

Lemma ReplaceWem_negative_length_witness :
  ∃ bnk' wem',
    ReplaceWem exampleFile 0 exampleSource (-1) = Returned bnk' ∧
    wemsOf bnk' !! 0%nat = Some wem' ∧
    Copy (Reader wem') = Ok (["187"; "187"]%byte, 2) ∧
    Length (Descriptor wem') = 4294967295.
Proof.
  destruct (bnk_DataSection exampleFile) as [data|] eqn:Hdata;
    [|vm_compute in Hdata; discriminate].
  destruct (bnk_IndexSection exampleFile) as [idx|] eqn:Hidx;
    [|vm_compute in Hidx; discriminate].
  destruct (Wems data !! 0%nat) as [wem|] eqn:Hwem;
    [|vm_compute in Hdata; injection Hdata as <-;
      vm_compute in Hwem; discriminate].
  destruct (ReplaceWem_negative_length exampleFile data idx 0 wem
              ["187"; "187"]%byte (-1) Hdata Hidx Hwem)
    as (bnk' & wem' & idx' & Hr & Hw & _ & Hc & Hl & _).
  - vm_compute in Hdata. injection Hdata as <-.
    vm_compute in Hwem. injection Hwem as <-. vm_compute. discriminate.
  - lia.
  - vm_compute. discriminate.
  - exists bnk', wem'. split; [exact Hr|]. split; [exact Hw|].
    split; [exact Hc|]. rewrite Hl. reflexivity.
Defined.

(** ** ReplaceWems and ReplaceWem *)

Lemma replaceAt_tooLarge_irrelevant bnk i r length f g :
  fileOf (replaceAt bnk i r length f) = fileOf (replaceAt bnk i r length g) ∧
  (returned (replaceAt bnk i r length f) ↔
   returned (replaceAt bnk i r length g)) ∧
  (returned (replaceAt bnk i r length f) →
   replaceAt bnk i r length f = replaceAt bnk i r length g).
Proof.
  unfold replaceAt.
  destruct (bnk_DataSection bnk) as [data|]; [|done].
  destruct (if i <? 0 then None else Wems data !! Z.to_nat i) as [wem|];
    [|done].
  destruct (Length (Descriptor wem) <? length); [done|].
  by destruct (bnk_IndexSection _).
Qed.

Lemma replaceEach_Panicked p bnk reps :
  foldl (λ e rep,
           match e with
           | Returned bnk =>
               ReplaceWem bnk (rw_WemIndex rep) (rw_Wem rep) (rw_Length rep)
           | Panicked p bnk => Panicked p bnk
           end)
        (Panicked p bnk) reps = Panicked p bnk.
Proof. by induction reps. Qed.

(** X11.  ReplaceWems is ReplaceWem applied to each replacement in turn.
    Both end with the same File, and one returns exactly when the other
    does; only the text of the larger-than-original panic differs. *)
Theorem ReplaceWems_is_ReplaceWem_in_turn bnk reps :
  fileOf (ReplaceWems bnk reps) = fileOf (replaceEach bnk reps) ∧
  (returned (ReplaceWems bnk reps) ↔ returned (replaceEach bnk reps)).
Proof.
  unfold replaceEach. revert bnk.
  induction reps as [|rep reps IH]; intros bnk; [done|].
  cbn [ReplaceWems foldl]. unfold ReplaceWem at 2 4.
  destruct (replaceAt_tooLarge_irrelevant bnk (rw_WemIndex rep) (rw_Wem rep)
              (rw_Length rep)
              (TargetLargerThanOriginal (rw_WemIndex rep) (rw_Length rep))
              (λ _, LargerThanOriginal)) as (Hfile & Hret & Heq).
  destruct (replaceAt bnk _ _ _ (TargetLargerThanOriginal _ _))
    as [bnk1|p bnk1] eqn:Hbatch.
  - rewrite <- Heq by done. apply IH.
  - destruct (replaceAt bnk _ _ _ (λ _, LargerThanOriginal))
      as [bnk2|q bnk2] eqn:Hone.
    + cbn in Hret. tauto.
    + rewrite replaceEach_Panicked. cbn in *. by subst.
Qed.

(** ** The readers of a parsed File *)

Lemma NewFile_switch_parsedOver contents off bnk bnk' sr' :
  8 ≤ off ≤ Z.of_nat (length contents) →
  NewFile_switch bnk (decodeSectionHeader (window contents (off - 8) 8))
    (fileCursor contents off) = Ok (bnk', sr') →
  parsedOver contents bnk → parsedOver contents bnk'.
Proof.
  intros Hoff. pose proof (hdr_Length_decode (window contents (off - 8) 8)).
  set (hdr := decodeSectionHeader _) in *.
  unfold NewFile_switch. intros Hsw (Hb & Hi & Hd & Ho).
  repeat case_decide.
  - destruct (NewBankHeaderSection hdr _) as [[sec sr]| | |] eqn:Hnew;
      try done.
    injection Hsw as <- <-.
    split; [|done]. cbn [bnk_BankHeaderSection]. intros ? [= <-].
    unfold NewBankHeaderSection in Hnew. case_decide; [done|].
    destruct (binaryRead _ _) as [[bs sr1]| | |] eqn:Hread; try done.
    apply binaryRead_fileCursor_inv in Hread as (-> & -> & _);
      [|lia|done].
    cbn [mbind outcome_bind] in Hnew.
    rewrite SeekCurrent_fileCursor in Hnew by (unfold BKHD_SECTION_BYTES; lia).
    pose proof (wrap32_range (hdr_Length hdr - BKHD_SECTION_BYTES)).
    rewrite SeekCurrent_fileCursor in Hnew
      by (unfold BKHD_SECTION_BYTES in *; lia).
    injection Hnew as <- _. cbn [bkhd_RemainingReader].
    eexists _, _. split; [|done]. unfold BKHD_SECTION_BYTES. lia.
  - destruct (NewDataIndexSection hdr _) as [[sec sr]| | |] eqn:Hnew;
      try done.
    injection Hsw as <- <-.
    split; [done|]. split; [|done]. cbn [bnk_IndexSection]. intros ? [= <-].
    by eapply NewDataIndexSection_indexConsistent.
  - destruct (bnk_IndexSection bnk) as [idx|] eqn:Hidx;
      [|by rewrite NewDataSection_nil in Hsw].
    rewrite NewDataSection_fileCursor in Hsw by (done || lia).
    injection Hsw as <- <-.
    split; [done|]. split; [done|]. split; [|done].
    cbn [bnk_DataSection]. intros ? [= <-].
    exists idx, off. split; [by apply Hi|]. split; [done|].
    split; [done|]. split; [done|].
    cbn [Wems data_Header]. apply imap_newWem.
  - rewrite NewUnknownSection_fileCursor in Hsw by lia.
    injection Hsw as <- <-.
    split; [done|]. split; [done|]. split; [done|]. cbn [Others].
    apply Forall_app. split; [done|]. apply Forall_singleton.
    eexists _, _. split; [|done]. lia.
Qed.

Lemma NewFile_loop_parsedOver contents fuel : ∀ off bnk bnk',
  0 ≤ off →
  NewFile_loop fuel bnk (fileCursor contents off) = Ok bnk' →
  parsedOver contents bnk → parsedOver contents bnk'.
Proof.
  induction fuel as [|fuel IH]; intros off bnk bnk' Hoff; [done|].
  cbn [NewFile_loop].
  pose proof (NewFile_body_cursor contents off bnk Hoff) as Hcur.
  destruct (decide (off + 8 ≤ Z.of_nat (length contents)
                    ∧ off + 8 ≤ MaxInt64)) as [[? ?]|Hno].
  - rewrite NewFile_body_header in * by done.
    destruct (NewFile_switch _ _ _) as [[bnk1 sr1]| | |] eqn:Hsw; try done.
    cbn [mbind outcome_bind] in *.
    destruct Hcur as (off' & -> & ? & _). intros Hloop Hover.
    apply (IH off' bnk1 bnk' ltac:(lia) Hloop).
    apply (NewFile_switch_parsedOver contents (off + 8) bnk bnk1
             (fileCursor contents off')); [lia| |done].
    by replace (off + 8 - 8) with off by lia.
  - rewrite NewFile_body_end by done. case_decide; [done|].
    cbn [mbind outcome_bind]. by intros [= <-].
Qed.

Lemma NewFile_parsedOver contents bnk :
  NewFile contents = Ok bnk → parsedOver contents bnk.
Proof.
  unfold NewFile. rewrite fileReader_cursor.
  destruct (NewFile_loop _ _ _) as [bnk1| | |] eqn:Hloop; try done.
  cbn [mbind outcome_bind]. destruct (bnk_DataSection bnk1); [|done].
  intros [= <-].
  apply (NewFile_loop_parsedOver _ _ _ _ _ ltac:(done) Hloop).
  by repeat split.
Qed.

(** io.Copy of a window of the input cannot fail. *)
Lemma Copy_viewOver contents s :
  viewOver contents s →
  ∃ bs, Copy s = Ok (bs, Z.of_nat (length bs)).
Proof.
  intros (off & n & Hoff & ->). unfold Copy, NewSectionReader.
  pose proof (wrap64_range (n + off)) as [_ Hlimit].
  destruct (Z.leb_spec off (wrap64 (MaxInt64 - n))); cbn [sr_limit sr_off];
    rewrite copyLoop_fileView by lia; cbn [app]; eauto.
Qed.

Lemma descriptorOf_range idx id :
  indexConsistent idx →
  0 ≤ Offset (descriptorOf (DescriptorMap idx) id) < 2 ^ 32 ∧
  0 ≤ Length (descriptorOf (DescriptorMap idx) id) < 2 ^ 32.
Proof.
  intros (_ & _ & Hdesc). unfold descriptorOf.
  destruct (DescriptorMap idx !! id) as [d|] eqn:Hd; cbn; [|lia].
  by apply Hdesc in Hd as (_ & ? & ?).
Qed.

Lemma viewOver_wemsFrom contents hdr dataOffset descOf ids :
  0 ≤ dataOffset →
  (∀ id, 0 ≤ Offset (descOf id) ∧ 0 ≤ Length (descOf id)) →
  Forall (λ wem, viewOver contents (Reader wem) ∧
                 ∃ rem, RemainingReader wem = Some rem ∧
                        viewOver contents rem)
         (wemsFrom hdr (fileView contents) dataOffset descOf ids).
Proof.
  intros Hoff Hdesc. induction ids as [|id rest IH]; [constructor|].
  rewrite wemsFrom_cons. cbv zeta. constructor; [|done].
  pose proof (Hdesc id). cbn [Reader RemainingReader]. split.
  - eexists _, _. split; [|done]. lia.
  - eexists. split; [done|]. eexists _, _. split; [|done]. lia.
Qed.

Lemma DataSection_WriteTo_loop_views contents wems : ∀ out written,
  Forall (λ wem, viewOver contents (Reader wem) ∧
                 ∃ rem, RemainingReader wem = Some rem ∧
                        viewOver contents rem) wems →
  ∃ res, DataSection_WriteTo_loop wems out written = Ok res.
Proof.
  induction wems as [|wem wems IH]; intros out written Hall;
    cbn [DataSection_WriteTo_loop]; [by eauto|].
  apply Forall_cons in Hall as [(Hr & rem & -> & Hrem) Hall].
  apply Copy_viewOver in Hr as [bs ->].
  apply Copy_viewOver in Hrem as [ps ->]. cbn [mbind outcome_bind].
  by apply IH.
Qed.

Lemma File_WriteTo_others_views contents others : ∀ out written,
  Forall (λ other, viewOver contents (unk_Reader other)) others →
  ∃ res, File_WriteTo_others others out written = Ok res.
Proof.
  induction others as [|other others IH]; intros out written Hall;
    cbn [File_WriteTo_others]; [by eauto|].
  apply Forall_cons in Hall as [Hr Hall]. unfold UnknownSection_WriteTo.
  apply Copy_viewOver in Hr as [bs ->]. cbn [mbind outcome_bind].
  by apply IH.
Qed.

Lemma NewFile_Ok_sections contents bnk :
  NewFile contents = Ok bnk →
  is_Some (bnk_IndexSection bnk) ∧ is_Some (bnk_DataSection bnk).
Proof.
  unfold NewFile. rewrite fileReader_cursor.
  pose proof (NewFile_loop_failures contents (S (length contents)) 0 newFile
                ltac:(done)) as Hloop.
  destruct (NewFile_loop _ _ _) as [bnk1| | |]; try done.
  cbn [mbind outcome_bind].
  destruct (bnk_DataSection bnk1) as [data|] eqn:Hdata; [|done].
  intros [= <-]. rewrite Hdata. split; [|done].
  unfold indexBeforeData in Hloop. rewrite Hdata in Hloop.
  apply Hloop; [|done]. by intros [? [=]].
Qed.

(** X12.  File.WriteTo on a File that NewFile has returned.  The readers of
    such a File are windows of the input, and copying them cannot fail:
    WriteTo returns without error, with the number of bytes written, when
    the File has a BKHD section, and panics with a nil dereference when it
    has none.  It never returns an error. *)
Theorem parsed_File_WriteTo contents bnk :
  NewFile contents = Ok bnk →
  match File_WriteTo bnk with
  | Ok (out, n) =>
      is_Some (bnk_BankHeaderSection bnk) ∧ n = Z.of_nat (length out)
  | Panic p => p = NilDereference ∧ bnk_BankHeaderSection bnk = None
  | Err _ => False
  | Diverged => False
  end.
Proof.
  intros Hnew.
  destruct (NewFile_Ok_sections contents bnk Hnew) as [[idx Hidx] [data Hdata]].
  destruct (NewFile_parsedOver contents bnk Hnew) as (Hb & Hi & Hd & Ho).
  pose proof (File_WriteTo_count bnk) as Hcount.
  unfold File_WriteTo in *.
  destruct (bnk_BankHeaderSection bnk) as [sec|]; [|done].
  unfold BankHeaderSection_WriteTo in *.
  destruct (Copy_viewOver contents _ (Hb sec eq_refl)) as [bs Hcopy].
  rewrite Hcopy in *. cbn [mbind outcome_bind] in *.
  rewrite Hidx, DataIndexSection_WriteTo_eq in *.
  cbn [mbind outcome_bind] in *. rewrite Hdata in *.
  destruct (Hd data eq_refl) as (idx0 & dataOffset & Hcons & Hoff & _ & _ & Hw).
  unfold DataSection_WriteTo in *.
  edestruct (DataSection_WriteTo_loop_views contents (Wems data))
    as [[bd m] Hloop].
  { rewrite Hw. apply viewOver_wemsFrom; [lia|].
    intros id. pose proof (descriptorOf_range idx0 id Hcons). lia. }
  rewrite Hloop in *. cbn [mbind outcome_bind] in *.
  edestruct (File_WriteTo_others_views contents (Others bnk))
    as [[res n] Hothers]; [done|].
  rewrite Hothers in *. split; [by eauto|]. by apply Hcount.
Qed.

Lemma parsed_File_WriteTo_witness :
  ∃ out, File_WriteTo twoWemFile = Ok (out, 64).
Proof.
  pose proof (parsed_File_WriteTo twoWemBank twoWemFile NewFile_twoWemBank)
    as H.
  destruct (File_WriteTo twoWemFile) as [[out n]| | |] eqn:Hw;
    [|vm_compute in Hw; discriminate..].
  exists out. destruct H as [_ ->].
  vm_compute in Hw. injection Hw as <- _. reflexivity.
Defined.

(** ** The bytes of a replaced wem *)

Lemma DataSection_WriteTo_loop_cons wem wems out written :
  DataSection_WriteTo_loop (wem :: wems) out written =
    (bs ← wemBytes wem;
     DataSection_WriteTo_loop wems (out ++ bs)
       (written + Z.of_nat (length bs))).
Proof.
  cbn [DataSection_WriteTo_loop]. unfold wemBytes.
  destruct (Copy (Reader wem)) as [[bs n]| | |] eqn:Hcopy; try done.
  apply Copy_count in Hcopy as ->. cbn [mbind outcome_bind].
  destruct (RemainingReader wem) as [rem|]; [|done].
  destruct (Copy rem) as [[ps m]| | |] eqn:Hrem; try done.
  apply Copy_count in Hrem as ->. cbn [mbind outcome_bind].
  rewrite length_app, app_assoc. f_equal. lia.
Qed.

Lemma DataSection_WriteTo_loop_spans wems : ∀ spans out written,
  Forall2 (λ wem bs, wemBytes wem = Ok bs) wems spans →
  DataSection_WriteTo_loop wems out written =
    Ok (out ++ concat spans, written + Z.of_nat (length (concat spans))).
Proof.
  induction wems as [|wem wems IH]; intros spans out written Hall.
  - apply Forall2_nil_inv_l in Hall as ->. cbn.
    by rewrite app_nil_r, Z.add_0_r.
  - apply Forall2_cons_inv_l in Hall as (bs & spans' & Hbs & Hall & ->).
    rewrite DataSection_WriteTo_loop_cons, Hbs. cbn [mbind outcome_bind].
    rewrite (IH spans') by done. cbn [concat].
    rewrite length_app, app_assoc. do 2 f_equal. lia.
Qed.

Lemma wemBytes_replaced wem src length :
  0 ≤ length ≤ MaxInt64 →
  0 ≤ Length (Descriptor wem) - length + RemainingLength wem ≤ MaxInt64 →
  wemBytes (replacedWem wem (FileReaderAt src) length) =
    Ok (take (Z.to_nat length) src
        ++ replicate
             (Z.to_nat (Length (Descriptor wem) - length
                        + RemainingLength wem)) "000"%byte).
Proof.
  intros Hlen Hpad. unfold wemBytes, replacedWem.
  cbn [Reader RemainingReader].
  rewrite Copy_File by done. cbn [mbind outcome_bind].
  by rewrite Copy_Infinite by done.
Qed.

(** X13.  The bytes that DataSection.WriteTo writes after a replacement.
    Let [spans] be the bytes that the loop of WriteTo writes for each wem,
    payload and padding.  Before the call WriteTo writes the header and the
    spans in order.  After ReplaceWem has replaced wem [i] by [length]
    bytes of the file [src], with neither [length] nor the padding
    Length - length + RemainingLength negative, WriteTo writes the same
    header and the same spans, but for span [i], which is now the first
    [length] bytes of [src] followed by the zero bytes of the padding.
    When [src] holds [length] bytes, the new span has
    Length + RemainingLength bytes. *)
Theorem ReplaceWem_bytes bnk data i wem src length bnk' spans :
  bnk_DataSection bnk = Some data →
  Wems data !! i = Some wem →
  Forall2 (λ wem bs, wemBytes wem = Ok bs) (Wems data) spans →
  ReplaceWem bnk (Z.of_nat i) (FileReaderAt src) length = Returned bnk' →
  0 ≤ length ≤ MaxInt64 →
  let padding := Length (Descriptor wem) - length + RemainingLength wem in
  let span :=
    take (Z.to_nat length) src ++ replicate (Z.to_nat padding) "000"%byte in
  0 ≤ padding ≤ MaxInt64 →
  DataSection_WriteTo data =
    Ok (encodeSectionHeader (data_Header data) ++ concat spans,
        SECTION_HEADER_BYTES + Z.of_nat (List.length (concat spans))) ∧
  (∃ data',
     bnk_DataSection bnk' = Some data' ∧
     DataSection_WriteTo data' =
       Ok (encodeSectionHeader (data_Header data)
             ++ concat (<[i := span]> spans),
           SECTION_HEADER_BYTES
             + Z.of_nat (List.length (concat (<[i := span]> spans))))) ∧
  (length ≤ Z.of_nat (List.length src) →
   Z.of_nat (List.length span) =
     Length (Descriptor wem) + RemainingLength wem).
Proof.
  intros Hdata Hwem Hspans Hret Hlen padding span Hpad.
  split; [by apply DataSection_WriteTo_loop_spans|]. split.
  - apply replaceAt_Returned_inv in Hret
      as (data0 & idx & wem0 & Hdata0 & Hidx & _ & Hwem0 & _ & ->).
    rewrite Nat2Z.id in *. simplify_eq.
    eexists. split; [done|]. unfold DataSection_WriteTo.
    cbn [Wems data_Header]. apply DataSection_WriteTo_loop_spans.
    apply Forall2_insert; [done|]. by apply wemBytes_replaced.
  - intros Hsrc. unfold span.
    rewrite length_app, length_take, length_replicate. unfold padding in *.
    lia.
Qed.

Lemma ReplaceWem_bytes_witness :
  ∃ bnk' data',
    ReplaceWem twoWemFile 0 exampleSource 2 = Returned bnk' ∧
    bnk_DataSection bnk' = Some data' ∧
    DataSection_WriteTo data' =
      Ok (sectionHeaderBytes dataHeaderId 8
          ++ ["187"; "187"; "000"; "000"; "004"; "005"; "000"; "000"]%byte,
          16).
Proof.
  destruct (bnk_DataSection twoWemFile) as [data|] eqn:Hdata;
    [|vm_compute in Hdata; discriminate].
  destruct (Wems data !! 0%nat) as [wem|] eqn:Hwem;
    [|vm_compute in Hdata; injection Hdata as <-;
      vm_compute in Hwem; discriminate].
  destruct (ReplaceWem twoWemFile 0 exampleSource 2) as [bnk'|] eqn:Hret;
    [|vm_compute in Hret; discriminate].
  destruct (ReplaceWem_bytes twoWemFile data 0 wem ["187"; "187"]%byte 2 bnk'
              [["001"; "002"; "003"; "000"]; ["004"; "005"; "000"; "000"]]%byte
              Hdata Hwem)
    as (_ & (data' & Hdata' & Hw) & _).
  - vm_compute in Hdata. injection Hdata as <-.
    repeat constructor; vm_compute; reflexivity.
  - exact Hret.
  - vm_compute. split; discriminate.
  - vm_compute in Hdata. injection Hdata as <-.
    vm_compute in Hwem. injection Hwem as <-. vm_compute.
    split; discriminate.
  - exists bnk', data'. split; [done|]. split; [exact Hdata'|].
    rewrite Hw. vm_compute in Hdata. injection Hdata as <-.
    vm_compute in Hwem. injection Hwem as <-. vm_compute. reflexivity.
Defined.

(** ** Open and Close *)

Lemma openFds_after_close (n : nat) (fds : gset nat) :
  n ∉ fds → ({[n]} ∪ fds) ∖ {[n]} = fds.
Proof.
  intros Hn.
  rewrite difference_union_distr_l_L, difference_diag_L, union_empty_l_L.
  apply difference_disjoint_L. by apply disjoint_singleton_r.
Qed.

Lemma openFds_after_open (n : nat) (fds : gset nat) : n ∈ {[n]} ∪ fds.
Proof. apply elem_of_union_l. by apply elem_of_singleton. Qed.

Lemma File_eta bnk :
  closer bnk = None →
  mkFile None (bnk_BankHeaderSection bnk) (bnk_IndexSection bnk)
    (bnk_DataSection bnk) (Others bnk) = bnk.
Proof. destruct bnk. cbn. by intros ->. Qed.

(** X14.  What Open leaves behind, in a world whose next descriptor is not
    in use.  When the path does not exist, the error of os.Open is returned
    and the world is untouched.  When NewFile returns an error, Open
    returns that error after closing the file: no descriptor stays open.
    When NewFile returns a File, Open returns it with the open file as its
    closer, and that descriptor is the only new one.  A panic of NewFile
    goes through Open with the descriptor still open. *)
Theorem Open_outcomes path w :
  nextFd w ∉ openFds w →
  match Open path w with
  | (Ok bnk, w') =>
      ∃ contents bnk0,
        files w !! path = Some contents ∧ NewFile contents = Ok bnk0 ∧
        bnk = mkFile (Some (mkCloser (nextFd w))) (bnk_BankHeaderSection bnk0)
                (bnk_IndexSection bnk0) (bnk_DataSection bnk0) (Others bnk0) ∧
        openFds w' = {[nextFd w]} ∪ openFds w ∧ files w' = files w
  | (Err e, w') =>
      openFds w' = openFds w ∧ files w' = files w ∧
      ((e = ErrNotExist ∧ files w !! path = None ∧ w' = w) ∨
       (∃ contents, files w !! path = Some contents ∧
                    NewFile contents = Err e))
  | (Panic p, w') =>
      ∃ contents, files w !! path = Some contents ∧
                  NewFile contents = Panic p ∧ nextFd w ∈ openFds w'
  | (Diverged, _) => False
  end.
Proof.
  intros Hfresh. unfold Open, os_Open.
  destruct (files w !! path) as [contents|] eqn:Hfile;
    [|cbv beta iota; tauto].
  pose proof (NewFile_terminates contents) as Hterm.
  destruct (NewFile contents) as [bnk0|e|p|] eqn:Hnew; [| | |done].
  - cbv beta iota. by exists contents, bnk0.
  - unfold os_Close. cbn [fd openFds files nextFd].
    rewrite decide_True by apply openFds_after_open.
    cbv beta iota. cbn [openFds files].
    split; [by apply openFds_after_close|]. split; [done|]. right. by eauto.
  - cbv beta iota. exists contents. cbn [openFds].
    split; [done|]. split; [done|]. apply openFds_after_open.
Qed.

Lemma Open_outcomes_witness :
  ∃ bnk w',
    Open "example.bnk" exampleWorld = (Ok bnk, w') ∧
    closer bnk = Some (mkCloser 3) ∧ openFds w' = {[3%nat]}.
Proof.
  pose proof (Open_outcomes "example.bnk" exampleWorld) as H.
  destruct (Open "example.bnk" exampleWorld) as [[bnk| | |] w'] eqn:Hopen;
    [|vm_compute in Hopen; discriminate..].
  destruct H as (contents & bnk0 & _ & _ & -> & Hfds & _).
  - apply not_elem_of_empty.
  - do 2 eexists. split; [reflexivity|]. split; [reflexivity|].
    rewrite Hfds. vm_compute. reflexivity.
Defined.

(** X15.  Open followed by Close.  Close on the File that Open has returned
    closes the descriptor without error: the descriptors that are open are
    the ones that were open before Open, and the File that Close leaves is
    the File that NewFile returns on the contents of the path. *)
Theorem Open_then_Close path w bnk w1 :
  nextFd w ∉ openFds w →
  Open path w = (Ok bnk, w1) →
  ∃ contents bnk0 w2,
    files w !! path = Some contents ∧ NewFile contents = Ok bnk0 ∧
    Close bnk w1 = (None, bnk0, w2) ∧
    openFds w2 = openFds w ∧ files w2 = files w.
Proof.
  intros Hfresh. unfold Open, os_Open.
  destruct (files w !! path) as [contents|] eqn:Hfile; [|done].
  destruct (NewFile contents) as [bnk0|e|p|] eqn:Hnew; try done.
  - intros [= <- <-]. exists contents, bnk0. eexists.
    split; [done|]. split; [done|].
    unfold Close, os_Close.
    cbn [closer fd openFds files nextFd bnk_BankHeaderSection
         bnk_IndexSection bnk_DataSection Others].
    rewrite decide_True by apply openFds_after_open.
    rewrite File_eta by (by eapply NewFile_closer).
    split; [done|]. cbn [openFds files].
    split; [by apply openFds_after_close|done].
  - by destruct (os_Close _ _).
Qed.

Lemma Open_then_Close_witness :
  ∃ bnk w1,
    Open "example.bnk" exampleWorld = (Ok bnk, w1) ∧
    ∃ w2, Close bnk w1 = (None, exampleFile, w2) ∧ openFds w2 = ∅.
Proof.
  destruct (Open "example.bnk" exampleWorld) as [[bnk| | |] w1] eqn:Hopen;
    [|vm_compute in Hopen; discriminate..].
  exists bnk, w1. split; [done|].
  destruct (Open_then_Close "example.bnk" exampleWorld bnk w1)
    as (contents & bnk0 & w2 & Hfile & Hnew & Hclose & Hfds & _).
  - apply not_elem_of_empty.
  - exact Hopen.
  - exists w2. rewrite Hclose, Hfds. split; [|done].
    vm_compute in Hfile. injection Hfile as <-.
    change (NewFile exampleBank = Ok bnk0) in Hnew.
    rewrite NewFile_exampleBank in Hnew. by injection Hnew as <-.
Defined.

(** ** The command *)

Lemma verifyFlags_None fl :
  Main.verifyFlags fl = None ↔
    xorb (Main.shouldUnpack fl) (Main.shouldRepack fl) = true ∧
    Main.bnkPath fl ≠ "" ∧ Main.output fl ≠ "".
Proof.
  destruct fl as [u r b o t]. unfold Main.verifyFlags.
  cbn [Main.shouldUnpack Main.shouldRepack Main.bnkPath Main.output].
  destruct u, r; cbn [orb andb negb xorb]; cbv zeta;
    try (rewrite decide_True by done; split; [done|by intros []]).
  - destruct (decide (b = "")) as [->|Hb].
    { rewrite decide_True by done. split; [done|by intros (_ & ? & _)]. }
    destruct (decide (o = "")) as [->|Ho].
    { rewrite decide_True by done. split; [done|by intros (_ & _ & ?)]. }
    by rewrite decide_False by (by intros []).
  - destruct (decide (b = "")) as [->|Hb].
    { rewrite decide_True by done. split; [done|by intros (_ & ? & _)]. }
    destruct (decide (o = "")) as [->|Ho].
    { rewrite decide_True by done. split; [done|by intros (_ & _ & ?)]. }
    by rewrite decide_False by (by intros []).
Qed.

Lemma verifyRepackFlags_None fl :
  Main.verifyRepackFlags fl = None ↔ Main.targetPath fl ≠ "".
Proof.
  unfold Main.verifyRepackFlags. cbv zeta.
  destruct (decide (Main.targetPath fl = "")) as [->|Ht].
  - by rewrite decide_True by done.
  - by rewrite decide_False by (by intros []).
Qed.

(** X16.  What main does with the flags.  It runs unpack exactly when
    -unpack is set, -repack is not, and -bnkpath and -output are not empty;
    the -target flag plays no part.  It runs repack exactly when -repack is
    set, -unpack is not, and -bnkpath, -output and -target are not empty.
    In every other case it ends through log.Fatal: the switch of main
    always finds a case. *)
Theorem main_dispatch fl :
  (Main.main fl = Main.Unpack ↔
     Main.shouldUnpack fl = true ∧ Main.shouldRepack fl = false ∧
     Main.bnkPath fl ≠ "" ∧ Main.output fl ≠ "") ∧
  (Main.main fl = Main.Repack ↔
     Main.shouldUnpack fl = false ∧ Main.shouldRepack fl = true ∧
     Main.bnkPath fl ≠ "" ∧ Main.output fl ≠ "" ∧
     Main.targetPath fl ≠ "") ∧
  Main.main fl ≠ Main.Return.
Proof.
  pose proof (verifyFlags_None fl) as Hv.
  pose proof (verifyRepackFlags_None fl) as Ht.
  unfold Main.main.
  destruct (Main.verifyFlags fl) as [err|].
  { repeat split; try done.
    - intros (Hu & Hr & ? & ?). rewrite Hu, Hr in Hv.
      assert (Some err = None) by (by apply Hv). done.
    - intros (Hu & Hr & ? & ? & ?). rewrite Hu, Hr in Hv.
      assert (Some err = None) by (by apply Hv). done. }
  destruct (proj1 Hv eq_refl) as (Hx & Hb & Ho).
  destruct (Main.shouldUnpack fl), (Main.shouldRepack fl); try done.
  - split; [split; [by intros _; repeat split|done]|].
    split; [|done]. split; [done|by intros (? & _)].
  - destruct (Main.verifyRepackFlags fl) as [err|].
    + split; [split; [done|by intros (? & _)]|]. split; [|done].
      split; [done|]. intros (_ & _ & _ & _ & ?).
      assert (Some err = None) by (by apply Ht). done.
    + split; [split; [done|by intros (? & _)]|]. split; [|done].
      split; [|done]. intros _. repeat split; try done. by apply Ht.
Qed.

(** *** The names of the wem files *)

Lemma pretty_N_go_leading x : ∀ s,
  (0 < x)%N →
  ∃ c s', pretty_N_go x s = String c s' ∧ c ≠ "0"%char.
Proof.
  induction (N.lt_wf_0 x) as [x _ IH]. intros s Hx.
  rewrite pretty_N_go_step by done.
  destruct (decide (x < 10)%N) as [Hsmall|Hbig].
  - rewrite N.div_small, N.mod_small, pretty_N_go_0 by done.
    eexists _, _. split; [done|]. intros Hdigit.
    assert (x = 0)%N by (apply pretty_N_char_inj; [done|lia|exact Hdigit]).
    lia.
  - apply IH.
    + apply N.div_lt; lia.
    + apply N.div_str_pos. lia.
Qed.

Lemma pretty_nat_leading n :
  (0 < n)%nat → ∃ c s', pretty n = String c s' ∧ c ≠ "0"%char.
Proof.
  intros Hn. unfold pretty, pretty_nat, pretty, pretty_N.
  rewrite decide_False by lia. apply pretty_N_go_leading. lia.
Qed.

Lemma zeros_app_inj k1 : ∀ k2 c1 s1 c2 s2,
  c1 ≠ "0"%char → c2 ≠ "0"%char →
  Main.zeros k1 +:+ String c1 s1 = Main.zeros k2 +:+ String c2 s2 →
  String c1 s1 = String c2 s2.
Proof.
  induction k1 as [|k1 IH]; intros [|k2] c1 s1 c2 s2 H1 H2; cbn; try done.
  - by intros [= -> _].
  - by intros [= <- _].
  - intros [= H]. by eapply IH.
Qed.

Lemma length_append (s1 s2 : string) :
  String.length (s1 +:+ s2) = (String.length s1 + String.length s2)%nat.
Proof. induction s1 as [|c s1 IH]; simpl; [done|by f_equal]. Qed.

Lemma append_inj_r (t s1 : string) : ∀ s2, s1 +:+ t = s2 +:+ t → s1 = s2.
Proof.
  induction s1 as [|c s1 IH]; intros [|c2 s2]; cbn; try done.
  - intros H. apply (f_equal String.length) in H.
    rewrite !length_append in H. simpl in H. lia.
  - intros H. apply (f_equal String.length) in H.
    rewrite !length_append in H. simpl in H. lia.
  - intros [= -> H]. f_equal. by apply IH.
Qed.

Lemma Sprintf03d_inj n m :
  (0 < n)%nat → (0 < m)%nat →
  Main.Sprintf03d n = Main.Sprintf03d m → n = m.
Proof.
  intros Hn Hm. unfold Main.Sprintf03d. cbv zeta.
  destruct (pretty_nat_leading n Hn) as (c1 & s1 & Hp1 & H1).
  destruct (pretty_nat_leading m Hm) as (c2 & s2 & Hp2 & H2).
  rewrite Hp1, Hp2. intros H. apply zeros_app_inj in H; [|done..].
  apply (inj pretty). by rewrite Hp1, Hp2.
Qed.

(** X17.  The names of the wem files.  The name that unpack gives to the
    wem at index i, "%03d.wem" of i + 1, determines i: no two wems of a
    bank are written to the same file, also beyond 999 wems, where the name
    grows longer.  The file "075.wem" that repack reads is the name that
    unpack gives to the wem at index 74, which is the index that repack
    replaces. *)
Theorem wem_file_names :
  (∀ i j, Main.wemFilename i = Main.wemFilename j → i = j) ∧
  Main.wemFilename (Z.to_nat Main.repackWemIndex) = Main.repackTargetName.
Proof.
  split; [|by vm_compute].
  intros i j H. unfold Main.wemFilename in H.
  apply append_inj_r, Sprintf03d_inj in H; lia.
Qed.

Lemma wem_file_names_witness :
  Main.wemFilename 1233 = "1234.wem" ∧ 1233%nat = 1233%nat.
Proof.
  split; [vm_compute; reflexivity|].
  apply (proj1 wem_file_names 1233%nat 1233%nat). reflexivity.
Defined.

(** ** The wems of a parsed File *)

Lemma length_wemsFrom hdr view dataOffset descOf ids :
  length (wemsFrom hdr view dataOffset descOf ids) = length ids.
Proof.
  induction ids as [|id rest IH]; [done|].
  rewrite wemsFrom_cons. cbn [length]. by rewrite IH.
Qed.

Lemma wemsFrom_lookup hdr view dataOffset descOf ids : ∀ j wem,
  wemsFrom hdr view dataOffset descOf ids !! j = Some wem →
  ∃ id next,
    ids !! j = Some id ∧
    (next = hdr_Length hdr ∨ ∃ id', next = Offset (descOf id')) ∧
    Descriptor wem = descOf id ∧
    Reader wem =
      NewSectionReader view (dataOffset + Offset (descOf id))
        (Length (descOf id)) ∧
    RemainingLength wem = next - (Offset (descOf id) + Length (descOf id)) ∧
    RemainingReader wem =
      Some (NewSectionReader view
              (dataOffset + Offset (descOf id) + Length (descOf id))
              (RemainingLength wem)).
Proof.
  induction ids as [|id rest IH]; intros j wem; [done|].
  rewrite wemsFrom_cons. cbv zeta. destruct j as [|j]; [|by apply IH].
  cbn [lookup list_lookup]. intros [= <-]. cbn [Descriptor Reader
    RemainingLength RemainingReader].
  destruct rest as [|id' rest].
  - exists id, (hdr_Length hdr). split; [done|]. split; [by left|].
    split; [done|]. split; [done|]. split; [lia|]. do 2 f_equal.
  - exists id, (Offset (descOf id')). split; [done|]. split; [by eauto|].
    split; [done|]. split; [done|]. split; [lia|]. do 2 f_equal.
Qed.

(** X18.  The wems of a File that NewFile has returned on an input of less
    than 4 GiB.  There are as many wems as the index that was current at
    the DATA section has ids, in the order of WemIds, each with the
    descriptor of its id and with a padding reader.  Copying the reader of
    a wem yields the bytes of the input from DataStart + Offset on, Length
    of them or as many as the input holds; when the padding is not
    negative, an iteration of DataSection.WriteTo writes the
    Length + RemainingLength bytes from that position on. *)
Theorem parsed_wems contents bnk data :
  NewFile contents = Ok bnk →
  bnk_DataSection bnk = Some data →
  Z.of_nat (length contents) < 2 ^ 32 →
  ∃ idx,
    indexConsistent idx ∧
    length (Wems data) = length (WemIds idx) ∧
    ∀ j wem, Wems data !! j = Some wem →
      let start := DataStart data + Offset (Descriptor wem) in
      (∃ id, WemIds idx !! j = Some id ∧
             Descriptor wem = descriptorOf (DescriptorMap idx) id) ∧
      Copy (Reader wem) =
        Ok (window contents start (Length (Descriptor wem)),
            Z.of_nat
              (length (window contents start (Length (Descriptor wem))))) ∧
      is_Some (RemainingReader wem) ∧
      (0 ≤ RemainingLength wem →
       wemBytes wem =
         Ok (window contents start
               (Length (Descriptor wem) + RemainingLength wem))).
Proof.
  intros Hnew Hdata Hsmall.
  destruct (NewFile_parsedOver contents bnk Hnew) as (_ & _ & Hd & _).
  destruct (Hd data Hdata)
    as (idx & dataOffset & Hcons & Hoff & Hhdr & Hstart & Hwems).
  exists idx. split; [done|]. rewrite Hwems, length_wemsFrom.
  split; [done|]. intros j wem Hwem start.
  apply wemsFrom_lookup in Hwem
    as (id & next & Hid & Hnext & Hdesc & Hreader & Hrl & Hrem).
  assert (start = dataOffset + Offset (Descriptor wem)) as ->.
  { unfold start. rewrite Hstart, wrap32_small; [done|lia]. }
  pose proof (descriptorOf_range idx id Hcons) as [Ho Hl].
  assert (0 ≤ next < 2 ^ 32) as Hn.
  { destruct Hnext as [->|[id' ->]].
    - rewrite Hhdr. apply hdr_Length_decode.
    - apply (descriptorOf_range idx id' Hcons). }
  rewrite Hdesc. split; [by eauto|]. split.
  { rewrite Hreader. apply Copy_fileView; unfold MaxInt64; lia. }
  split; [by rewrite Hrem|]. intros Hpos.
  unfold wemBytes. rewrite Hreader, Hrem.
  rewrite Copy_fileView by (unfold MaxInt64; lia). cbn [mbind outcome_bind].
  rewrite Copy_fileView by (unfold MaxInt64; lia). cbn [mbind outcome_bind].
  by rewrite <- window_split by lia.
Qed.

Lemma parsed_wems_witness :
  ∃ data wem,
    bnk_DataSection twoWemFile = Some data ∧
    Wems data !! 1%nat = Some wem ∧
    Copy (Reader wem) = Ok (["004"; "005"]%byte, 2) ∧
    wemBytes wem = Ok ["004"; "005"; "000"; "000"]%byte.
Proof.
  destruct (bnk_DataSection twoWemFile) as [data|] eqn:Hdata;
    [|vm_compute in Hdata; discriminate].
  destruct (Wems data !! 1%nat) as [wem|] eqn:Hwem;
    [|vm_compute in Hdata; injection Hdata as <-;
      vm_compute in Hwem; discriminate].
  exists data, wem. split; [done|]. split; [done|].
  destruct (parsed_wems twoWemBank twoWemFile data NewFile_twoWemBank Hdata)
    as (idx & _ & _ & Hall); [vm_compute; reflexivity|].
  destruct (Hall 1%nat wem Hwem) as (_ & Hcopy & _ & Hbytes).
  vm_compute in Hdata. injection Hdata as <-.
  vm_compute in Hwem. injection Hwem as <-.
  split.
  - rewrite Hcopy. vm_compute. reflexivity.
  - rewrite Hbytes; [vm_compute; reflexivity|]. vm_compute. discriminate.
Defined.

(** ** Parsing what WriteTo has written *)

Lemma roundtrip_chunks cs cb ci cd :
  filter isBankHeader cs = [cb] →
  filter isIndexOrData cs = [ci; cd] →
  tag ci = didxHeaderId → tag cd = dataHeaderId →
  Forall (λ c, Z.of_nat (length (payload c)) < 2 ^ 32) cs →
  8 ≤ Z.of_nat (length (payload cb)) →
  Z.of_nat (length (payload ci)) mod 12 = 0 →
  NoDup (WemId <$> recordsOf (payload ci)) →
  covers (recordsOf (payload ci)) (payload cd) →
  Z.of_nat (length (encodeChunks cs)) ≤ MaxInt64 →
  ∃ bnk,
    NewFile (encodeChunks cs) = Ok bnk ∧
    let out := encodeChunk cb ++ encodeChunk ci ++ encodeChunk cd
               ++ encodeChunks (filter isUnknown cs) in
    File_WriteTo bnk = Ok (out, Z.of_nat (length out)).
Proof.
  intros Hbank Horder Hci Hcd H32 Hcb8 Hmod Hnd Hcov Hmax.
  destruct (parse_chunks cs cb ci cd Hbank Horder Hci Hcd H32 Hcb8 Hmod Hnd
              Hcov Hmax cs [] newFile (S (length (encodeChunks cs))))
    as (bnk & Hloop & _ & Hb & Hi & Hd & Ho).
  { done. }
  { repeat split; try by constructor.
    intros out written. cbn. by rewrite app_nil_r, Z.add_0_r. }
  { pose proof (length_encodeChunks_ge cs). lia. }
  assert (Hcb : cb ∈ cs ∧ isBankHeader cb).
  { assert (cb ∈ filter isBankHeader cs) as Hc
      by (rewrite Hbank; apply list_elem_of_here).
    by apply list_elem_of_filter in Hc as [? ?]. }
  destruct Hcb as [Hcb Htb].
  assert (Hcic : ci ∈ cs).
  { assert (ci ∈ filter isIndexOrData cs) as Hc
      by (rewrite Horder; apply list_elem_of_here).
    by apply list_elem_of_filter in Hc as [? ?]. }
  assert (Hcdc : cd ∈ cs).
  { assert (cd ∈ filter isIndexOrData cs) as Hc
      by (rewrite Horder; apply list_elem_of_further, list_elem_of_here).
    by apply list_elem_of_filter in Hc as [? ?]. }
  destruct (bnk_BankHeaderSection bnk) as [hdr|] eqn:Ehdr.
  2:{ exfalso. by apply (proj1 (Forall_forall _ _) Hb cb Hcb). }
  destruct (bnk_IndexSection bnk) as [idx|] eqn:Eidx.
  2:{ exfalso. by apply (proj1 (Forall_forall _ _) Hi ci Hcic). }
  destruct (bnk_DataSection bnk) as [data|] eqn:Edata.
  2:{ exfalso. by apply (proj1 (Forall_forall _ _) Hd cd Hcdc). }
  pose proof (indexOf_WriteTo ci idx Hi Hci Hmod) as Hiw.
  exists bnk. split.
  { unfold NewFile. rewrite fileReader_cursor.
    change (Z.of_nat (length (encodeChunks []))) with 0 in Hloop.
    rewrite Hloop. cbn [mbind outcome_bind]. by rewrite Edata. }
  cbv zeta.
  unfold File_WriteTo. rewrite Ehdr, Hb. cbn [mbind outcome_bind].
  rewrite Eidx, Hiw. cbn [mbind outcome_bind].
  rewrite Edata, Hd. cbn [mbind outcome_bind]. rewrite Ho.
  rewrite <- !app_assoc. do 2 f_equal. rewrite !length_app. lia.
Qed.

Lemma chunk_kinds c :
  (isBankHeader c ∧ ¬ isIndexOrData c ∧ ¬ isUnknown c) ∨
  (¬ isBankHeader c ∧ isIndexOrData c ∧ ¬ isUnknown c) ∨
  (¬ isBankHeader c ∧ ¬ isIndexOrData c ∧ isUnknown c).
Proof.
  unfold isBankHeader, isIndexOrData, isUnknown.
  destruct (decide (tag c = bkhdHeaderId)) as [->|?].
  { left. split; [done|]. split; [by intros [|]|by intros (? & _)]. }
  destruct (decide (tag c = didxHeaderId)) as [->|?].
  { right. left. split; [done|]. split; [by left|by intros (_ & ? & _)]. }
  destruct (decide (tag c = dataHeaderId)) as [->|?].
  { right. left. split; [done|]. split; [by right|by intros (_ & _ & ?)]. }
  right. right. split; [done|]. split; [by intros [|]|done].
Qed.

Lemma length_encodeChunks_kinds cs :
  length (encodeChunks cs) =
    (length (encodeChunks (filter isBankHeader cs))
     + length (encodeChunks (filter isIndexOrData cs))
     + length (encodeChunks (filter isUnknown cs)))%nat.
Proof.
  induction cs as [|c cs IH]; [done|].
  rewrite !filter_cons, encodeChunks_cons, length_app, IH.
  destruct (chunk_kinds c) as [(?&?&?)|[(?&?&?)|(?&?&?)]];
    repeat first [rewrite decide_True by done|rewrite decide_False by done];
    rewrite encodeChunks_cons, length_app; lia.
Qed.

Lemma filter_kind_unknown (P : chunk → Prop) `{∀ c, Decision (P c)} cs :
  (∀ c, isUnknown c → ¬ P c) → filter P (filter isUnknown cs) = [].
Proof.
  intros Hno. induction cs as [|c cs IH]; [done|].
  rewrite filter_cons. case_decide; [|done].
  rewrite filter_cons, decide_False by (by apply Hno). done.
Qed.

(** X19.  What File.WriteTo writes for a well-formed bank is a well-formed
    bank in the order BKHD, DIDX, DATA, unknown sections, and it is a fixed
    point: NewFile returns a File on these bytes, and File.WriteTo of that
    File writes the same bytes again. *)
Theorem written_bank_is_a_fixed_point cs cb ci cd :
  filter isBankHeader cs = [cb] →
  filter isIndexOrData cs = [ci; cd] →
  tag ci = didxHeaderId → tag cd = dataHeaderId →
  Forall (λ c, Z.of_nat (length (payload c)) < 2 ^ 32) cs →
  8 ≤ Z.of_nat (length (payload cb)) →
  Z.of_nat (length (payload ci)) mod 12 = 0 →
  NoDup (WemId <$> recordsOf (payload ci)) →
  covers (recordsOf (payload ci)) (payload cd) →
  Z.of_nat (length (encodeChunks cs)) ≤ MaxInt64 →
  ∃ bnk out bnk',
    NewFile (encodeChunks cs) = Ok bnk ∧
    File_WriteTo bnk = Ok (out, Z.of_nat (length out)) ∧
    out = encodeChunks (cb :: ci :: cd :: filter isUnknown cs) ∧
    NewFile out = Ok bnk' ∧
    File_WriteTo bnk' = Ok (out, Z.of_nat (length out)).
Proof.
  intros Hbank Horder Hci Hcd H32 Hcb8 Hmod Hnd Hcov Hmax.
  destruct (roundtrip_chunks cs cb ci cd) as (bnk & Hnew & Hw); try done.
  set (cs' := cb :: ci :: cd :: filter isUnknown cs).
  assert (Hout : encodeChunk cb ++ encodeChunk ci ++ encodeChunk cd
                 ++ encodeChunks (filter isUnknown cs) = encodeChunks cs').
  { unfold cs'. by rewrite !encodeChunks_cons. }
  cbv zeta in Hw. rewrite Hout in Hw.
  assert (Hcb : isBankHeader cb).
  { assert (cb ∈ filter isBankHeader cs) as Hc
      by (rewrite Hbank; apply list_elem_of_here).
    by apply list_elem_of_filter in Hc as [? ?]. }
  assert (Hbank' : filter isBankHeader cs' = [cb]).
  { unfold cs'. rewrite !filter_cons, decide_True by done.
    rewrite !decide_False
      by (unfold isBankHeader; rewrite ?Hci, ?Hcd; done).
    by rewrite filter_kind_unknown by (by intros c (? & _)). }
  assert (Horder' : filter isIndexOrData cs' = [ci; cd]).
  { unfold cs'. rewrite !filter_cons.
    rewrite decide_False
      by (unfold isIndexOrData; rewrite Hcb; by intros [|]).
    rewrite !decide_True by (unfold isIndexOrData; auto).
    by rewrite filter_kind_unknown by (by intros c (_ & ? & ?) [|]). }
  assert (Hunknown' : filter isUnknown cs' = filter isUnknown cs).
  { unfold cs'. rewrite !filter_cons.
    rewrite !decide_False
      by (unfold isUnknown; rewrite ?Hcb, ?Hci, ?Hcd; by intros (? & ? & ?)).
    apply list_filter_filter_l. done. }
  assert (H32' : Forall (λ c, Z.of_nat (length (payload c)) < 2 ^ 32) cs').
  { rewrite Forall_forall in H32. apply Forall_forall. intros c Hc.
    apply H32. unfold cs' in Hc.
    rewrite !elem_of_cons in Hc. destruct Hc as [->|[->|[->|Hc]]].
    - assert (cb ∈ filter isBankHeader cs) as Hx
        by (rewrite Hbank; apply list_elem_of_here).
      by apply list_elem_of_filter in Hx as [? ?].
    - assert (ci ∈ filter isIndexOrData cs) as Hx
        by (rewrite Horder; apply list_elem_of_here).
      by apply list_elem_of_filter in Hx as [? ?].
    - assert (cd ∈ filter isIndexOrData cs) as Hx
        by (rewrite Horder; apply list_elem_of_further, list_elem_of_here).
      by apply list_elem_of_filter in Hx as [? ?].
    - by apply list_elem_of_filter in Hc as [? ?]. }
  assert (Hmax' : Z.of_nat (length (encodeChunks cs')) ≤ MaxInt64).
  { rewrite (length_encodeChunks_kinds cs'), Hbank', Horder', Hunknown'.
    rewrite (length_encodeChunks_kinds cs), Hbank, Horder in Hmax. lia. }
  destruct (roundtrip_chunks cs' cb ci cd) as (bnk' & Hnew' & Hw'); try done.
  cbv zeta in Hw'. rewrite Hunknown', Hout in Hw'.
  exists bnk, (encodeChunks cs'), bnk'.
  exact (conj Hnew (conj Hw (conj eq_refl (conj Hnew' Hw')))).
Qed.

Lemma written_bank_is_a_fixed_point_witness :
  ∃ bnk out bnk',
    NewFile (encodeChunks exampleChunks) = Ok bnk ∧
    File_WriteTo bnk = Ok (out, 93) ∧
    NewFile out = Ok bnk' ∧
    File_WriteTo bnk' = Ok (out, 93).
Proof.
  edestruct (written_bank_is_a_fixed_point exampleChunks)
    as (bnk & out & bnk' & Hnew & Hw & Hout & Hnew' & Hw').
  - vm_compute. reflexivity.
  - vm_compute. reflexivity.
  - reflexivity.
  - reflexivity.
  - repeat constructor.
  - vm_compute. discriminate.
  - reflexivity.
  - refine (bool_decide_unpack _ _). vm_compute. exact I.
  - vm_compute. repeat split; discriminate.
  - vm_compute. discriminate.
  - exists bnk, out, bnk'. split; [exact Hnew|].
    assert (Z.of_nat (length out) = 93) as Hlen
      by (rewrite Hout; vm_compute; reflexivity).
    rewrite <- Hlen. exact (conj Hw (conj Hnew' Hw')).
Defined.

(** ** The file that WriteTo writes after a replacement *)

Lemma File_WriteTo_others_acc others : ∀ out written,
  File_WriteTo_others others out written =
    ('(bs, n) ← File_WriteTo_others others [] 0;
     Ok (out ++ bs, written + n)).
Proof.
  induction others as [|other others IH]; intros out written;
    cbn [File_WriteTo_others mbind outcome_bind].
  { by rewrite app_nil_r, Z.add_0_r. }
  destruct (UnknownSection_WriteTo other) as [[b m]| | |];
    cbn [mbind outcome_bind]; try done.
  rewrite (IH (out ++ b)), (IH ([] ++ b)).
  destruct (File_WriteTo_others others [] 0) as [[bs n]| | |];
    cbn [mbind outcome_bind app]; try done.
  rewrite <- app_assoc. do 2 f_equal. lia.
Qed.

Lemma indexRecordBytes_fmap m ids :
  indexRecordBytes m ids =
    flat_map encodeWemDescriptor (descriptorOf m <$> ids).
Proof.
  unfold indexRecordBytes. induction ids as [|id ids IH]; [done|].
  cbn [flat_map fmap list_fmap]. by rewrite IH.
Qed.

Lemma descriptorOf_insert (m : gmap Z WemDescriptor) ids i k d :
  NoDup ids → ids !! i = Some k →
  descriptorOf (<[k := d]> m) <$> ids = <[i := d]> (descriptorOf m <$> ids).
Proof.
  intros Hnd Hi. apply list_eq. intros j.
  rewrite list_lookup_fmap.
  destruct (decide (j = i)) as [->|Hne].
  - rewrite list_lookup_insert_eq
      by (rewrite length_fmap; by eapply lookup_lt_Some).
    rewrite Hi. cbn. unfold descriptorOf. by rewrite lookup_insert_eq.
  - rewrite list_lookup_insert_ne by done. rewrite list_lookup_fmap.
    destruct (ids !! j) as [k'|] eqn:Hj; [|done]. cbn. f_equal.
    unfold descriptorOf. rewrite lookup_insert_ne; [done|].
    intros ->. by apply Hne, (NoDup_lookup ids j i k').
Qed.

(** X20.  The file that File.WriteTo writes after a replacement.  Take a
    File whose sections WriteTo can write, whose ids are distinct, and
    whose wem at index [i] carries the id at position [i] of WemIds.  Before
    the call, WriteTo writes the BKHD section, the index header and the
    records of WemIds, the DATA header and the spans of the wems, and the
    other sections.  After ReplaceWem has replaced wem [i] by [length]
    bytes of the file [src], with neither [length] nor the padding
    Length - length + RemainingLength negative, it writes the same bytes
    but for record [i], whose Length is now uint32(length), and span [i],
    which is the new payload followed by its zero padding. *)
Theorem File_WriteTo_after_ReplaceWem bnk sec idx data i wem src length bnk'
    bankBytes nb spans otherBytes no :
  bnk_BankHeaderSection bnk = Some sec →
  bnk_IndexSection bnk = Some idx →
  bnk_DataSection bnk = Some data →
  Wems data !! i = Some wem →
  NoDup (WemIds idx) →
  WemIds idx !! i = Some (WemId (Descriptor wem)) →
  BankHeaderSection_WriteTo sec = Ok (bankBytes, nb) →
  Forall2 (λ wem bs, wemBytes wem = Ok bs) (Wems data) spans →
  File_WriteTo_others (Others bnk) [] 0 = Ok (otherBytes, no) →
  ReplaceWem bnk (Z.of_nat i) (FileReaderAt src) length = Returned bnk' →
  0 ≤ length ≤ MaxInt64 →
  let padding := Length (Descriptor wem) - length + RemainingLength wem in
  0 ≤ padding ≤ MaxInt64 →
  let records := descriptorOf (DescriptorMap idx) <$> WemIds idx in
  let record :=
    mkWemDescriptor (WemId (Descriptor wem)) (Offset (Descriptor wem))
      (wrap32 length) in
  let span :=
    take (Z.to_nat length) src ++ replicate (Z.to_nat padding) "000"%byte in
  let serialized records spans :=
    bankBytes
    ++ (encodeSectionHeader (didx_Header idx)
        ++ flat_map encodeWemDescriptor records)
    ++ (encodeSectionHeader (data_Header data) ++ concat spans)
    ++ otherBytes in
  File_WriteTo bnk =
    Ok (serialized records spans,
        Z.of_nat (List.length (serialized records spans))) ∧
  File_WriteTo bnk' =
    Ok (serialized (<[i := record]> records) (<[i := span]> spans),
        Z.of_nat (List.length
                    (serialized (<[i := record]> records)
                       (<[i := span]> spans)))).
Proof.
  intros Hsec Hidx Hdata Hwem Hnd Hid Hbank Hspans Hothers Hret Hlen padding
    Hpad records record span serialized.
  assert (∀ bnk0 out n, File_WriteTo bnk0 = Ok (out, n) →
            File_WriteTo bnk0 = Ok (out, Z.of_nat (List.length out)))
    as Hcount.
  { intros bnk0 out n H. by rewrite (File_WriteTo_count bnk0 out n H) in H. }
  split.
  - eapply Hcount. unfold File_WriteTo.
    rewrite Hsec, Hbank. cbn [mbind outcome_bind].
    rewrite Hidx, DataIndexSection_WriteTo_eq. cbn [mbind outcome_bind].
    rewrite Hdata. unfold DataSection_WriteTo.
    rewrite (DataSection_WriteTo_loop_spans _ spans) by done.
    cbn [mbind outcome_bind].
    rewrite File_WriteTo_others_acc, Hothers. cbn [mbind outcome_bind].
    unfold serialized, records. rewrite indexRecordBytes_fmap.
    rewrite <- !app_assoc. reflexivity.
  - apply replaceAt_Returned_inv in Hret
      as (data0 & idx0 & wem0 & Hdata0 & Hidx0 & _ & Hwem0 & _ & ->).
    rewrite Nat2Z.id in *. simplify_eq.
    eapply Hcount. unfold File_WriteTo.
    cbn [setDescriptor setWem bnk_BankHeaderSection bnk_IndexSection
         bnk_DataSection Others].
    rewrite Hsec, Hbank. cbn [mbind outcome_bind].
    rewrite DataIndexSection_WriteTo_eq. cbn [mbind outcome_bind].
    unfold DataSection_WriteTo. cbn [Wems data_Header].
    rewrite (DataSection_WriteTo_loop_spans _ (<[i := span]> spans)).
    2:{ apply Forall2_insert; [done|]. by apply wemBytes_replaced. }
    cbn [mbind outcome_bind].
    rewrite File_WriteTo_others_acc, Hothers. cbn [mbind outcome_bind].
    unfold serialized, records.
    cbn [didx_Header WemIds DescriptorMap replacedWem Descriptor WemId].
    rewrite indexRecordBytes_fmap.
    rewrite (descriptorOf_insert _ _ i) by done.
    rewrite <- !app_assoc. reflexivity.
Qed.

Lemma File_WriteTo_after_ReplaceWem_witness :
  ∃ bnk',
    ReplaceWem twoWemFile 0 exampleSource 2 = Returned bnk' ∧
    File_WriteTo bnk' =
      Ok (sectionHeaderBytes bkhdHeaderId 8 ++ PutUint32 134 ++ PutUint32 77
          ++ sectionHeaderBytes didxHeaderId 24
          ++ encodeWemDescriptor (mkWemDescriptor 7 0 2)
          ++ encodeWemDescriptor (mkWemDescriptor 9 4 2)
          ++ sectionHeaderBytes dataHeaderId 8
          ++ ["187"; "187"; "000"; "000"; "004"; "005"; "000"; "000"]%byte,
          64).
Proof.
  destruct (bnk_BankHeaderSection twoWemFile) as [sec|] eqn:Hsec;
    [|vm_compute in Hsec; discriminate].
  destruct (bnk_IndexSection twoWemFile) as [idx|] eqn:Hidx;
    [|vm_compute in Hidx; discriminate].
  destruct (bnk_DataSection twoWemFile) as [data|] eqn:Hdata;
    [|vm_compute in Hdata; discriminate].
  destruct (Wems data !! 0%nat) as [wem|] eqn:Hwem;
    [|vm_compute in Hdata; injection Hdata as <-;
      vm_compute in Hwem; discriminate].
  destruct (ReplaceWem twoWemFile 0 exampleSource 2) as [bnk'|] eqn:Hret;
    [|vm_compute in Hret; discriminate].
  exists bnk'. split; [done|].
  vm_compute in Hsec. injection Hsec as Hsec.
  vm_compute in Hidx. injection Hidx as Hidx.
  vm_compute in Hdata. injection Hdata as Hdata.
  assert (bnk_BankHeaderSection twoWemFile = Some sec) as Hsec'
    by (rewrite <- Hsec; vm_compute; reflexivity).
  assert (bnk_IndexSection twoWemFile = Some idx) as Hidx'
    by (rewrite <- Hidx; vm_compute; reflexivity).
  assert (bnk_DataSection twoWemFile = Some data) as Hdata'
    by (rewrite <- Hdata; vm_compute; reflexivity).
  destruct (File_WriteTo_after_ReplaceWem twoWemFile sec idx data 0 wem
              ["187"; "187"]%byte 2 bnk'
              (sectionHeaderBytes bkhdHeaderId 8 ++ PutUint32 134
               ++ PutUint32 77) 16
              [["001"; "002"; "003"; "000"]; ["004"; "005"; "000"; "000"]]%byte
              [] 0 Hsec' Hidx' Hdata' Hwem) as [_ Hafter].
  - rewrite <- Hidx. refine (bool_decide_unpack _ _). vm_compute. exact I.
  - rewrite <- Hidx. rewrite <- Hdata in Hwem.
    vm_compute in Hwem. injection Hwem as <-. vm_compute. reflexivity.
  - rewrite <- Hsec. vm_compute. reflexivity.
  - rewrite <- Hdata. repeat constructor; vm_compute; reflexivity.
  - vm_compute. reflexivity.
  - exact Hret.
  - vm_compute. split; discriminate.
  - rewrite <- Hdata in Hwem. vm_compute in Hwem. injection Hwem as <-.
    vm_compute. split; discriminate.
  - rewrite Hafter. rewrite <- Hidx, <- Hdata. rewrite <- Hdata in Hwem.
    vm_compute in Hwem. injection Hwem as <-. vm_compute. reflexivity.
Defined.

(** ** The padding reader and the end of the copies *)

(** X21.  The padding that InfiniteReaderAt provides.  Its ReadAt fills
    the whole buffer and reports a single byte, so that each Read of a
    section reader over it advances by one byte; io.Copy of a section of
    [n] bytes at [off] nevertheless writes exactly [n] copies of Value and
    reports that count, when [n] is not negative and the section ends at
    or before maxint64.  A section of negative length is not empty: the
    guard of io.NewSectionReader wraps around, the section runs up to
    maxint64, and io.Copy writes maxint64 - off copies of Value. *)
Theorem InfiniteReaderAt_padding Value off n :
  0 ≤ off ≤ MaxInt64 → MinInt64 ≤ n ≤ MaxInt64 →
  let count := if (0 <=? n) && (off + n <=? MaxInt64) then n
               else MaxInt64 - off in
  (∀ len at_, (ReadAt (InfiniteReaderAt Value) len at_).1.2 = 1) ∧
  Copy (NewSectionReader (InfiniteReaderAt Value) off n) =
    Ok (replicate (Z.to_nat count) Value, count).
Proof.
  intros Hoff Hn count. split; [done|].
  assert (∀ limit, off ≤ limit →
            Copy (mkSectionReader (InfiniteReaderAt Value) off off limit) =
              Ok (replicate (Z.to_nat (limit - off)) Value, limit - off))
    as Hcopy.
  { intros limit Hlimit. unfold Copy. cbn [sr_limit sr_off].
    rewrite copyLoop_Infinite by lia. cbn [app]. do 2 f_equal. lia. }
  unfold count. destruct (Z.leb_spec 0 n) as [Hpos|Hneg]; cbn [andb].
  - destruct (Z.leb_spec (off + n) MaxInt64) as [Hfit|Hover].
    + rewrite NewSectionReader_within by lia. rewrite Hcopy by lia.
      by replace (n + off - off) with n by lia.
    + rewrite NewSectionReader_beyond by lia. apply Hcopy. lia.
  - rewrite NewSectionReader_negative by lia. apply Hcopy. lia.
Qed.

Lemma InfiniteReaderAt_padding_witness :
  Copy (NewSectionReader (InfiniteReaderAt "000") 0 3) =
    Ok (["000"; "000"; "000"]%byte, 3).
Proof.
  apply (InfiniteReaderAt_padding "000"%byte 0 3).
  - vm_compute. split; discriminate.
  - vm_compute. split; discriminate.
Defined.

Lemma BankHeaderSection_WriteTo_terminates hdr :
  BankHeaderSection_WriteTo hdr ≠ Diverged.
Proof.
  unfold BankHeaderSection_WriteTo.
  pose proof (Copy_terminates (bkhd_RemainingReader hdr)).
  by destruct (Copy (bkhd_RemainingReader hdr)) as [[bs n]| | |].
Qed.

Lemma UnknownSection_WriteTo_terminates unknown :
  UnknownSection_WriteTo unknown ≠ Diverged.
Proof.
  unfold UnknownSection_WriteTo.
  pose proof (Copy_terminates (unk_Reader unknown)).
  by destruct (Copy (unk_Reader unknown)) as [[bs n]| | |].
Qed.

(** X22.  The copies end.  Every Read of a section reader that the package
    builds either reports an error or advances by at least one byte, also
    over a section of a section and over an InfiniteReaderAt; so io.Copy of
    such a reader ends within the length of its section, and so does every
    WriteTo method, whatever File it is called on. *)
Theorem WriteTo_ends :
  (∀ src, Copy src ≠ Diverged) ∧
  (∀ hdr, BankHeaderSection_WriteTo hdr ≠ Diverged) ∧
  (∀ idx, DataIndexSection_WriteTo idx ≠ Diverged) ∧
  (∀ data, DataSection_WriteTo data ≠ Diverged) ∧
  (∀ unknown, UnknownSection_WriteTo unknown ≠ Diverged) ∧
  (∀ bnk, File_WriteTo bnk ≠ Diverged).
Proof.
  split; [apply Copy_terminates|].
  split; [apply BankHeaderSection_WriteTo_terminates|].
  split; [by intros idx; rewrite DataIndexSection_WriteTo_eq|].
  split; [apply DataSection_WriteTo_terminates|].
  split; [apply UnknownSection_WriteTo_terminates|].
  intros bnk. unfold File_WriteTo.
  destruct (bnk_BankHeaderSection bnk) as [hdr|]; [|done].
  pose proof (BankHeaderSection_WriteTo_terminates hdr).
  destruct (BankHeaderSection_WriteTo hdr) as [[bs n]| | |]; try done.
  cbn [mbind outcome_bind].
  destruct (bnk_IndexSection bnk) as [idx|]; [|done].
  rewrite DataIndexSection_WriteTo_eq. cbn [mbind outcome_bind].
  destruct (bnk_DataSection bnk) as [data|]; [|done].
  pose proof (DataSection_WriteTo_terminates data).
  destruct (DataSection_WriteTo data) as [[bs' n']| | |]; try done.
  cbn [mbind outcome_bind]. apply File_WriteTo_others_terminates.
Qed.

(** ** The File that NewFile builds on a well-formed bank *)

Lemma data_not_before_index cs ci cd l1 l2 :
  filter isIndexOrData cs = [ci; cd] →
  tag ci = didxHeaderId → tag cd = dataHeaderId →
  cs = l1 ++ ci :: l2 → cd ∉ l1.
Proof.
  intros Horder Hci Hcd Hcs Hin.
  apply list_elem_of_split in Hin as (a & b & ->).
  rewrite Hcs, <- app_assoc in Horder. cbn [app] in Horder.
  rewrite filter_app, filter_cons_True in Horder
    by (unfold isIndexOrData; auto).
  rewrite filter_app, filter_cons_True in Horder
    by (unfold isIndexOrData; auto).
  destruct (filter isIndexOrData a) as [|x r].
  - cbn in Horder. injection Horder as Heq _.
    rewrite Heq, Hci in Hcd. done.
  - cbn in Horder. injection Horder as _ Hrest.
    destruct r; cbn in Hrest; [|by destruct r].
    injection Hrest as Hrest. by destruct (filter isIndexOrData b).
Qed.

Lemma parse_chunks_linked cs cb ci cd :
  filter isBankHeader cs = [cb] →
  filter isIndexOrData cs = [ci; cd] →
  tag ci = didxHeaderId → tag cd = dataHeaderId →
  Forall (λ c, Z.of_nat (length (payload c)) < 2 ^ 32) cs →
  8 ≤ Z.of_nat (length (payload cb)) →
  Z.of_nat (length (payload ci)) mod 12 = 0 →
  NoDup (WemId <$> recordsOf (payload ci)) →
  Z.of_nat (length (encodeChunks cs)) ≤ MaxInt64 →
  ∀ l2 l1 bnk fuel bnk',
    cs = l1 ++ l2 →
    linkedSoFar (encodeChunks cs) ci cd bnk l1 →
    NewFile_loop fuel bnk
      (fileCursor (encodeChunks cs) (Z.of_nat (length (encodeChunks l1))))
    = Ok bnk' →
    linkedSoFar (encodeChunks cs) ci cd bnk' cs.
Proof.
  intros Hbank Horder Hci Hcd H32 Hcb8 Hmod Hnd Hmax.
  induction l2 as [|c l2 IH]; intros l1 bnk fuel bnk' Hcs Hinv Hloop.
  - rewrite app_nil_r in Hcs. subst l1.
    destruct fuel as [|fuel]; [done|].
    cbn [NewFile_loop] in Hloop. rewrite NewFile_body_end in Hloop by lia.
    rewrite decide_False in Hloop by lia. cbn [mbind outcome_bind] in Hloop.
    by injection Hloop as <-.
  - destruct fuel as [|fuel]; [done|]. cbn [NewFile_loop] in Hloop.
    assert (Hin : c ∈ cs).
    { rewrite Hcs. apply elem_of_app. right. apply list_elem_of_here. }
    pose proof (proj1 (Forall_forall _ _) H32 c Hin) as Hc32. cbn in Hc32.
    assert (Hcontents :
      encodeChunks cs =
      encodeChunks l1 ++ encodeChunk c ++ encodeChunks l2)
      by (by rewrite Hcs, encodeChunks_app, encodeChunks_cons).
    assert (Hnext :
      Z.of_nat (length (encodeChunks l1)) + 8
      + Z.of_nat (length (payload c))
      = Z.of_nat (length (encodeChunks (l1 ++ [c])))).
    { rewrite encodeChunks_app, length_app. cbn [encodeChunks flat_map].
      rewrite app_nil_r. pose proof (length_encodeChunk c). lia. }
    assert (Hcs' : cs = (l1 ++ [c]) ++ l2) by (by rewrite <- app_assoc).
    pose proof Hmax as Hmax'. rewrite Hcontents in Hmax'.
    destruct Hinv as (Hii & Hid).
    pose proof (NewFile_body_chunk _ _ _ Hc32 Hmax' bnk) as Hbody.
    rewrite <- Hcontents in Hbody. rewrite Hbody in Hloop. clear Hbody.
    unfold NewFile_switch in Hloop. cbn [Identifier chunkHeader] in Hloop.
    assert (Hdone : ∀ x, x ∈ l1 → x ∈ l1 ++ [c])
      by (intros x Hx; apply elem_of_app; by left).
    destruct (decide (tag c = bkhdHeaderId)) as [Hb|Hnb];
      [|destruct (decide (tag c = didxHeaderId)) as [Hi|Hni];
        [|destruct (decide (tag c = dataHeaderId)) as [Hd|Hnd']]].
    + (* BKHD *)
      pose proof (bank_chunk cs cb Hbank c Hin Hb) as ->.
      destruct (NewBankHeaderSection_chunk _ (encodeChunks l2) cb Hc32
                  Hmax' Hb Hcb8) as (sec & Hsec & _).
      rewrite <- Hcontents in Hsec. rewrite Hsec in Hloop.
      cbn [mbind outcome_bind] in Hloop. rewrite Hnext in Hloop.
      apply (IH _ _ _ _ Hcs') in Hloop; [done|].
      split; [exact Hii|]. cbn [bnk_DataSection bnk_IndexSection].
      intros data Hdata. destruct (Hid data Hdata) as [? ?]. by auto.
    + (* DIDX *)
      pose proof (index_chunk cs ci cd Horder Hcd c Hin Hi) as ->.
      destruct (NewDataIndexSection_chunk _ (encodeChunks l2) ci Hc32
                  Hmax' Hi Hmod Hnd) as (idx & Hsec & Hidx).
      rewrite <- Hcontents in Hsec. rewrite Hsec in Hloop.
      cbn [mbind outcome_bind] in Hloop. rewrite Hnext in Hloop.
      apply (IH _ _ _ _ Hcs') in Hloop; [done|].
      cbn [bnk_DataSection bnk_IndexSection]. split.
      * by intros ? [= <-].
      * intros data Hdata. destruct (Hid data Hdata) as [Hcdin _].
        by destruct (data_not_before_index cs ci cd l1 l2 Horder Hci Hcd Hcs).
    + (* DATA *)
      pose proof (data_chunk cs ci cd Horder Hci c Hin Hd) as ->.
      pose proof (index_before_data cs ci cd Horder Hci l1 cd l2 Hcs Hd)
        as Hbefore.
      destruct (bnk_IndexSection bnk) as [idx|] eqn:Hidx;
        [|by rewrite NewDataSection_nil in Hloop].
      rewrite NewDataSection_fileCursor in Hloop by (done || cbn; lia).
      cbn [mbind outcome_bind hdr_Length chunkHeader] in Hloop.
      rewrite Hnext in Hloop.
      apply (IH _ _ _ _ Hcs') in Hloop; [done|].
      cbn [bnk_DataSection bnk_IndexSection].
      split; [intros ? [= <-]; by apply Hii|].
      intros data [= <-]. split.
      { apply elem_of_app. right. apply list_elem_of_here. }
      exists idx, (Z.of_nat (length (encodeChunks l1)) + 8).
      split; [done|]. split; [lia|]. split.
      { pose proof (contents_length (encodeChunks l1) (encodeChunks l2) cd).
        rewrite Hcontents. lia. }
      split.
      { rewrite Hcontents.
        pose proof (window_chunk_payload (encodeChunks l1) (encodeChunks l2)
                      cd 0 (Z.of_nat (length (payload cd)))
                      ltac:(lia) ltac:(lia) ltac:(lia)) as Hw.
        rewrite Z.add_0_r in Hw. rewrite Hw. apply window_all. }
      f_equal. apply imap_newWem.
    + (* an unknown section *)
      destruct (NewUnknownSection_chunk _ (encodeChunks l2) c Hc32 Hmax')
        as (sec & Hsec & _).
      rewrite <- Hcontents in Hsec. rewrite Hsec in Hloop.
      cbn [mbind outcome_bind] in Hloop. rewrite Hnext in Hloop.
      apply (IH _ _ _ _ Hcs') in Hloop; [done|].
      split; [exact Hii|]. cbn [bnk_DataSection bnk_IndexSection].
      intros data Hdata. destruct (Hid data Hdata) as [? ?]. by auto.
Qed.

(** ** The spans of a DATA payload *)

Lemma window_window (X : list byte) off L a n :
  0 ≤ off → 0 ≤ a → 0 ≤ n → a + n ≤ L →
  window (window X off L) a n = window X (off + a) n.
Proof.
  intros. unfold window.
  replace (Z.to_nat L) with (Z.to_nat a + (Z.to_nat L - Z.to_nat a))%nat
    by lia.
  rewrite <- take_drop_commute, take_take, drop_drop.
  rewrite Z2Nat.inj_add by lia. f_equal. lia.
Qed.

Lemma tiles_next_le descs total :
  Forall (λ d, 0 ≤ Offset d < 2 ^ 32 ∧ 0 ≤ Length d < 2 ^ 32) descs →
  tiles descs total →
  match descs with
  | [] => True
  | d :: rest =>
      let next := match rest with [] => total | n :: _ => Offset n end in
      Offset d + Length d ≤ next ∧ next ≤ total
  end.
Proof.
  destruct descs as [|d rest]; [done|]. intros Hr Ht. cbv zeta.
  destruct Ht as [Hd Hrest]. split; [done|].
  destruct rest as [|d' rest]; [done|].
  apply Forall_cons in Hr as [_ Hr].
  pose proof (tiles_head_le (d' :: rest) total Hr Hrest) as Hle.
  apply Forall_cons in Hr as [[? ?] _]. cbn in Hle. lia.
Qed.

Lemma fits_spansOf descs (P : list byte) :
  Forall (λ d, 0 ≤ Offset d < 2 ^ 32 ∧ 0 ≤ Length d < 2 ^ 32) descs →
  tiles descs (Z.of_nat (length P)) →
  fits descs (spansOf descs P) (Z.of_nat (length P)).
Proof.
  induction descs as [|d rest IH]; intros Hr Ht; [done|].
  pose proof (tiles_next_le _ _ Hr Ht) as Hn. cbv beta iota zeta in Hn.
  cbn [spansOf fits]. cbv zeta.
  apply Forall_cons in Hr as [[? ?] Hr]. destruct Ht as [_ Ht].
  split; [|by apply IH].
  rewrite length_window; [done|lia..].
Qed.

Lemma wemBytes_wemsFrom contents cd off descOf ids :
  0 ≤ off →
  off + Z.of_nat (length (payload cd)) ≤ Z.of_nat (length contents) →
  Z.of_nat (length contents) ≤ MaxInt64 →
  window contents off (Z.of_nat (length (payload cd))) = payload cd →
  Forall (λ d, 0 ≤ Offset d < 2 ^ 32 ∧ 0 ≤ Length d < 2 ^ 32)
         (descOf <$> ids) →
  tiles (descOf <$> ids) (Z.of_nat (length (payload cd))) →
  Forall2 (λ wem bs, wemBytes wem = Ok bs)
    (wemsFrom (chunkHeader cd) (fileView contents) off descOf ids)
    (spansOf (descOf <$> ids) (payload cd)).
Proof.
  intros Hoff Hfit Hmax Hwin. induction ids as [|id rest IH]; intros Hr Ht;
    [constructor|].
  rewrite wemsFrom_cons. cbv zeta.
  pose proof (tiles_next_le _ _ Hr Ht) as Hn. cbn [fmap list_fmap] in Hn.
  cbv beta iota zeta in Hn. cbn [fmap list_fmap spansOf]. cbv zeta.
  apply Forall_cons in Hr as [[? ?] Hr]. destruct Ht as [_ Ht].
  constructor; [|by apply IH].
  unfold wemBytes. cbn [Reader RemainingReader hdr_Length chunkHeader].
  set (next := match rest with
               | [] => off + Z.of_nat (length (payload cd))
               | n :: _ => off + Offset (descOf n)
               end).
  set (next' := match descOf <$> rest with
                | [] => Z.of_nat (length (payload cd))
                | n :: _ => Offset n
                end) in *.
  assert (next = off + next') as Hnext by (unfold next, next'; by destruct rest).
  rewrite Copy_fileView by lia. cbn [mbind outcome_bind].
  rewrite Copy_fileView by lia. cbn [mbind outcome_bind].
  rewrite <- window_split by lia. f_equal.
  rewrite <- Hwin at 1. rewrite window_window by lia. f_equal. lia.
Qed.

Lemma fits_length descs : ∀ spans total,
  fits descs spans total → length spans = length descs.
Proof.
  induction descs as [|d rest IH]; intros [|s spans] total; cbn; try done.
  intros [_ ?]. f_equal. by eapply IH.
Qed.

Lemma fits_insert descs : ∀ spans total i (s s' : list byte),
  fits descs spans total → spans !! i = Some s → length s' = length s →
  fits descs (<[i := s']> spans) total.
Proof.
  induction descs as [|d rest IH]; intros [|s0 spans] total i s s';
    cbn [fits]; try done.
  intros [Hlen Hrest] Hi Hs. destruct i as [|i]; cbn in *.
  - injection Hi as ->. split; [lia|done].
  - split; [done|]. by eapply IH.
Qed.

Lemma fits_offsets descs : ∀ descs' spans total,
  Forall2 (λ d d', Offset d = Offset d') descs descs' →
  fits descs spans total → fits descs' spans total.
Proof.
  induction descs as [|d rest IH]; intros descs' spans total Hall.
  - by apply Forall2_nil_inv_l in Hall as ->.
  - apply Forall2_cons_inv_l in Hall as (d' & rest' & Hd & Hall & ->).
    destruct spans as [|s spans]; [done|]. cbn [fits].
    intros [Hlen Hrest]. split; [|by eapply IH].
    rewrite <- Hd. destruct Hall as [|d1 d1' ? ? Hd1 _]; [done|].
    by rewrite <- Hd1.
Qed.

Lemma fits_length_concat descs : ∀ spans total d0,
  head descs = Some d0 → fits descs spans total →
  Z.of_nat (length (concat spans)) = total - Offset d0.
Proof.
  induction descs as [|d rest IH]; intros [|s spans] total d0; cbn [fits];
    try done.
  intros [= ->] [Hlen Hrest]. cbn [concat]. rewrite length_app.
  destruct rest as [|d1 rest].
  - destruct spans; [|done]. cbn. lia.
  - rewrite Nat2Z.inj_add, (IH spans total d1 eq_refl Hrest). lia.
Qed.

Lemma fits_window descs : ∀ spans total d0 j dj sj m,
  head descs = Some d0 → fits descs spans total →
  descs !! j = Some dj → spans !! j = Some sj →
  0 ≤ m ≤ Z.of_nat (length sj) →
  Offset d0 ≤ Offset dj ∧
  window (concat spans) (Offset dj - Offset d0) m = take (Z.to_nat m) sj.
Proof.
  induction descs as [|d rest IH]; intros [|s spans] total d0 j dj sj m;
    cbn [fits]; try done.
  intros [= ->] [Hlen Hrest] Hj Hsj Hm. destruct j as [|j].
  - injection Hj as ->. injection Hsj as ->. split; [lia|].
    rewrite Z.sub_diag. unfold window. rewrite drop_0. cbn [concat].
    rewrite take_app_le by lia. done.
  - cbn in Hj, Hsj. destruct rest as [|d1 rest]; [done|].
    destruct (IH spans total d1 j dj sj m eq_refl Hrest Hj Hsj Hm)
      as [Hle Hwin].
    split; [lia|]. cbn [concat]. rewrite <- Hwin. unfold window.
    replace (Z.to_nat (Offset dj - Offset d0))
      with (length s + Z.to_nat (Offset dj - Offset d1))%nat by lia.
    by rewrite drop_app_add.
Qed.

(** ** Records written and read back *)

Lemma decodeWemDescriptor_encode d rest :
  0 ≤ WemId d < 2 ^ 32 → 0 ≤ Offset d < 2 ^ 32 → 0 ≤ Length d < 2 ^ 32 →
  decodeWemDescriptor (encodeWemDescriptor d ++ rest) = d.
Proof.
  intros Hi Ho Hl. destruct d as [id off len].
  unfold decodeWemDescriptor, encodeWemDescriptor, getUint32. cbn in *.
  f_equal; by apply Uint32_PutUint32.
Qed.

Lemma indexRecords_valid contents off count :
  Forall (λ d, 0 ≤ WemId d < 2 ^ 32 ∧ 0 ≤ Offset d < 2 ^ 32
               ∧ 0 ≤ Length d < 2 ^ 32)
         (indexRecords contents off count).
Proof.
  revert off. induction count as [|count IH]; intros off; [constructor|].
  cbn [indexRecords]. constructor; [|apply IH].
  apply decodeWemDescriptor_range.
Qed.

Lemma length_flat_map_encode (recs : list WemDescriptor) :
  Z.of_nat (length (flat_map encodeWemDescriptor recs))
    = 12 * Z.of_nat (length recs).
Proof.
  induction recs as [|d recs IH]; [done|].
  cbn [flat_map]. rewrite length_app, length_encodeWemDescriptor.
  cbn [length]. lia.
Qed.

Lemma indexRecords_encode recs :
  Forall (λ d, 0 ≤ WemId d < 2 ^ 32 ∧ 0 ≤ Offset d < 2 ^ 32
               ∧ 0 ≤ Length d < 2 ^ 32) recs →
  indexRecords (flat_map encodeWemDescriptor recs) 0 (length recs) = recs.
Proof.
  induction recs as [|d recs IH]; intros Hv; [done|].
  apply Forall_cons in Hv as [(? & ? & ?) Hv].
  cbn [flat_map length indexRecords]. f_equal.
  - unfold window. rewrite drop_0.
    rewrite take_app_length' by (by rewrite length_encodeWemDescriptor).
    rewrite <- (app_nil_r (encodeWemDescriptor d)).
    by apply decodeWemDescriptor_encode.
  - pose proof (indexRecords_shift (encodeWemDescriptor d)
                  (flat_map encodeWemDescriptor recs) [] (length recs) 0
                  ltac:(lia)) as Hs.
    rewrite app_nil_r, length_encodeWemDescriptor in Hs.
    change (Z.of_nat 12 + 0) with (0 + 12) in Hs.
    rewrite Hs; [by apply IH|]. rewrite length_flat_map_encode. lia.
Qed.

Lemma recordsOf_encode recs :
  Forall (λ d, 0 ≤ WemId d < 2 ^ 32 ∧ 0 ≤ Offset d < 2 ^ 32
               ∧ 0 ≤ Length d < 2 ^ 32) recs →
  recordsOf (flat_map encodeWemDescriptor recs) = recs.
Proof.
  intros Hv. unfold recordsOf. rewrite length_flat_map_encode.
  replace (Z.to_nat (12 * Z.of_nat (length recs) / 12)) with (length recs).
  - by apply indexRecords_encode.
  - rewrite Z.mul_comm, Z.div_mul by lia. lia.
Qed.

Lemma length_recordsOf (bytes : list byte) :
  Z.of_nat (length bytes) mod 12 = 0 →
  12 * Z.of_nat (length (recordsOf bytes)) = Z.of_nat (length bytes).
Proof.
  intros Hmod. unfold recordsOf. rewrite length_indexRecords.
  pose proof (Z.div_mod (Z.of_nat (length bytes)) 12 ltac:(lia)).
  assert (0 ≤ Z.of_nat (length bytes) / 12) by (apply Z.div_pos; lia).
  lia.
Qed.

(** ** The File of a well-formed bank *)

Lemma well_formed_File cs cb ci cd :
  filter isBankHeader cs = [cb] →
  filter isIndexOrData cs = [ci; cd] →
  tag ci = didxHeaderId → tag cd = dataHeaderId →
  Forall (λ c, Z.of_nat (length (payload c)) < 2 ^ 32) cs →
  8 ≤ Z.of_nat (length (payload cb)) →
  Z.of_nat (length (payload ci)) mod 12 = 0 →
  NoDup (WemId <$> recordsOf (payload ci)) →
  covers (recordsOf (payload ci)) (payload cd) →
  Z.of_nat (length (encodeChunks cs)) ≤ MaxInt64 →
  ∃ bnk sec idx data off,
    NewFile (encodeChunks cs) = Ok bnk ∧
    bnk_BankHeaderSection bnk = Some sec ∧
    BankHeaderSection_WriteTo sec =
      Ok (encodeChunk cb, Z.of_nat (length (encodeChunk cb))) ∧
    bnk_IndexSection bnk = Some idx ∧ indexOf ci idx ∧
    bnk_DataSection bnk = Some data ∧
    dataAt (encodeChunks cs) cd idx off data ∧
    File_WriteTo_others (Others bnk) [] 0 =
      Ok (encodeChunks (filter isUnknown cs),
          Z.of_nat (length (encodeChunks (filter isUnknown cs)))).
Proof.
  intros Hbank Horder Hci Hcd H32 Hcb8 Hmod Hnd Hcov Hmax.
  destruct (parse_chunks cs cb ci cd Hbank Horder Hci Hcd H32 Hcb8 Hmod Hnd
              Hcov Hmax cs [] newFile (S (length (encodeChunks cs))))
    as (bnk & Hloop & _ & Hb & Hi & Hd & Ho).
  { done. }
  { repeat split; try by constructor.
    intros out written. cbn. by rewrite app_nil_r, Z.add_0_r. }
  { pose proof (length_encodeChunks_ge cs). lia. }
  pose proof (parse_chunks_linked cs cb ci cd Hbank Horder Hci Hcd H32 Hcb8
                Hmod Hnd Hmax cs [] newFile (S (length (encodeChunks cs)))
                bnk eq_refl) as Hlinked.
  destruct Hlinked as [Hli Hld]; [|exact Hloop|].
  { split; [done|]. by intros data [=]. }
  assert (Hcb : cb ∈ cs ∧ isBankHeader cb).
  { assert (cb ∈ filter isBankHeader cs) as Hc
      by (rewrite Hbank; apply list_elem_of_here).
    by apply list_elem_of_filter in Hc as [? ?]. }
  destruct Hcb as [Hcb Htb].
  assert (Hcic : ci ∈ cs).
  { assert (ci ∈ filter isIndexOrData cs) as Hc
      by (rewrite Horder; apply list_elem_of_here).
    by apply list_elem_of_filter in Hc as [? ?]. }
  assert (Hcdc : cd ∈ cs).
  { assert (cd ∈ filter isIndexOrData cs) as Hc
      by (rewrite Horder; apply list_elem_of_further, list_elem_of_here).
    by apply list_elem_of_filter in Hc as [? ?]. }
  destruct (bnk_BankHeaderSection bnk) as [sec|] eqn:Esec.
  2:{ exfalso. by apply (proj1 (Forall_forall _ _) Hb cb Hcb). }
  destruct (bnk_IndexSection bnk) as [idx|] eqn:Eidx.
  2:{ exfalso. by apply (proj1 (Forall_forall _ _) Hi ci Hcic). }
  destruct (bnk_DataSection bnk) as [data|] eqn:Edata.
  2:{ exfalso. by apply (proj1 (Forall_forall _ _) Hd cd Hcdc). }
  destruct (Hld data eq_refl) as (_ & idx' & off & [= <-] & Hat).
  exists bnk, sec, idx, data, off.
  split.
  { unfold NewFile. rewrite fileReader_cursor.
    change (Z.of_nat (length (encodeChunks []))) with 0 in Hloop.
    rewrite Hloop. cbn [mbind outcome_bind]. by rewrite Edata. }
  do 6 (split; [done|]). by rewrite Ho.
Qed.

(** ** Tiled descriptors and their spans *)

Lemma tiles_lookup_le descs total : ∀ j dj,
  Forall (λ d, 0 ≤ Offset d < 2 ^ 32 ∧ 0 ≤ Length d < 2 ^ 32) descs →
  tiles descs total → descs !! j = Some dj →
  Offset dj + Length dj ≤ total.
Proof.
  induction descs as [|d rest IH]; intros j dj Hr Ht Hj; [done|].
  destruct j as [|j].
  - injection Hj as ->. by apply (tiles_head_le (dj :: rest) total).
  - apply Forall_cons in Hr as [_ Hr]. destruct Ht as [_ Ht].
    by apply (IH j).
Qed.

Lemma tiles_insert descs total : ∀ i d d',
  tiles descs total → descs !! i = Some d →
  Offset d' = Offset d → Length d' ≤ Length d →
  tiles (<[i := d']> descs) total.
Proof.
  induction descs as [|d0 rest IH]; intros i d d' Ht Hi Ho Hl; [done|].
  destruct Ht as [Hd Ht]. destruct i as [|i].
  - injection Hi as ->. cbn [insert list_insert tiles]. split; [lia|done].
  - cbn [insert list_insert tiles]. cbn in Hi. split; [|by eapply IH].
    destruct rest as [|d1 rest]; [done|]. destruct i as [|i]; cbn in *.
    + injection Hi as ->. lia.
    + done.
Qed.

Lemma fits_tiles_lookup descs : ∀ spans total j dj (sj : list byte),
  fits descs spans total → tiles descs total →
  descs !! j = Some dj → spans !! j = Some sj →
  Length dj ≤ Z.of_nat (length sj).
Proof.
  induction descs as [|d rest IH]; intros [|s spans] total j dj sj;
    cbn [fits]; try done.
  intros [Hlen Hf] [Hd Ht] Hj Hsj. destruct j as [|j].
  - injection Hj as ->. injection Hsj as ->. lia.
  - by apply (IH spans total j).
Qed.

Lemma spansOf_lookup descs (P : list byte) : ∀ j dj,
  tiles descs (Z.of_nat (length P)) → descs !! j = Some dj →
  ∃ m, Length dj ≤ m ∧
       spansOf descs P !! j = Some (window P (Offset dj) m).
Proof.
  induction descs as [|d rest IH]; intros j dj Ht Hj; [done|].
  destruct Ht as [Hd Ht]. destruct j as [|j].
  - injection Hj as ->. cbn [spansOf]. cbv zeta. eexists. split; [|done].
    lia.
  - by apply IH.
Qed.

Lemma wemsFrom_lengths hdr view off descOf ids : ∀ spans,
  tiles (descOf <$> ids) (hdr_Length hdr) →
  fits (descOf <$> ids) spans (hdr_Length hdr) →
  Forall2 (λ wem (s : list byte),
             Z.of_nat (length s)
               = Length (Descriptor wem) + RemainingLength wem
             ∧ 0 ≤ RemainingLength wem)
    (wemsFrom hdr view off descOf ids) spans.
Proof.
  induction ids as [|id rest IH]; intros [|s spans]; cbn [fmap list_fmap fits];
    intros Ht Hf; try done.
  destruct Ht as [Hd Ht]. destruct Hf as [Hlen Hf].
  rewrite wemsFrom_cons. cbv zeta.
  constructor; [|by apply IH].
  cbn [Descriptor RemainingLength]. destruct rest; cbn in *; lia.
Qed.

Lemma take_window (X : list byte) a n m :
  0 ≤ m ≤ n → take (Z.to_nat m) (window X a n) = window X a m.
Proof.
  intros. unfold window. rewrite take_take. f_equal. lia.
Qed.

Lemma fmap_insert_same {A B} (f : A → B) (l : list A) i x y :
  l !! i = Some x → f y = f x → f <$> <[i := y]> l = f <$> l.
Proof.
  intros Hi Hf. rewrite list_fmap_insert, Hf.
  apply list_insert_id. by rewrite list_lookup_fmap, Hi.
Qed.

(** ** File.WriteTo on the File that a replacement leaves *)

Lemma File_WriteTo_replaced bnk sec idx data i wem src length
    bankBytes nb spans otherBytes no :
  bnk_BankHeaderSection bnk = Some sec →
  Wems data !! i = Some wem →
  NoDup (WemIds idx) →
  WemIds idx !! i = Some (WemId (Descriptor wem)) →
  BankHeaderSection_WriteTo sec = Ok (bankBytes, nb) →
  Forall2 (λ wem bs, wemBytes wem = Ok bs) (Wems data) spans →
  File_WriteTo_others (Others bnk) [] 0 = Ok (otherBytes, no) →
  0 ≤ length ≤ MaxInt64 →
  0 ≤ Length (Descriptor wem) - length + RemainingLength wem ≤ MaxInt64 →
  let out :=
    bankBytes
    ++ (encodeSectionHeader (didx_Header idx)
        ++ flat_map encodeWemDescriptor
             (<[i := Descriptor (replacedWem wem (FileReaderAt src) length)]>
                (descriptorOf (DescriptorMap idx) <$> WemIds idx)))
    ++ (encodeSectionHeader (data_Header data)
        ++ concat
             (<[i := take (Z.to_nat length) src
                     ++ replicate
                          (Z.to_nat (Length (Descriptor wem) - length
                                     + RemainingLength wem)) "000"%byte]>
                spans))
    ++ otherBytes in
  File_WriteTo
    (setDescriptor
       (setWem bnk data i (replacedWem wem (FileReaderAt src) length))
       idx (Descriptor (replacedWem wem (FileReaderAt src) length)))
  = Ok (out, Z.of_nat (List.length out)).
Proof.
  intros Hsec Hwem Hnd Hid Hbank Hspans Hothers Hlen Hpad out.
  assert (∃ n, File_WriteTo
            (setDescriptor
               (setWem bnk data i (replacedWem wem (FileReaderAt src) length))
               idx (Descriptor (replacedWem wem (FileReaderAt src) length)))
          = Ok (out, n)) as [n Hw].
  { unfold File_WriteTo.
    cbn [setDescriptor setWem bnk_BankHeaderSection bnk_IndexSection
         bnk_DataSection Others].
    rewrite Hsec, Hbank. cbn [mbind outcome_bind].
    rewrite DataIndexSection_WriteTo_eq. cbn [mbind outcome_bind].
    unfold DataSection_WriteTo. cbn [Wems data_Header].
    erewrite DataSection_WriteTo_loop_spans.
    2:{ apply Forall2_insert; [done|]. by apply wemBytes_replaced. }
    cbn [mbind outcome_bind].
    rewrite File_WriteTo_others_acc, Hothers. cbn [mbind outcome_bind].
    unfold out.
    cbn [didx_Header WemIds DescriptorMap replacedWem Descriptor WemId].
    rewrite indexRecordBytes_fmap.
    rewrite (descriptorOf_insert _ _ i) by done.
    rewrite <- !app_assoc. eexists. reflexivity. }
  rewrite Hw. by rewrite (File_WriteTo_count _ _ _ Hw).
Qed.

(** ** Banks rewritten with other records and spans *)

Lemma rewrittenChunks_File cs cb ci cd recs spans :
  filter isBankHeader cs = [cb] →
  filter isIndexOrData cs = [ci; cd] →
  tag ci = didxHeaderId → tag cd = dataHeaderId →
  Forall (λ c, Z.of_nat (length (payload c)) < 2 ^ 32) cs →
  8 ≤ Z.of_nat (length (payload cb)) →
  Z.of_nat (length (payload ci)) mod 12 = 0 →
  NoDup (WemId <$> recordsOf (payload ci)) →
  Z.of_nat (length (encodeChunks cs)) ≤ MaxInt64 →
  Forall (λ d, 0 ≤ WemId d < 2 ^ 32 ∧ 0 ≤ Offset d < 2 ^ 32
               ∧ 0 ≤ Length d < 2 ^ 32) recs →
  WemId <$> recs = WemId <$> recordsOf (payload ci) →
  length (concat spans) = length (payload cd) →
  covers recs (concat spans) →
  let ci' := mkChunk (tag ci) (flat_map encodeWemDescriptor recs) in
  let cd' := mkChunk (tag cd) (concat spans) in
  let cs' := rewrittenChunks cs cb ci cd recs spans in
  length (encodeChunks cs') = length (encodeChunks cs) ∧
  chunkHeader ci' = chunkHeader ci ∧
  chunkHeader cd' = chunkHeader cd ∧
  ∃ bnk idx data off,
    NewFile (encodeChunks cs') = Ok bnk ∧
    bnk_IndexSection bnk = Some idx ∧
    descriptorOf (DescriptorMap idx) <$> WemIds idx = recs ∧
    bnk_DataSection bnk = Some data ∧
    dataAt (encodeChunks cs') cd' idx off data.
Proof.
  intros Hbank Horder Hci Hcd H32 Hcb8 Hmod Hnd Hmax Hvalid Hids Hlen Hcov
    ci' cd' cs'.
  assert (Hrecs : length recs = length (recordsOf (payload ci))).
  { by rewrite <- (length_fmap WemId recs), Hids, length_fmap. }
  assert (Hlci : length (payload ci') = length (payload ci)).
  { pose proof (length_recordsOf _ Hmod).
    pose proof (length_flat_map_encode recs). unfold ci'. cbn [payload]. lia. }
  assert (Hhi : chunkHeader ci' = chunkHeader ci).
  { unfold chunkHeader. by rewrite Hlci. }
  assert (Hhd : chunkHeader cd' = chunkHeader cd).
  { unfold chunkHeader, cd'. cbn [payload tag]. by rewrite Hlen. }
  assert (Hcb : isBankHeader cb).
  { assert (cb ∈ filter isBankHeader cs) as Hc
      by (rewrite Hbank; apply list_elem_of_here).
    by apply list_elem_of_filter in Hc as [? ?]. }
  assert (Hbank' : filter isBankHeader cs' = [cb]).
  { unfold cs', rewrittenChunks. rewrite !filter_cons, decide_True by done.
    rewrite !decide_False
      by (unfold isBankHeader; cbn [tag]; rewrite ?Hci, ?Hcd; done).
    by rewrite filter_kind_unknown by (by intros c (? & _)). }
  assert (Horder' : filter isIndexOrData cs' = [ci'; cd']).
  { unfold cs', rewrittenChunks. rewrite !filter_cons.
    rewrite decide_False
      by (unfold isIndexOrData; rewrite Hcb; by intros [|]).
    rewrite !decide_True by (unfold isIndexOrData; cbn [tag]; auto).
    by rewrite filter_kind_unknown by (by intros c (_ & ? & ?) [|]). }
  assert (Hunknown' : filter isUnknown cs' = filter isUnknown cs).
  { unfold cs', rewrittenChunks. rewrite !filter_cons.
    rewrite !decide_False
      by (unfold isUnknown; cbn [tag]; rewrite ?Hcb, ?Hci, ?Hcd;
          by intros (? & ? & ?)).
    apply list_filter_filter_l. done. }
  assert (Hcic : ci ∈ cs).
  { assert (ci ∈ filter isIndexOrData cs) as Hx
      by (rewrite Horder; apply list_elem_of_here).
    by apply list_elem_of_filter in Hx as [? ?]. }
  assert (Hcdc : cd ∈ cs).
  { assert (cd ∈ filter isIndexOrData cs) as Hx
      by (rewrite Horder; apply list_elem_of_further, list_elem_of_here).
    by apply list_elem_of_filter in Hx as [? ?]. }
  assert (H32' : Forall (λ c, Z.of_nat (length (payload c)) < 2 ^ 32) cs').
  { rewrite Forall_forall in H32. apply Forall_forall. intros c Hc.
    unfold cs', rewrittenChunks in Hc.
    rewrite !elem_of_cons in Hc. destruct Hc as [->|[->|[->|Hc]]].
    - apply H32.
      assert (cb ∈ filter isBankHeader cs) as Hx
        by (rewrite Hbank; apply list_elem_of_here).
      by apply list_elem_of_filter in Hx as [? ?].
    - specialize (H32 ci Hcic). unfold ci' in Hlci.
      cbn [payload] in Hlci |- *. lia.
    - specialize (H32 cd Hcdc). cbn [payload]. lia.
    - apply H32. by apply list_elem_of_filter in Hc as [? ?]. }
  assert (Hsame : length (encodeChunks cs') = length (encodeChunks cs)).
  { rewrite (length_encodeChunks_kinds cs'), Hbank', Horder', Hunknown'.
    rewrite (length_encodeChunks_kinds cs), Hbank, Horder.
    rewrite !encodeChunks_cons, !length_app. unfold encodeChunk.
    rewrite !length_app, !length_encodeSectionHeader, Hlci.
    unfold cd'. cbn [payload]. by rewrite Hlen. }
  assert (Hrec' : recordsOf (payload ci') = recs)
    by (by apply recordsOf_encode).
  split; [done|]. split; [done|]. split; [done|].
  destruct (well_formed_File cs' cb ci' cd')
    as (bnk & sec & idx & data & off & Hnew & _ & _ & Hidx & Hio & Hdata
        & Hat & _); try done.
  - by rewrite Hlci.
  - by rewrite Hrec', Hids.
  - by rewrite Hrec'.
  - rewrite Hsame. done.
  - exists bnk, idx, data, off. split; [done|]. split; [done|].
    split; [|done]. by rewrite (indexOf_descriptors _ _ Hio).
Qed.

(** ** The wems of a parsed bank, read from its DATA payload *)

Lemma Copy_wemsFrom contents cd off descOf ids j wem :
  0 ≤ off →
  off + Z.of_nat (length (payload cd)) ≤ Z.of_nat (length contents) →
  Z.of_nat (length contents) ≤ MaxInt64 →
  window contents off (Z.of_nat (length (payload cd))) = payload cd →
  Forall (λ d, 0 ≤ Offset d < 2 ^ 32 ∧ 0 ≤ Length d < 2 ^ 32)
         (descOf <$> ids) →
  tiles (descOf <$> ids) (Z.of_nat (length (payload cd))) →
  wemsFrom (chunkHeader cd) (fileView contents) off descOf ids !! j
    = Some wem →
  (descOf <$> ids) !! j = Some (Descriptor wem) ∧
  let bs := window (payload cd) (Offset (Descriptor wem))
              (Length (Descriptor wem)) in
  Copy (Reader wem) = Ok (bs, Z.of_nat (length bs)).
Proof.
  intros Hoff Hin Hmax Hwin Hr Ht Hj.
  apply wemsFrom_lookup in Hj
    as (id & next & Hid & _ & Hdesc & Hreader & _ & _).
  assert (Hd : (descOf <$> ids) !! j = Some (Descriptor wem))
    by (by rewrite list_lookup_fmap, Hid, Hdesc).
  split; [done|]. cbv zeta.
  pose proof (tiles_lookup_le _ _ _ _ Hr Ht Hd) as Hle.
  pose proof (proj1 (Forall_forall _ _) Hr _
                (list_elem_of_lookup_2 _ _ _ Hd)) as [[? ?] [? ?]].
  rewrite Hreader, <- Hdesc. rewrite Copy_fileView by lia.
  rewrite <- Hwin at 1 2.
  by rewrite window_window by lia.
Qed.

(** ** Replacing a wem, writing the bank and parsing it again *)

Lemma covers_lookup descs (P : list byte) i d :
  covers descs P → descs !! i = Some d →
  tiles descs (Z.of_nat (length P)) ∧
  ∃ d0, head descs = Some d0 ∧ Offset d0 = 0.
Proof.
  destruct descs as [|d0 rest]; [done|]. intros [Ho Ht] _.
  split; [done|]. by exists d0.
Qed.

Lemma covers_head descs (P : list byte) d0 :
  head descs = Some d0 → Offset d0 = 0 →
  tiles descs (Z.of_nat (length P)) → covers descs P.
Proof. destruct descs as [|d rest]; [done|]. by intros [= ->] ? ?. Qed.

Lemma head_insert_Offset (descs : list WemDescriptor) i d d' d0 :
  head descs = Some d0 → descs !! i = Some d → Offset d' = Offset d →
  ∃ d0', head (<[i := d']> descs) = Some d0' ∧ Offset d0' = Offset d0.
Proof.
  destruct descs as [|d1 rest]; [done|]. intros [= ->] Hi Ho.
  destruct i as [|i].
  - injection Hi as ->. by exists d'.
  - by exists d0.
Qed.

Lemma length_window_within (X : list byte) a n :
  (length (window X a n) ≤ length X)%nat.
Proof. unfold window. rewrite length_take, length_drop. lia. Qed.

Lemma replaced_File_bytes cs cb ci cd bnk sec idx data off i d src :
  Z.of_nat (length (payload cd)) < 2 ^ 32 →
  Z.of_nat (length (encodeChunks cs)) ≤ MaxInt64 →
  NoDup (WemId <$> recordsOf (payload ci)) →
  covers (recordsOf (payload ci)) (payload cd) →
  bnk_BankHeaderSection bnk = Some sec →
  BankHeaderSection_WriteTo sec =
    Ok (encodeChunk cb, Z.of_nat (length (encodeChunk cb))) →
  bnk_IndexSection bnk = Some idx → indexOf ci idx →
  bnk_DataSection bnk = Some data →
  dataAt (encodeChunks cs) cd idx off data →
  File_WriteTo_others (Others bnk) [] 0 =
    Ok (encodeChunks (filter isUnknown cs),
        Z.of_nat (length (encodeChunks (filter isUnknown cs)))) →
  recordsOf (payload ci) !! i = Some d →
  Z.of_nat (length src) ≤ Length d →
  ∃ bnk' s pad,
    spansOf (recordsOf (payload ci)) (payload cd) !! i = Some s ∧
    length (src ++ pad) = length s ∧
    ReplaceWem bnk (Z.of_nat i) (FileReaderAt src) (Z.of_nat (length src))
      = Returned bnk' ∧
    let out :=
      encodeChunk cb
      ++ (encodeSectionHeader (chunkHeader ci)
          ++ flat_map encodeWemDescriptor
               (<[i := mkWemDescriptor (WemId d) (Offset d)
                         (Z.of_nat (length src))]>
                  (recordsOf (payload ci))))
      ++ (encodeSectionHeader (chunkHeader cd)
          ++ concat (<[i := src ++ pad]>
                       (spansOf (recordsOf (payload ci)) (payload cd))))
      ++ encodeChunks (filter isUnknown cs) in
    File_WriteTo bnk' = Ok (out, Z.of_nat (length out)).
Proof.
  intros Hcd32 Hmax Hnd Hcov Hsec Hbw Hidx Hio Hdata Hat Hoth Hi Hsrc.
  destruct Hat as (Hoff & Hin & Hwin & ->).
  pose proof (indexOf_descriptors _ _ Hio) as Hdescs.
  destruct (covers_lookup _ _ _ _ Hcov Hi) as (Ht & d0 & Hhead & Hd0).
  assert (Hr : Forall (λ d, 0 ≤ Offset d < 2 ^ 32 ∧ 0 ≤ Length d < 2 ^ 32)
                 (recordsOf (payload ci)))
    by apply indexRecords_range.
  pose proof (wemBytes_wemsFrom (encodeChunks cs) cd off
                (descriptorOf (DescriptorMap idx)) (WemIds idx)
                Hoff Hin Hmax Hwin) as Hbytes.
  pose proof (wemsFrom_lengths (chunkHeader cd) (fileView (encodeChunks cs))
                off (descriptorOf (DescriptorMap idx)) (WemIds idx)
                (spansOf (recordsOf (payload ci)) (payload cd))) as Hlens.
  rewrite Hdescs in Hbytes, Hlens. cbn [chunkHeader hdr_Length] in Hlens.
  specialize (Hbytes Hr Ht).
  specialize (Hlens Ht (fits_spansOf _ _ Hr Ht)).
  destruct (spansOf_lookup _ _ _ _ Ht Hi) as (m & Hm & Hs).
  set (s := window (payload cd) (Offset d) m) in *.
  destruct (Forall2_lookup_r _ _ _ _ _ Hlens Hs) as (wem & Hwem & Hlw & Hrl).
  assert (Hdw : Descriptor wem = d).
  { apply wemsFrom_lookup in Hwem
      as (id & next & Hid & _ & Hdesc & _).
    assert ((descriptorOf (DescriptorMap idx) <$> WemIds idx) !! i
            = Some (Descriptor wem)) as Hx
      by (by rewrite list_lookup_fmap, Hid, Hdesc).
    rewrite Hdescs, Hi in Hx. by injection Hx. }
  pose proof (proj1 (Forall_forall _ _) Hr _
                (list_elem_of_lookup_2 _ _ _ Hi)) as [[? ?] [? ?]].
  pose proof (length_window_within (payload cd) (Offset d) m) as Hsle.
  fold s in Hsle.
  set (n := Z.of_nat (length src)) in *.
  set (pad := replicate (Z.to_nat (Length (Descriptor wem) - n
                                   + RemainingLength wem)) "000"%byte).
  assert (Hwrap : wrap32 n = n) by (unfold wrap32; apply Z.mod_small; lia).
  assert (Htake : take (Z.to_nat n) src = src)
    by (apply take_ge; unfold n; lia).
  eexists _, s, pad. split; [done|]. split.
  { unfold pad. rewrite length_app, length_replicate, Hdw.
    rewrite Hdw in Hlw. unfold n in *. lia. }
  split.
  { unfold ReplaceWem.
    rewrite (replaceAt_ok bnk (Z.of_nat i) (FileReaderAt src) n _ _ idx wem
               Hdata Hidx);
      [reflexivity|lia|by rewrite Nat2Z.id|by rewrite Hdw]. }
  rewrite Nat2Z.id.
  pose proof (File_WriteTo_replaced bnk sec idx
                (mkDataSection (chunkHeader cd) (wrap32 off)
                   (wemsFrom (chunkHeader cd) (fileView (encodeChunks cs)) off
                      (descriptorOf (DescriptorMap idx)) (WemIds idx)))
                i wem src n (encodeChunk cb)
                (Z.of_nat (length (encodeChunk cb)))
                (spansOf (recordsOf (payload ci)) (payload cd))
                (encodeChunks (filter isUnknown cs))
                (Z.of_nat (length (encodeChunks (filter isUnknown cs))))
                Hsec Hwem) as Hw.
  destruct Hio as (Hhdr & Hids & _).
  cbn [Wems data_Header] in Hw.
  rewrite Hdescs, Hhdr, Htake in Hw.
  cbn [replacedWem Descriptor] in Hw. rewrite Hwrap, Hdw in Hw.
  unfold pad. cbn [replacedWem Descriptor]. rewrite ?Hwrap, ?Hdw. cbv zeta.
  apply Hw; clear Hw.
  - by rewrite Hids.
  - by rewrite Hids, list_lookup_fmap, Hi.
  - exact Hbw.
  - exact Hbytes.
  - exact Hoth.
  - unfold MaxInt64. lia.
  - rewrite Hdw in Hlw. unfold MaxInt64, n. lia.
Qed.

(** X23.  Repacking and unpacking again.  On a well-formed bank, replace
    wem number [i] by the bytes [src], which are not longer than the wem,
    and let File.WriteTo write the File.  The output is as long as the
    input, NewFile parses it, and the File has as many wems as before,
    with the ids and offsets of the original index; copying the Reader of
    wem [i] gives exactly [src], and copying the Reader of any other wem
    gives the bytes which that wem had in the DATA payload of the input. *)
Theorem replaced_bank_unpacks cs cb ci cd i d src :
  filter isBankHeader cs = [cb] →
  filter isIndexOrData cs = [ci; cd] →
  tag ci = didxHeaderId → tag cd = dataHeaderId →
  Forall (λ c, Z.of_nat (length (payload c)) < 2 ^ 32) cs →
  8 ≤ Z.of_nat (length (payload cb)) →
  Z.of_nat (length (payload ci)) mod 12 = 0 →
  NoDup (WemId <$> recordsOf (payload ci)) →
  covers (recordsOf (payload ci)) (payload cd) →
  Z.of_nat (length (encodeChunks cs)) ≤ MaxInt64 →
  recordsOf (payload ci) !! i = Some d →
  Z.of_nat (length src) ≤ Length d →
  ∃ bnk bnk' out bnk2 data2,
    NewFile (encodeChunks cs) = Ok bnk ∧
    ReplaceWem bnk (Z.of_nat i) (FileReaderAt src) (Z.of_nat (length src))
      = Returned bnk' ∧
    File_WriteTo bnk' = Ok (out, Z.of_nat (length out)) ∧
    length out = length (encodeChunks cs) ∧
    NewFile out = Ok bnk2 ∧
    bnk_DataSection bnk2 = Some data2 ∧
    length (Wems data2) = length (recordsOf (payload ci)) ∧
    ∀ j dj wem,
      recordsOf (payload ci) !! j = Some dj →
      Wems data2 !! j = Some wem →
      let bs := if decide (j = i) then src
                else window (payload cd) (Offset dj) (Length dj) in
      WemId (Descriptor wem) = WemId dj ∧
      Offset (Descriptor wem) = Offset dj ∧
      Length (Descriptor wem) = Z.of_nat (length bs) ∧
      Copy (Reader wem) = Ok (bs, Z.of_nat (length bs)).
Proof.
  intros Hbank Horder Hci Hcd H32 Hcb8 Hmod Hnd Hcov Hmax Hi Hsrc.
  destruct (well_formed_File cs cb ci cd)
    as (bnk & sec & idx & data & off & Hnew & Hsec & Hbw & Hidx & Hio & Hdata
        & Hat & Hoth); try done.
  assert (Hcdc : cd ∈ cs).
  { assert (cd ∈ filter isIndexOrData cs) as Hx
      by (rewrite Horder; apply list_elem_of_further, list_elem_of_here).
    by apply list_elem_of_filter in Hx as [? ?]. }
  pose proof (proj1 (Forall_forall _ _) H32 cd Hcdc) as Hcd32.
  destruct (replaced_File_bytes cs cb ci cd bnk sec idx data off i d src)
    as (bnk' & s & pad & Hs & Hpad & Hrep & Hw); try done.
  cbv zeta in Hw.
  set (recs := recordsOf (payload ci)) in *.
  set (spans := spansOf recs (payload cd)) in *.
  set (d' := mkWemDescriptor (WemId d) (Offset d) (Z.of_nat (length src)))
    in *.
  destruct (covers_lookup _ _ _ _ Hcov Hi) as (Ht & d0 & Hhead & Hd0).
  assert (Hr : Forall (λ d, 0 ≤ Offset d < 2 ^ 32 ∧ 0 ≤ Length d < 2 ^ 32)
                 recs)
    by apply indexRecords_range.
  assert (Hv : Forall (λ d, 0 ≤ WemId d < 2 ^ 32 ∧ 0 ≤ Offset d < 2 ^ 32
                            ∧ 0 ≤ Length d < 2 ^ 32) recs)
    by apply indexRecords_valid.
  pose proof (proj1 (Forall_forall _ _) Hv _
                (list_elem_of_lookup_2 _ _ _ Hi)) as (Hvi & Hvo & Hvl).
  pose proof (fits_spansOf _ _ Hr Ht) as Hfits. fold spans in Hfits.
  assert (Hfits' : fits recs (<[i := src ++ pad]> spans)
                     (Z.of_nat (length (payload cd))))
    by (by eapply fits_insert).
  assert (Hlen' : length (concat (<[i := src ++ pad]> spans))
                  = length (payload cd)).
  { pose proof (fits_length_concat _ _ _ _ Hhead Hfits'). lia. }
  assert (Ht' : tiles (<[i := d']> recs) (Z.of_nat (length (payload cd)))).
  { eapply tiles_insert; [done|done|done|]. unfold d'. cbn [Length]. lia. }
  destruct (head_insert_Offset recs i d d' d0 Hhead Hi eq_refl)
    as (d0' & Hhead' & Hd0').
  assert (Hv' : Forall (λ d, 0 ≤ WemId d < 2 ^ 32 ∧ 0 ≤ Offset d < 2 ^ 32
                             ∧ 0 ≤ Length d < 2 ^ 32) (<[i := d']> recs)).
  { apply Forall_insert; [done|]. unfold d'. cbn [WemId Offset Length].
    lia. }
  destruct (rewrittenChunks_File cs cb ci cd (<[i := d']> recs)
              (<[i := src ++ pad]> spans))
    as (Hsame & Hhi & Hhd & bnk2 & idx2 & data2 & off2 & Hnew2 & Hidx2
        & Hdescs2 & Hdata2 & Hat2); try done.
  { by apply (fmap_insert_same WemId recs i d d'). }
  { apply (covers_head _ _ d0'); [done|lia|]. by rewrite Hlen'. }
  set (cs' := rewrittenChunks cs cb ci cd (<[i := d']> recs)
                (<[i := src ++ pad]> spans)) in *.
  assert (Hout : encodeChunk cb
                 ++ (encodeSectionHeader (chunkHeader ci)
                     ++ flat_map encodeWemDescriptor (<[i := d']> recs))
                 ++ (encodeSectionHeader (chunkHeader cd)
                     ++ concat (<[i := src ++ pad]> spans))
                 ++ encodeChunks (filter isUnknown cs)
                 = encodeChunks cs').
  { unfold cs', rewrittenChunks. rewrite !encodeChunks_cons.
    unfold encodeChunk at 2 3. cbn [payload]. by rewrite <- Hhi, <- Hhd. }
  rewrite Hout in Hw.
  destruct Hat2 as (Hoff2 & Hin2 & Hwin2 & ->).
  exists bnk, bnk', (encodeChunks cs'), bnk2. eexists.
  split; [done|]. split; [done|]. split; [done|]. split; [done|].
  split; [done|]. split; [done|]. cbn [Wems]. split.
  { rewrite length_wemsFrom.
    rewrite <- (length_fmap (descriptorOf (DescriptorMap idx2))), Hdescs2.
    apply length_insert. }
  intros j dj wem Hj Hwem.
  cbn [payload] in Hin2, Hwin2.
  pose proof (Copy_wemsFrom (encodeChunks cs')
                (mkChunk (tag cd) (concat (<[i := src ++ pad]> spans)))
                off2 (descriptorOf (DescriptorMap idx2)) (WemIds idx2) j wem
                Hoff2 Hin2) as Hcopy.
  cbn [payload] in Hcopy. rewrite Hdescs2, Hlen' in Hcopy.
  destruct Hcopy as [Hdj Hcopy].
  { rewrite Hsame. exact Hmax. }
  { rewrite <- Hlen'. exact Hwin2. }
  { eapply Forall_impl; [exact Hv'|].
    intros ? (_ & Ho & Hl). exact (conj Ho Hl). }
  { exact Ht'. }
  { exact Hwem. }
  cbv zeta in Hcopy.
  assert (Hfits2 : fits (<[i := d']> recs) (<[i := src ++ pad]> spans)
                     (Z.of_nat (length (payload cd)))).
  { apply (fits_offsets recs); [|done].
    rewrite <- (list_insert_id recs i d Hi) at 1.
    apply Forall2_insert; [|done].
    apply Forall_Forall2_diag, Forall_true. done. }
  assert (Hilt : (i < length recs)%nat) by (by eapply lookup_lt_Some).
  assert (Hislt : (i < length spans)%nat) by (by eapply lookup_lt_Some).
  destruct (decide (j = i)) as [->|Hne].
  - rewrite list_lookup_insert_eq in Hdj by done.
    apply (inj Some) in Hdj. rewrite <- Hdj in Hcopy |- *.
    rewrite Hj in Hi. injection Hi as ->.
    destruct (fits_window _ _ _ _ i d' (src ++ pad)
                (Z.of_nat (length src)) Hhead' Hfits2) as [_ Hwd].
    { by apply list_lookup_insert_eq. }
    { by apply list_lookup_insert_eq. }
    { rewrite length_app. lia. }
    rewrite Nat2Z.id, take_app_length in Hwd.
    unfold d' in Hcopy, Hwd |- *. cbn [WemId Offset Length] in Hcopy, Hwd |- *.
    replace (Offset d - Offset d0') with (Offset d) in Hwd by lia.
    rewrite Hwd in Hcopy.
    exact (conj eq_refl (conj eq_refl (conj eq_refl Hcopy))).
  - rewrite list_lookup_insert_ne in Hdj by done.
    rewrite Hj in Hdj. apply (inj Some) in Hdj. rewrite <- Hdj in Hcopy |- *.
    destruct (spansOf_lookup _ _ _ _ Ht Hj) as (m & Hm & Hsj).
    fold spans in Hsj.
    pose proof (proj1 (Forall_forall _ _) Hr _
                  (list_elem_of_lookup_2 _ _ _ Hj)) as [[? ?] [? ?]].
    pose proof (tiles_lookup_le _ _ _ _ Hr Ht Hj) as Hle.
    pose proof (fits_tiles_lookup _ _ _ _ _ _ Hfits Ht Hj Hsj) as Hlj.
    destruct (fits_window _ _ _ _ j dj
                (window (payload cd) (Offset dj) m) (Length dj)
                Hhead' Hfits2) as [_ Hwd].
    { by rewrite list_lookup_insert_ne. }
    { by rewrite list_lookup_insert_ne. }
    { lia. }
    rewrite take_window in Hwd by lia.
    replace (Offset dj - Offset d0') with (Offset dj) in Hwd by lia.
    rewrite Hwd in Hcopy. rewrite Hcopy, !length_window by lia.
    exact (conj eq_refl (conj eq_refl (conj eq_refl eq_refl))).
Qed.

Lemma replaced_bank_unpacks_witness :
  ∃ bnk bnk' out bnk2 data2,
    NewFile (encodeChunks exampleChunks) = Ok bnk ∧
    ReplaceWem bnk 0 (FileReaderAt ["010"; "011"]%byte) 2 = Returned bnk' ∧
    File_WriteTo bnk' = Ok (out, Z.of_nat (length out)) ∧
    length out = 93%nat ∧
    NewFile out = Ok bnk2 ∧
    bnk_DataSection bnk2 = Some data2 ∧
    (∀ wem, Wems data2 !! 0%nat = Some wem →
            Copy (Reader wem) = Ok (["010"; "011"]%byte, 2)) ∧
    (∀ wem, Wems data2 !! 1%nat = Some wem →
            Copy (Reader wem) = Ok (["004"; "005"]%byte, 2)).
Proof.
  edestruct replaced_bank_unpacks
    with (cs := exampleChunks) (i := 0%nat) (d := mkWemDescriptor 7 0 3)
         (src := ["010"; "011"]%byte)
    as (bnk & bnk' & out & bnk2 & data2 & Hnew & Hrep & Hw & Hlen & Hnew2
        & Hdata2 & _ & Hall).
  - vm_compute. reflexivity.
  - vm_compute. reflexivity.
  - reflexivity.
  - reflexivity.
  - repeat constructor.
  - vm_compute. discriminate.
  - reflexivity.
  - refine (bool_decide_unpack _ _). vm_compute. exact I.
  - vm_compute. repeat split; discriminate.
  - vm_compute. discriminate.
  - vm_compute. reflexivity.
  - vm_compute. discriminate.
  - exists bnk, bnk', out, bnk2, data2.
    split; [exact Hnew|]. split; [exact Hrep|]. split; [exact Hw|].
    split; [rewrite Hlen; vm_compute; reflexivity|].
    split; [exact Hnew2|]. split; [exact Hdata2|]. split.
    + intros wem Hwem.
      assert (recordsOf (payload (mkChunk didxHeaderId
                (encodeWemDescriptor (mkWemDescriptor 7 0 3)
                 ++ encodeWemDescriptor (mkWemDescriptor 9 4 2))))
              !! 0%nat = Some (mkWemDescriptor 7 0 3)) as Hrec
        by (vm_compute; reflexivity).
      exact (proj2 (proj2 (proj2 (Hall 0%nat _ wem Hrec Hwem)))).
    + intros wem Hwem.
      assert (recordsOf (payload (mkChunk didxHeaderId
                (encodeWemDescriptor (mkWemDescriptor 7 0 3)
                 ++ encodeWemDescriptor (mkWemDescriptor 9 4 2))))
              !! 1%nat = Some (mkWemDescriptor 9 4 2)) as Hrec
        by (vm_compute; reflexivity).
      exact (proj2 (proj2 (proj2 (Hall 1%nat _ wem Hrec Hwem)))).
Defined.

